(** * PM Internship Scheme: the allocation pipeline, embedded and verified

    A shallow embedding of the allocation-related Python sources:

    - [data_generator.py]   : [generate_internships] (seat capacity and
                              reservation split per internship);
    - [ranklist_builder.py] : [build_ranklists] (per-internship pools);
    - [optionC_allotment.py]: [optionC_allotment] (single pass, vertical
                              seats then the horizontal RURAL quota);
    - [allotment.py]        : [multi_round_allotment] (pointer-driven rounds).

    Python [int] is [Z], a [float] score is a rational [Q] (only its order is
    ever consulted), identifiers are [string]s, a pandas frame is the list of
    its rows, and the dictionaries the engines index by identifier are
    [gmap]s.  Dictionaries whose insertion order reaches the output are
    association lists. *)

From Stdlib Require Import QArith.
From stdpp Require Import gmap strings list fin_maps sorting pretty.

Open Scope Z_scope.

(** ** Rows shared by the modules *)

(** One row of [internships_df], restricted to the columns the allocation
    code reads. *)
Record Internship := {
  internship_id : string;
  capacity : Z;
  cap_sc : Z;
  cap_st : Z;
  cap_obc : Z;
  cap_ur : Z;
  cap_rural : Z
}.

(** A ranklist entry as [ranklist_builder.make_struct] builds it. *)
Record Cand := {
  student_id : string;
  final_score : Q;
  reservation : string;
  rural : Z;
  gender : string
}.

(** ** data_generator.py *)

Module DataGenerator.

(** [str(n).zfill(w)] for a natural number. *)
Definition zfill (w : nat) (s : string) : string :=
  String.concat "" (replicate (w - String.length s) "0") +:+ s.

(** The reservation split of [generate_internships] for a drawn capacity
    [cap]; [//] is floor division. *)
Definition seat_split (i : nat) (cap : Z) : Internship :=
  let cap_sc := Z.max 1 (cap / 10) in
  let cap_st := Z.max 1 (cap / 20) in
  let cap_obc := Z.max 1 (cap / 6) in
  let cap_ur := cap - (cap_sc + cap_st + cap_obc) in
  let cap_rural := Z.max 1 (cap / 5) in
  {| internship_id := "I" +:+ zfill 3 (pretty (i + 1)%nat);
     capacity := cap;
     cap_sc := cap_sc; cap_st := cap_st; cap_obc := cap_obc;
     cap_ur := cap_ur; cap_rural := cap_rural |}.

(** [generate_internships(n)]: the loop body draws the capacity with
    [random.randint(5, 20)]; [caps] lists the [n] successive draws. *)
Definition generate_internships (caps : list Z) : list Internship :=
  imap seat_split caps.

(** What [random.randint(5, 20)] can return. *)
Definition randint_5_20 (cap : Z) : Prop := 5 <= cap <= 20.

Definition quota_ok (r : Internship) : Prop :=
  cap_sc r + cap_st r + cap_obc r + cap_ur r = capacity r
  /\ 0 <= cap_sc r /\ 0 <= cap_st r /\ 0 <= cap_obc r /\ 0 <= cap_ur r
  /\ 0 <= cap_rural r
  /\ cap_rural r <= capacity r.

Lemma seat_split_ok i cap : randint_5_20 cap -> quota_ok (seat_split i cap).
Proof.
  unfold randint_5_20, quota_ok; simpl; intros [Hlo Hhi].
  Z.to_euclidean_division_equations; lia.
Qed.

(** C6. Every internship produced by [generate_internships] has vertical
    sub-quotas that add up to its capacity exactly, no negative sub-quota,
    and a rural sub-quota that does not exceed the capacity. *)
Theorem generate_internships_quota_ok (caps : list Z) :
  Forall randint_5_20 caps ->
  Forall quota_ok (generate_internships caps).
Proof.
  intros Hcaps. unfold generate_internships.
  apply Forall_lookup. intros i r Hi.
  rewrite list_lookup_imap in Hi.
  destruct (caps !! i) as [cap|] eqn:Hcap; simpl in Hi; [|discriminate].
  injection Hi as <-.
  apply seat_split_ok.
  exact (proj1 (Forall_lookup _ _) Hcaps i cap Hcap).
Qed.

Lemma generate_internships_quota_ok_witness :
  Forall randint_5_20 [5; 12; 20] /\
  Forall quota_ok (generate_internships [5; 12; 20]).
Proof.
  assert (Forall randint_5_20 [5; 12; 20]) as H.
  { repeat constructor; unfold randint_5_20; lia. }
  split; [exact H | exact (generate_internships_quota_ok [5; 12; 20] H)].
Defined.

Example seat_split_5 :
  seat_split 0 5 =
  {| internship_id := "I001"; capacity := 5; cap_sc := 1; cap_st := 1;
     cap_obc := 1; cap_ur := 2; cap_rural := 1 |}.
Proof. vm_compute. reflexivity. Qed.

(** *** [assign_preferences] *)

(** The whitespace characters of ASCII, on which [str.split()] breaks. *)
Definition is_space (c : Ascii.ascii) : bool :=
  let n := Ascii.nat_of_ascii c in
  ((9 <=? n)%nat && (n <=? 13)%nat) || ((28 <=? n)%nat && (n <=? 32)%nat).

Fixpoint split_from (s : string) (word : string) : list string :=
  match s with
  | EmptyString => if decide (word = "") then [] else [word]
  | String c s' =>
      if is_space c then
        if decide (word = "") then split_from s' ""
        else word :: split_from s' ""
      else split_from s' (word +:+ String c "")
  end.

(** [s.split()] for ASCII text. *)
Definition split (s : string) : list string := split_from s "".

Example split_skills :
  split "python sql  ml " = ["python"; "sql"; "ml"].
Proof. vm_compute. reflexivity. Qed.

(** A row of [internships_df], restricted to the columns
    [assign_preferences] reads. *)
Record Posting := {
  post_internship_id : string;
  post_req_skills : string;
  post_tier : string;
  post_location_type : string
}.

(** A value, or the [KeyError] a dictionary lookup raised. *)
Inductive Result (A : Type) :=
  | Ok (a : A)
  | KeyError (key : string).
Arguments Ok {A} a.
Arguments KeyError {A} key.

(** [{"Tier1": 3, "Tier2": 2, "Tier3": 1}[tier]] *)
Definition tier_score (tier : string) : Result Z :=
  if decide (tier = "Tier1") then Ok 3
  else if decide (tier = "Tier2") then Ok 2
  else if decide (tier = "Tier3") then Ok 1
  else KeyError tier.

(** [{"Office": 3, "Remote": 2, "Factory": 1}[location_type]] *)
Definition location_score (location_type : string) : Result Z :=
  if decide (location_type = "Office") then Ok 3
  else if decide (location_type = "Remote") then Ok 2
  else if decide (location_type = "Factory") then Ok 1
  else KeyError location_type.

(** [len(skill_set.intersection(req))] *)
Definition overlap (skill_set req : gset string) : Z :=
  Z.of_nat (size (skill_set ∩ req)).

(** The body of the loop: the pair appended to [scored]. *)
Definition score_posting (skill_set : gset string) (row : Posting) :
    Result (string * Z) :=
  let req : gset string := list_to_set (split (post_req_skills row)) in
  match tier_score (post_tier row) with
  | KeyError k => KeyError k
  | Ok tier_score =>
      match location_score (post_location_type row) with
      | KeyError k => KeyError k
      | Ok location_score =>
          Ok (post_internship_id row,
              overlap skill_set req * 2 + tier_score + location_score)
      end
  end.

Fixpoint score_postings (skill_set : gset string) (rows : list Posting) :
    Result (list (string * Z)) :=
  match rows with
  | [] => Ok []
  | row :: rows' =>
      match score_posting skill_set row with
      | KeyError k => KeyError k
      | Ok p =>
          match score_postings skill_set rows' with
          | KeyError k => KeyError k
          | Ok ps => Ok (p :: ps)
          end
      end
  end.

(** [scored.sort(key=lambda x: x[1], reverse=True)]: descending and stable,
    entries of equal score keep their order. *)
Fixpoint insert_by_score (x : string * Z) (l : list (string * Z)) :
    list (string * Z) :=
  match l with
  | [] => [x]
  | y :: l' => if (y.2 <=? x.2) then x :: l else y :: insert_by_score x l'
  end.

Definition sort_by_score_desc (l : list (string * Z)) : list (string * Z) :=
  foldr insert_by_score [] l.

(** The dictionary [assign_preferences] returns. *)
Record Prefs := {
  pref_1 : option string;
  pref_2 : option string;
  pref_3 : option string;
  pref_4 : option string;
  pref_5 : option string;
  pref_6 : option string
}.

Definition assign_preferences (student_skills : string)
    (internships_df : list Posting) : Result Prefs :=
  let skill_set : gset string := list_to_set (split student_skills) in
  match score_postings skill_set internships_df with
  | KeyError k => KeyError k
  | Ok scored =>
      let scored := sort_by_score_desc scored in
      let top := fst <$> take 6 scored in
      Ok {| pref_1 := top !! 0%nat; pref_2 := top !! 1%nat;
            pref_3 := top !! 2%nat; pref_4 := top !! 3%nat;
            pref_5 := top !! 4%nat; pref_6 := top !! 5%nat |}
  end.

(** The six preferences in order. *)
Definition prefs_list (p : Prefs) : list (option string) :=
  [pref_1 p; pref_2 p; pref_3 p; pref_4 p; pref_5 p; pref_6 p].

Definition posting (iid skills tier loc : string) : Posting :=
  {| post_internship_id := iid; post_req_skills := skills;
     post_tier := tier; post_location_type := loc |}.

Definition postings_example : list Posting :=
  [ posting "I001" "python sql" "Tier2" "Factory";
    posting "I002" "excel design" "Tier1" "Office";
    posting "I003" "python ml cloud" "Tier3" "Remote" ].

Example assign_preferences_example :
  assign_preferences "python ml sql" postings_example
  = Ok {| pref_1 := Some "I001"; pref_2 := Some "I003"; pref_3 := Some "I002";
          pref_4 := None; pref_5 := None; pref_6 := None |}.
Proof. vm_compute. reflexivity. Qed.

(** The tiers and workplaces the two score tables know. *)
Definition known_posting (row : Posting) : Prop :=
  post_tier row ∈ ["Tier1"; "Tier2"; "Tier3"]
  /\ post_location_type row ∈ ["Office"; "Remote"; "Factory"].

Lemma tier_score_ok tier :
  (exists z, tier_score tier = Ok z) <-> tier ∈ ["Tier1"; "Tier2"; "Tier3"].
Proof.
  unfold tier_score. rewrite !elem_of_cons, elem_of_nil. split.
  - intros [z Hz]. repeat case_decide; try discriminate Hz; tauto.
  - intros [->|[->|[->|[]]]]; eauto.
Qed.

Lemma tier_score_error tier k : tier_score tier = KeyError k -> k = tier.
Proof. unfold tier_score. repeat case_decide; congruence. Qed.

Lemma location_score_ok loc :
  (exists z, location_score loc = Ok z) <-> loc ∈ ["Office"; "Remote"; "Factory"].
Proof.
  unfold location_score. rewrite !elem_of_cons, elem_of_nil. split.
  - intros [z Hz]. repeat case_decide; try discriminate Hz; tauto.
  - intros [->|[->|[->|[]]]]; eauto.
Qed.

Lemma location_score_error loc k : location_score loc = KeyError k -> k = loc.
Proof. unfold location_score. repeat case_decide; congruence. Qed.

Lemma score_posting_ok skill_set row :
  (exists p, score_posting skill_set row = Ok p) <-> known_posting row.
Proof.
  unfold score_posting, known_posting.
  rewrite <- tier_score_ok, <- location_score_ok.
  destruct (tier_score (post_tier row)) as [t|k];
    destruct (location_score (post_location_type row)) as [l|k']; split;
    try (intros [p Hp]; discriminate Hp); eauto;
    intros [[? ?] [? ?]]; discriminate.
Qed.

Lemma score_postings_ok skill_set rows :
  (exists ps, score_postings skill_set rows = Ok ps) <-> Forall known_posting rows.
Proof.
  induction rows as [|row rows IH]; simpl.
  - split; [constructor|eauto].
  - rewrite Forall_cons, <- IH, <- (score_posting_ok skill_set).
    destruct (score_posting skill_set row) as [p|k];
      destruct (score_postings skill_set rows) as [ps|k']; split;
      try (intros [? H]; discriminate H); eauto;
      intros [[? ?] [? ?]]; discriminate.
Qed.

Lemma score_posting_error skill_set row k :
  score_posting skill_set row = KeyError k ->
  (k = post_tier row /\ post_tier row ∉ ["Tier1"; "Tier2"; "Tier3"])
  \/ (k = post_location_type row
      /\ post_location_type row ∉ ["Office"; "Remote"; "Factory"]).
Proof.
  unfold score_posting.
  destruct (tier_score (post_tier row)) as [t|k'] eqn:Ht.
  - destruct (location_score (post_location_type row)) as [l|k''] eqn:Hl;
      [discriminate|].
    intros [= <-]. right. split; [by apply location_score_error|].
    rewrite <- location_score_ok. intros [z Hz]. congruence.
  - intros [= <-]. left. split; [by apply tier_score_error|].
    rewrite <- tier_score_ok. intros [z Hz]. congruence.
Qed.

Lemma score_postings_error skill_set rows k :
  score_postings skill_set rows = KeyError k ->
  exists row,
    row ∈ rows
    /\ ((k = post_tier row /\ post_tier row ∉ ["Tier1"; "Tier2"; "Tier3"])
        \/ (k = post_location_type row
            /\ post_location_type row ∉ ["Office"; "Remote"; "Factory"])).
Proof.
  induction rows as [|row rows IH]; simpl; [discriminate|].
  destruct (score_posting skill_set row) as [p|k'] eqn:Hrow.
  - destruct (score_postings skill_set rows) as [ps|k''] eqn:Hrows;
      [discriminate|].
    intros [= <-]. destruct (IH eq_refl) as (r & Hr & Hk).
    exists r. split; [by apply list_elem_of_further|exact Hk].
  - intros [= <-]. exists row. split; [apply list_elem_of_here|].
    by apply (score_posting_error skill_set).
Qed.

(** [assign_preferences] returns preferences exactly when every internship
    has one of the three known tiers and one of the three known workplaces;
    otherwise it raises a [KeyError] whose key is the unknown tier or
    workplace of some row. *)
Theorem assign_preferences_raises_on_unknown
    (student_skills : string) (internships_df : list Posting) :
  ((exists prefs, assign_preferences student_skills internships_df = Ok prefs)
   <-> Forall known_posting internships_df)
  /\ forall k,
       assign_preferences student_skills internships_df = KeyError k ->
       exists row,
         row ∈ internships_df
         /\ ((k = post_tier row /\ post_tier row ∉ ["Tier1"; "Tier2"; "Tier3"])
             \/ (k = post_location_type row
                 /\ post_location_type row ∉ ["Office"; "Remote"; "Factory"])).
Proof.
  unfold assign_preferences. split.
  - rewrite <- (score_postings_ok (list_to_set (split student_skills))).
    destruct (score_postings _ internships_df) as [ps|k]; split;
      try (intros [? H]; discriminate H); eauto.
  - intros k.
    destruct (score_postings (list_to_set (split student_skills))
                internships_df) as [ps|k'] eqn:Hps; [discriminate|].
    intros [= <-]. by eapply score_postings_error.
Qed.

(** The total score of a posting with a known tier and workplace. *)
Definition total_score (skill_set : gset string) (row : Posting) : Z :=
  match score_posting skill_set row with
  | Ok p => p.2
  | KeyError _ => 0
  end.

(** The stable descending sort, on the rows themselves. *)
Fixpoint insert_posting (skill_set : gset string) (x : Posting)
    (l : list Posting) : list Posting :=
  match l with
  | [] => [x]
  | y :: l' =>
      if (total_score skill_set y <=? total_score skill_set x) then x :: l
      else y :: insert_posting skill_set x l'
  end.

Definition rank_postings (skill_set : gset string) (l : list Posting) :
    list Posting :=
  foldr (insert_posting skill_set) [] l.

Definition by_total_desc (skill_set : gset string) (a b : Posting) : Prop :=
  total_score skill_set b <= total_score skill_set a.

Lemma insert_posting_perm skill_set x l : insert_posting skill_set x l ≡ₚ x :: l.
Proof.
  induction l as [|y l IH]; simpl; [reflexivity|].
  destruct (total_score skill_set y <=? total_score skill_set x); [reflexivity|].
  rewrite IH. apply Permutation_swap.
Qed.

Lemma rank_postings_perm skill_set l : rank_postings skill_set l ≡ₚ l.
Proof.
  induction l as [|x l IH]; simpl; [reflexivity|].
  rewrite insert_posting_perm. by rewrite IH.
Qed.

Lemma insert_posting_sorted skill_set x l :
  StronglySorted (by_total_desc skill_set) l ->
  StronglySorted (by_total_desc skill_set) (insert_posting skill_set x l).
Proof.
  induction 1 as [|y l Hl IH Hy]; simpl; [repeat constructor|].
  destruct (total_score skill_set y <=? total_score skill_set x) eqn:Hle.
  - apply Z.leb_le in Hle. constructor; [by constructor|].
    constructor; [exact Hle|].
    eapply Forall_impl; [exact Hy|]. unfold by_total_desc. intros z Hz. lia.
  - apply Z.leb_gt in Hle. constructor; [exact IH|].
    rewrite (insert_posting_perm skill_set x l).
    constructor; [unfold by_total_desc; lia|exact Hy].
Qed.

Lemma rank_postings_sorted skill_set l :
  StronglySorted (by_total_desc skill_set) (rank_postings skill_set l).
Proof.
  induction l as [|x l IH]; simpl; [constructor|].
  by apply insert_posting_sorted.
Qed.

(** Sorting the scored pairs is sorting the rows. *)
Definition scored_pair (skill_set : gset string) (row : Posting) : string * Z :=
  (post_internship_id row, total_score skill_set row).

Lemma score_postings_pairs skill_set rows ps :
  score_postings skill_set rows = Ok ps -> ps = scored_pair skill_set <$> rows.
Proof.
  revert ps. induction rows as [|row rows IH]; simpl; intros ps.
  - by intros [= <-].
  - destruct (score_posting skill_set row) as [p|k] eqn:Hrow; [|discriminate].
    destruct (score_postings skill_set rows) as [ps'|k]; [|discriminate].
    intros [= <-]. f_equal; [|by apply IH].
    unfold scored_pair, total_score. rewrite Hrow.
    unfold score_posting in Hrow.
    destruct (tier_score (post_tier row)); [|discriminate].
    destruct (location_score (post_location_type row)); [|discriminate].
    by injection Hrow as <-.
Qed.

Lemma insert_by_score_fmap skill_set x l :
  insert_by_score (scored_pair skill_set x) (scored_pair skill_set <$> l)
  = scored_pair skill_set <$> insert_posting skill_set x l.
Proof.
  induction l as [|y l IH]; simpl; [reflexivity|].
  destruct (total_score skill_set y <=? total_score skill_set x);
    [reflexivity|].
  simpl. f_equal. exact IH.
Qed.

Lemma sort_by_score_desc_fmap skill_set l :
  sort_by_score_desc (scored_pair skill_set <$> l)
  = scored_pair skill_set <$> rank_postings skill_set l.
Proof.
  induction l as [|x l IH]; [reflexivity|].
  change (sort_by_score_desc (scored_pair skill_set <$> x :: l))
    with (insert_by_score (scored_pair skill_set x)
            (sort_by_score_desc (scored_pair skill_set <$> l))).
  rewrite IH. apply insert_by_score_fmap.
Qed.

Lemma assign_preferences_by_rank student_skills internships_df prefs :
  assign_preferences student_skills internships_df = Ok prefs ->
  prefs_list prefs
  = (fun k => post_internship_id
                <$> rank_postings (list_to_set (split student_skills))
                      internships_df !! k)
    <$> [0; 1; 2; 3; 4; 5]%nat.
Proof.
  unfold assign_preferences.
  destruct (score_postings (list_to_set (split student_skills)) internships_df)
    as [ps|k] eqn:Hps; [|discriminate].
  apply score_postings_pairs in Hps as ->. intros [= <-].
  rewrite sort_by_score_desc_fmap.
  set (ranked := rank_postings _ internships_df).
  unfold prefs_list. simpl.
  rewrite <- !fmap_take, <- !list_fmap_compose.
  rewrite !list_lookup_fmap.
  rewrite !lookup_take_lt by lia. reflexivity.
Qed.

(** When [assign_preferences] returns, [pref_k] is the internship ranked
    [k]-th when the table is sorted by total score, highest first, and is
    [None] when the table has fewer than [k] rows. *)
Theorem assign_preferences_ranked
    (student_skills : string) (internships_df : list Posting) (prefs : Prefs) :
  assign_preferences student_skills internships_df = Ok prefs ->
  let skill_set : gset string := list_to_set (split student_skills) in
  exists ranked,
    ranked ≡ₚ internships_df
    /\ StronglySorted (by_total_desc skill_set) ranked
    /\ prefs_list prefs
       = (fun k => post_internship_id <$> ranked !! k) <$> [0; 1; 2; 3; 4; 5]%nat.
Proof.
  intros Hok skill_set. exists (rank_postings skill_set internships_df).
  split; [apply rank_postings_perm|].
  split; [apply rank_postings_sorted|].
  by apply assign_preferences_by_rank.
Qed.

Lemma assign_preferences_ranked_witness :
  let skill_set : gset string := list_to_set (split "python ml sql") in
  exists ranked,
    ranked ≡ₚ postings_example
    /\ StronglySorted (by_total_desc skill_set) ranked
    /\ prefs_list {| pref_1 := Some "I001"; pref_2 := Some "I003";
                     pref_3 := Some "I002"; pref_4 := None; pref_5 := None;
                     pref_6 := None |}
       = (fun k => post_internship_id <$> ranked !! k) <$> [0; 1; 2; 3; 4; 5]%nat.
Proof.
  apply (assign_preferences_ranked "python ml sql" postings_example).
  vm_compute. reflexivity.
Defined.

End DataGenerator.

(** ** ranklist_builder.py *)

Module RanklistBuilder.

(** One row of [pairs_df]: the internship it scores and the five columns
    that [make_struct] copies into the ranklist entry. *)
Record PairRow := {
  pair_internship_id : string;
  pair_cand : Cand
}.

Definition pair_score (r : PairRow) : Q := final_score (pair_cand r).

(** The five pools kept for one internship. *)
Record Ranklist := {
  SC : list Cand;
  ST : list Cand;
  OBC : list Cand;
  UR : list Cand;
  RURAL : list Cand
}.

#[export] Instance Ranklist_inhabited : Inhabited Ranklist :=
  populate {| SC := []; ST := []; OBC := []; UR := []; RURAL := [] |}.

(** Descending order of scores, the order [ascending=False] asks for. *)
Definition score_desc (a b : Cand) : Prop := (final_score b <= final_score a)%Q.
Definition row_desc (a b : PairRow) : Prop := score_desc (pair_cand a) (pair_cand b).

(** The tie-break the specification describes: among entries of equal score
    the smaller identity comes first. *)
Definition ties_by_identity (l : list Cand) : Prop :=
  forall (i j : nat) (a b : Cand),
    l !! i = Some a -> l !! j = Some b -> (i < j)%nat ->
    (final_score a == final_score b)%Q ->
    String.ltb (student_id a) (student_id b) = true.

Section Builder.

(** [DataFrame.sort_values(by="final_score", ascending=False)] belongs to
    pandas, not to this repository: the builder is parametric in it.  The
    only key handed to it is the score column. *)
Variable sort_values : list PairRow -> list PairRow.

Definition make_struct (df : list PairRow) : list Cand := pair_cand <$> df.

(** The body of the loop over [internships_df] for the internship [iid]. *)
Definition ranklist_of (pairs_df : list PairRow) (iid : string) : Ranklist :=
  let sub := filter (fun r => pair_internship_id r = iid) pairs_df in
  let sub := sort_values sub in
  let rl_sc := filter (fun r => reservation (pair_cand r) = "SC") sub in
  let rl_st := filter (fun r => reservation (pair_cand r) = "ST") sub in
  let rl_obc := filter (fun r => reservation (pair_cand r) = "OBC") sub in
  let rl_ur := sub in
  let rl_rural := filter (fun r => rural (pair_cand r) = 1) sub in
  {| SC := make_struct rl_sc; ST := make_struct rl_st;
     OBC := make_struct rl_obc; UR := make_struct rl_ur;
     RURAL := make_struct rl_rural |}.

Definition build_ranklists (pairs_df : list PairRow)
    (internships_df : list Internship) : gmap string Ranklist :=
  foldl (fun ranklists row =>
           let iid := internship_id row in
           <[iid := ranklist_of pairs_df iid]> ranklists)
        ∅ internships_df.

End Builder.

(** A stable descending sort on the score column: the behaviour of
    [sort_values] on short frames, where the default numpy sort is an
    insertion sort and pandas reverses the frame before and after it, so
    that rows of equal score keep their input order. *)
Fixpoint insert_desc (x : PairRow) (l : list PairRow) : list PairRow :=
  match l with
  | [] => [x]
  | y :: l' =>
      if Qle_bool (pair_score y) (pair_score x) then x :: l
      else y :: insert_desc x l'
  end.

Definition sort_values_stable (l : list PairRow) : list PairRow :=
  foldr insert_desc [] l.

(** *** Properties *)

Lemma StronglySorted_filter {A} (R : relation A) (P : A -> Prop)
    `{!forall x, Decision (P x)} (l : list A) :
  StronglySorted R l -> StronglySorted R (filter P l).
Proof.
  induction 1 as [|x l Hl IH Hx]; [constructor|].
  rewrite filter_cons. destruct (decide (P x)); [|exact IH].
  constructor; [exact IH|].
  apply list.Forall_forall. intros y Hy.
  apply list_elem_of_filter in Hy as [_ Hy].
  exact (proj1 (list.Forall_forall _ _) Hx y Hy).
Qed.

Lemma make_struct_sorted (l : list PairRow) :
  StronglySorted row_desc l -> StronglySorted score_desc (make_struct l).
Proof. apply StronglySorted_fmap. intros x y H; exact H. Qed.

Lemma ranklist_of_sorted sort_values pairs_df iid :
  (forall l, StronglySorted row_desc (sort_values l)) ->
  Forall (StronglySorted score_desc)
    (let rl := ranklist_of sort_values pairs_df iid in
     [SC rl; ST rl; OBC rl; UR rl; RURAL rl]).
Proof.
  intros Hsort. simpl.
  repeat constructor;
    apply make_struct_sorted; try apply StronglySorted_filter; apply Hsort.
Qed.

Lemma build_ranklists_lookup sort_values pairs_df internships_df iid rl :
  build_ranklists sort_values pairs_df internships_df !! iid = Some rl ->
  rl = ranklist_of sort_values pairs_df iid.
Proof.
  unfold build_ranklists.
  induction internships_df as [|row rows IH] using rev_ind.
  - simpl. rewrite lookup_empty. discriminate.
  - rewrite foldl_snoc. simpl.
    destruct (decide (internship_id row = iid)) as [->|Hne].
    + rewrite lookup_insert_eq. congruence.
    + rewrite lookup_insert_ne by exact Hne. exact IH.
Qed.

Lemma insert_desc_perm x l : insert_desc x l ≡ₚ x :: l.
Proof.
  induction l as [|y l IH]; simpl; [reflexivity|].
  destruct (Qle_bool (pair_score y) (pair_score x)); [reflexivity|].
  rewrite IH. apply Permutation_swap.
Qed.

Lemma sort_values_stable_perm l : sort_values_stable l ≡ₚ l.
Proof.
  induction l as [|x l IH]; simpl; [reflexivity|].
  rewrite insert_desc_perm. by rewrite IH.
Qed.

Lemma row_desc_trans : Transitive row_desc.
Proof.
  intros a b c Hab Hbc. unfold row_desc, score_desc in *.
  eapply Qle_trans; [exact Hbc|exact Hab].
Qed.

Lemma insert_desc_sorted x l :
  StronglySorted row_desc l -> StronglySorted row_desc (insert_desc x l).
Proof.
  induction 1 as [|y l Hl IH Hy]; simpl; [repeat constructor|].
  destruct (Qle_bool (pair_score y) (pair_score x)) eqn:Hle.
  - apply Qle_bool_iff in Hle.
    constructor; [by constructor|].
    constructor; [exact Hle|].
    eapply Forall_impl; [exact Hy|].
    intros z Hz. eapply row_desc_trans; [exact Hle|exact Hz].
  - constructor; [exact IH|].
    assert (row_desc y x) as Hyx.
    { unfold row_desc, score_desc. fold (pair_score x) (pair_score y).
      destruct (Qlt_le_dec (pair_score y) (pair_score x)) as [Hlt|Hge];
        [|exact Hge].
      apply Qlt_le_weak, Qle_bool_iff in Hlt. congruence. }
    rewrite (insert_desc_perm x l). by constructor.
Qed.

Lemma sort_values_stable_sorted l : StronglySorted row_desc (sort_values_stable l).
Proof.
  induction l as [|x l IH]; simpl; [constructor|].
  by apply insert_desc_sorted.
Qed.

(** *** The tie-break among equal scores *)

Definition mk_row (iid sid : string) (score : Q) (res : string) (r : Z)
    (g : string) : PairRow :=
  {| pair_internship_id := iid;
     pair_cand := {| student_id := sid; final_score := score;
                     reservation := res; rural := r; gender := g |} |}.

Definition one_internship : list Internship :=
  [ {| internship_id := "I001"; capacity := 5; cap_sc := 1; cap_st := 1;
       cap_obc := 1; cap_ur := 2; cap_rural := 1 |} ].

(** Two students with the same score for the same internship, the larger
    identity on the earlier row. *)
Definition tied_rows : list PairRow :=
  [ mk_row "I001" "S00002" (1 # 2) "GEN" 0 "M";
    mk_row "I001" "S00001" (1 # 2) "GEN" 0 "F";
    mk_row "I001" "S00003" (3 # 4) "OBC" 1 "F" ].

Example tied_rows_UR :
  student_id <$> UR (build_ranklists sort_values_stable tied_rows one_internship !!! "I001")
  = ["S00003"; "S00002"; "S00001"].
Proof. vm_compute. reflexivity. Qed.

(** The same rows in another order give another pool: the order among equal
    scores follows the input rows. *)
Example tied_rows_UR_swapped :
  student_id <$> UR (build_ranklists sort_values_stable
                       (reverse tied_rows) one_internship !!! "I001")
  = ["S00003"; "S00001"; "S00002"].
Proof. vm_compute. reflexivity. Qed.

(** C5, as stated, fails: in the general pool built from [tied_rows] the
    candidates S00002 and S00001 have equal scores and S00002 comes first. *)
Lemma build_ranklists_ties_counterexample :
  exists rl,
    build_ranklists sort_values_stable tied_rows one_internship !! "I001" = Some rl
    /\ ~ ties_by_identity (UR rl).
Proof.
  eexists. split; [vm_compute; reflexivity|].
  intros H.
  specialize (H 1%nat 2%nat _ _ eq_refl eq_refl ltac:(lia) ltac:(reflexivity)).
  vm_compute in H. discriminate H.
Qed.

(** The counterexample does not hinge on the sorting algorithm.  Whatever
    it is, [sort_values] sees the score column only: it computes an indexer
    from the scores and takes the rows at those positions. *)
Definition take_rows (rows : list PairRow) (indexer : list nat) : list PairRow :=
  omap (fun i => rows !! i) indexer.

Definition sort_values_by (argsort : list Q -> list nat)
    (rows : list PairRow) : list PairRow :=
  take_rows rows (argsort (pair_score <$> rows)).

Lemma take_rows_two a b indexer :
  take_rows [a; b] indexer
  = (fun i => if decide (i = 0%nat) then a else b)
      <$> filter (fun i => (i < 2)%nat) indexer.
Proof.
  induction indexer as [|i l IH]; [reflexivity|].
  rewrite filter_cons. unfold take_rows in *.
  change (omap (fun i => [a; b] !! i) (i :: l))
    with (match [a; b] !! i with
          | Some r => r :: omap (fun i => [a; b] !! i) l
          | None => omap (fun i => [a; b] !! i) l
          end).
  rewrite IH.
  destruct (decide (i < 2)%nat) as [Hi|Hi]; destruct i as [|[|i]];
    solve [reflexivity | lia].
Qed.

Definition row_S00001 : PairRow := mk_row "I001" "S00001" (1 # 2) "GEN" 0 "F".
Definition row_S00002 : PairRow := mk_row "I001" "S00002" (1 # 2) "GEN" 0 "M".

(** For any sort driven by the score column that returns the two tied rows
    it was given, one of the two input orders yields a pool with S00002
    ahead of S00001. *)
Lemma score_only_sort_cannot_order_ties (argsort : list Q -> list nat) :
  sort_values_by argsort [row_S00001; row_S00002] ≡ₚ [row_S00001; row_S00002] ->
  ~ (ties_by_identity (make_struct (sort_values_by argsort [row_S00001; row_S00002]))
     /\ ties_by_identity (make_struct (sort_values_by argsort [row_S00002; row_S00001]))).
Proof.
  unfold sort_values_by.
  change (pair_score <$> [row_S00002; row_S00001])
    with (pair_score <$> [row_S00001; row_S00002]).
  generalize (argsort (pair_score <$> [row_S00001; row_S00002])).
  intros indexer. rewrite !take_rows_two.
  generalize (filter (fun i => (i < 2)%nat) indexer) as l.
  intros l Hperm [HA HB].
  assert (length l = 2%nat) as Hlen.
  { apply Permutation_length in Hperm. by rewrite length_fmap in Hperm. }
  destruct l as [|i [|j [|k l]]]; try discriminate Hlen.
  assert (forall r, r ∈ [row_S00001; row_S00002] ->
            r ∈ (fun i => if decide (i = 0%nat) then row_S00001 else row_S00002)
                  <$> [i; j]) as Hin.
  { intros r Hr. by rewrite Hperm. }
  simpl in *.
  destruct (decide (i = 0%nat)) as [Hi|Hi], (decide (j = 0%nat)) as [Hj|Hj].
  - specialize (Hin row_S00002 ltac:(apply list_elem_of_further, list_elem_of_here)).
    repeat (apply elem_of_cons in Hin as [Hin|Hin]; [discriminate Hin|]).
    by apply not_elem_of_nil in Hin.
  - specialize (HB 0%nat 1%nat _ _ eq_refl eq_refl ltac:(lia) ltac:(reflexivity)).
    vm_compute in HB. discriminate HB.
  - specialize (HA 0%nat 1%nat _ _ eq_refl eq_refl ltac:(lia) ltac:(reflexivity)).
    vm_compute in HA. discriminate HA.
  - specialize (Hin row_S00001 ltac:(apply list_elem_of_here)).
    repeat (apply elem_of_cons in Hin as [Hin|Hin]; [discriminate Hin|]).
    by apply not_elem_of_nil in Hin.
Qed.

(** *** Who is in which pool *)

(** [c] is scored for the internship [iid] in [pairs_df]. *)
Definition scored_for (pairs_df : list PairRow) (iid : string) (c : Cand) : Prop :=
  exists row, row ∈ pairs_df /\ pair_internship_id row = iid /\ pair_cand row = c.

Lemma make_struct_filter_elem (P : PairRow -> Prop)
    `{!forall r, Decision (P r)} (Q : Cand -> Prop)
    (sub : list PairRow) (c : Cand) :
  (forall r, P r <-> Q (pair_cand r)) ->
  c ∈ make_struct (filter P sub) <-> c ∈ make_struct sub /\ Q c.
Proof.
  intros HPQ. unfold make_struct. rewrite !list_elem_of_fmap. split.
  - intros (row & -> & Hrow). apply list_elem_of_filter in Hrow as [HP Hrow].
    split; [by exists row|by apply HPQ].
  - intros [(row & -> & Hrow) HQ]. exists row. split; [reflexivity|].
    apply list_elem_of_filter. split; [by apply HPQ|exact Hrow].
Qed.

Lemma make_struct_filter_sublist (P : PairRow -> Prop)
    `{!forall r, Decision (P r)} (sub : list PairRow) :
  make_struct (filter P sub) `sublist_of` make_struct sub.
Proof. apply fmap_sublist, sublist_filter. Qed.

(** Every candidate scored for an internship is in its general pool UR, once
    per scored row; the reserved pools SC, ST and OBC and the horizontal
    pool RURAL hold exactly the members of UR with that reservation, or with
    the rural flag, in the order they have in UR. *)
Theorem build_ranklists_pool_members
    (sort_values : list PairRow -> list PairRow)
    (pairs_df : list PairRow) (internships_df : list Internship)
    (iid : string) (rl : Ranklist) :
  (forall l, sort_values l ≡ₚ l) ->
  build_ranklists sort_values pairs_df internships_df !! iid = Some rl ->
  (forall c, c ∈ UR rl <-> scored_for pairs_df iid c)
  /\ length (UR rl)
     = length (filter (fun r => pair_internship_id r = iid) pairs_df)
  /\ (forall c, c ∈ SC rl <-> c ∈ UR rl /\ reservation c = "SC")
  /\ (forall c, c ∈ ST rl <-> c ∈ UR rl /\ reservation c = "ST")
  /\ (forall c, c ∈ OBC rl <-> c ∈ UR rl /\ reservation c = "OBC")
  /\ (forall c, c ∈ RURAL rl <-> c ∈ UR rl /\ rural c = 1)
  /\ Forall (fun pool => pool `sublist_of` UR rl)
            [SC rl; ST rl; OBC rl; RURAL rl].
Proof.
  intros Hperm Hrl. apply build_ranklists_lookup in Hrl as ->.
  unfold ranklist_of. simpl.
  split; [|split; [|split; [|split; [|split; [|split]]]]].
  - intros c. unfold make_struct, scored_for.
    rewrite list_elem_of_fmap. split.
    + intros (row & -> & Hrow). rewrite Hperm in Hrow.
      apply list_elem_of_filter in Hrow as [Hid Hrow]. by exists row.
    + intros (row & Hrow & Hid & <-). exists row. split; [reflexivity|].
      rewrite Hperm. by apply list_elem_of_filter.
  - unfold make_struct. rewrite length_fmap. by rewrite Hperm.
  - intros c.
    by apply (make_struct_filter_elem _ (fun c => reservation c = "SC")).
  - intros c.
    by apply (make_struct_filter_elem _ (fun c => reservation c = "ST")).
  - intros c.
    by apply (make_struct_filter_elem _ (fun c => reservation c = "OBC")).
  - intros c. by apply (make_struct_filter_elem _ (fun c => rural c = 1)).
  - repeat constructor; apply make_struct_filter_sublist.
Qed.

Lemma build_ranklists_pool_members_witness :
  let rl := ranklist_of sort_values_stable tied_rows "I001" in
  (forall c, c ∈ UR rl <-> scored_for tied_rows "I001" c)
  /\ length (UR rl)
     = length (filter (fun r => pair_internship_id r = "I001") tied_rows)
  /\ (forall c, c ∈ SC rl <-> c ∈ UR rl /\ reservation c = "SC")
  /\ (forall c, c ∈ ST rl <-> c ∈ UR rl /\ reservation c = "ST")
  /\ (forall c, c ∈ OBC rl <-> c ∈ UR rl /\ reservation c = "OBC")
  /\ (forall c, c ∈ RURAL rl <-> c ∈ UR rl /\ rural c = 1)
  /\ Forall (fun pool => pool `sublist_of` UR rl)
            [SC rl; ST rl; OBC rl; RURAL rl].
Proof.
  intros rl.
  apply (build_ranklists_pool_members sort_values_stable tied_rows
           one_internship "I001" rl).
  - exact sort_values_stable_perm.
  - vm_compute. reflexivity.
Defined.

(** [build_ranklists] makes a ranklist for exactly the internships of the
    capacity table, and an internship nobody is scored for gets five empty
    pools. *)
Theorem build_ranklists_keys
    (sort_values : list PairRow -> list PairRow)
    (pairs_df : list PairRow) (internships_df : list Internship)
    (iid : string) :
  (forall l, sort_values l ≡ₚ l) ->
  (is_Some (build_ranklists sort_values pairs_df internships_df !! iid)
   <-> iid ∈ internship_id <$> internships_df)
  /\ (forall rl,
        build_ranklists sort_values pairs_df internships_df !! iid = Some rl ->
        (forall row, row ∈ pairs_df -> pair_internship_id row <> iid) ->
        rl = {| SC := []; ST := []; OBC := []; UR := []; RURAL := [] |}).
Proof.
  intros Hperm. split.
  - unfold build_ranklists.
    induction internships_df as [|r rows IH] using rev_ind.
    + simpl. rewrite lookup_empty. split; [by intros [? ?]|].
      intros H. by apply not_elem_of_nil in H.
    + rewrite foldl_snoc, fmap_app, elem_of_app. simpl.
      rewrite list_elem_of_singleton.
      destruct (decide (internship_id r = iid)) as [->|Hne].
      * rewrite lookup_insert_eq. split; [by right|eauto].
      * rewrite lookup_insert_ne by exact Hne. rewrite IH.
        split; [by left|]. intros [H|H]; [exact H|congruence].
  - intros rl Hrl Hnone. apply build_ranklists_lookup in Hrl as ->.
    unfold ranklist_of.
    assert (filter (fun r => pair_internship_id r = iid) pairs_df = []) as ->.
    { induction pairs_df as [|row l IHl]; [reflexivity|].
      rewrite filter_cons, decide_False
        by (apply Hnone, list_elem_of_here).
      apply IHl. intros row' Hrow'. apply Hnone. by apply list_elem_of_further. }
    assert (sort_values [] = []) as ->.
    { apply Permutation_nil_r. apply Hperm. }
    reflexivity.
Qed.

Lemma build_ranklists_keys_witness :
  (is_Some (build_ranklists sort_values_stable tied_rows one_internship !! "I001")
   <-> "I001" ∈ internship_id <$> one_internship)
  /\ (forall rl,
        build_ranklists sort_values_stable tied_rows one_internship !! "I001"
          = Some rl ->
        (forall row, row ∈ tied_rows -> pair_internship_id row <> "I001") ->
        rl = {| SC := []; ST := []; OBC := []; UR := []; RURAL := [] |}).
Proof.
  apply (build_ranklists_keys sort_values_stable tied_rows one_internship "I001").
  exact sort_values_stable_perm.
Defined.

End RanklistBuilder.

(** ** optionC_allotment.py *)

Module OptionC.
Import RanklistBuilder.

(** [for s in pool: if len(selected) < bound: selected.append(s)] *)
Definition fill_upto (bound : Z) (pool selected : list Cand) : list Cand :=
  foldl (fun selected s =>
           if bool_decide (Z.of_nat (length selected) < bound)
           then selected ++ [s] else selected)
        selected pool.

(** [d[k] = v] on a dictionary that keeps insertion order: an existing key
    keeps its place and takes the new value. *)
Fixpoint dict_set {V} (k : string) (v : V) (d : list (string * V)) :
    list (string * V) :=
  match d with
  | [] => [(k, v)]
  | (k', v') :: d' =>
      if decide (k' = k) then (k, v) :: d' else (k', v') :: dict_set k v d'
  end.

(** [d[k]], when the key is there. *)
Fixpoint dict_get {V} (k : string) (d : list (string * V)) : option V :=
  match d with
  | [] => None
  | (k', v') :: d' => if decide (k' = k) then Some v' else dict_get k d'
  end.

(** [unique = {}; for stu in selected: unique[stu["student_id"]] = stu;
    selected = list(unique.values())] *)
Definition unique_by_id (selected : list Cand) : list Cand :=
  snd <$> foldl (fun unique stu => dict_set (student_id stu) stu unique)
                [] selected.

(** The slice [l[:n]]; a negative [n] counts from the end. *)
Definition slice_to {A} (n : Z) (l : list A) : list A :=
  if bool_decide (0 <= n) then take (Z.to_nat n) l
  else take (length l - Z.to_nat (- n)) l.

(** STEP 1: the vertical seats, the removal of duplicates and the clamp. *)
Definition vertical_fill (row : Internship) (rl : Ranklist) : list Cand :=
  let selected := [] in
  let selected := fill_upto (cap_sc row) (SC rl) selected in
  let selected := fill_upto (cap_sc row + cap_st row) (ST rl) selected in
  let selected :=
    fill_upto (cap_sc row + cap_st row + cap_obc row) (OBC rl) selected in
  let selected :=
    fill_upto (cap_sc row + cap_st row + cap_obc row + cap_ur row)
              (UR rl) selected in
  let selected := unique_by_id selected in
  slice_to (capacity row) selected.

(** [sorted(non_rural, key=lambda x: x["final_score"])]: ascending and
    stable, as Python's [sorted] is. *)
Fixpoint insert_asc (x : Cand) (l : list Cand) : list Cand :=
  match l with
  | [] => [x]
  | y :: l' =>
      if Qle_bool (final_score x) (final_score y) then x :: l
      else y :: insert_asc x l'
  end.

Definition sorted_by_score (l : list Cand) : list Cand := foldr insert_asc [] l.

Definition rural_selected_count (selected : list Cand) : Z :=
  Z.of_nat (length (filter (fun x => rural x = 1) selected)).

(** STEP 2 and the final clamp: the horizontal RURAL quota applied to the
    selection of one internship. *)
Definition horizontal_rural (row : Internship) (rl : Ranklist)
    (selected : list Cand) : list Cand :=
  let cap := capacity row in
  let rural_count := rural_selected_count selected in
  let selected :=
    if bool_decide (rural_count < cap_rural row) then
      let needed := cap_rural row - rural_count in
      let rural_pool :=
        filter (fun x => student_id x ∉ (student_id <$> selected)) (RURAL rl) in
      let to_add := slice_to needed rural_pool in
      let non_rural := filter (fun x => rural x = 0) selected in
      let non_rural_sorted := sorted_by_score non_rural in
      let to_remove := slice_to needed non_rural_sorted in
      let selected :=
        foldl (fun selected r =>
                 filter (fun x => student_id x ≠ student_id r) selected)
              selected to_remove in
      fill_upto cap to_add selected
    else selected in
  slice_to cap selected.

(** One entry of [round_logs]. *)
Record RoundLog := {
  log_internship_id : string;
  log_capacity : Z;
  selected_count : Z;
  vertical_caps : Z * Z * Z * Z;
  rural_cap : Z;
  rural_selected : Z
}.

(** The two accumulators of the loop over [internships_df]. *)
Record Engine := {
  final_alloc : list (string * list Cand);
  round_logs : list RoundLog
}.

Definition engine_init : Engine := {| final_alloc := []; round_logs := [] |}.

(** The loop body for one row, once [ranklists[iid]] has been found. *)
Definition allot_row (row : Internship) (rl : Ranklist) (e : Engine) : Engine :=
  let iid := internship_id row in
  let selected := horizontal_rural row rl (vertical_fill row rl) in
  {| final_alloc := dict_set iid selected (final_alloc e);
     round_logs :=
       round_logs e ++
       [ {| log_internship_id := iid;
            log_capacity := capacity row;
            selected_count := Z.of_nat (length selected);
            vertical_caps := (cap_sc row, cap_st row, cap_obc row, cap_ur row);
            rural_cap := cap_rural row;
            rural_selected := rural_selected_count selected |} ] |}.

(** How a call ends.  [Returned e]: the two JSON files are written from [e]
    and [final_alloc e] is returned.  [KeyError iid e]: [ranklists[iid]]
    raised; [e] is what the local accumulators held at that moment, it is
    neither written nor returned. *)
Inductive Outcome :=
  | Returned (e : Engine)
  | KeyError (iid : string) (e : Engine).

Fixpoint allot_rows (ranklists : gmap string Ranklist)
    (rows : list Internship) (e : Engine) : Outcome :=
  match rows with
  | [] => Returned e
  | row :: rows' =>
      match ranklists !! internship_id row with
      | None => KeyError (internship_id row) e
      | Some rl => allot_rows ranklists rows' (allot_row row rl e)
      end
  end.

Definition optionC_allotment (ranklists : gmap string Ranklist)
    (internships_df : list Internship) : Outcome :=
  allot_rows ranklists internships_df engine_init.

(** The identities confirmed at [iid] in a finished run. *)
Definition confirmed_ids (o : Outcome) (iid : string) : list string :=
  match o with
  | Returned e =>
      student_id <$> default [] (dict_get iid (final_alloc e))
  | KeyError _ _ => []
  end.

(** *** The scenario of the specification *)

Definition cand (sid : string) (score : Q) (res : string) (r : Z) : Cand :=
  {| student_id := sid; final_score := score; reservation := res;
     rural := r; gender := "M" |}.

Definition s1 := cand "s1" (9 # 10) "SC" 0.
Definition s2 := cand "s2" (8 # 10) "OBC" 0.
Definition s3 := cand "s3" (5 # 10) "OBC" 0.
Definition s4 := cand "s4" (95 # 100) "GEN" 0.
Definition s5 := cand "s5" (9 # 10) "GEN" 0.
Definition s6 := cand "s6" (85 # 100) "GEN" 1.

Definition scenario_row : Internship :=
  {| internship_id := "I001"; capacity := 5; cap_sc := 1; cap_st := 1;
     cap_obc := 1; cap_ur := 2; cap_rural := 2 |}.

Definition scenario_rl : Ranklist :=
  {| SC := [s1]; ST := []; OBC := [s2; s3]; UR := [s4; s5; s6];
     RURAL := [s6] |}.

Definition scenario_ranklists : gmap string Ranklist :=
  {[ "I001" := scenario_rl ]}.

Example scenario_vertical :
  vertical_fill scenario_row scenario_rl = [s1; s2; s3; s4; s5].
Proof. vm_compute. reflexivity. Qed.

Example scenario_run :
  optionC_allotment scenario_ranklists [scenario_row] =
  Returned
    {| final_alloc := [("I001", [s1; s4; s5; s6])];
       round_logs :=
         [ {| log_internship_id := "I001"; log_capacity := 5;
              selected_count := 4; vertical_caps := (1, 1, 1, 2);
              rural_cap := 2; rural_selected := 1 |} ] |}.
Proof. vm_compute. reflexivity. Qed.

(** C4, as stated, fails: the run on the scenario returns, but the confirmed
    set is s1, s4, s5, s6 and not s1, s2, s4, s6. *)
Lemma scenario_confirmed_counterexample :
  confirmed_ids (optionC_allotment scenario_ranklists [scenario_row]) "I001"
    = ["s1"; "s4"; "s5"; "s6"]
  /\ ~ (confirmed_ids (optionC_allotment scenario_ranklists [scenario_row]) "I001"
        ≡ₚ ["s1"; "s2"; "s4"; "s6"]).
Proof.
  assert (confirmed_ids (optionC_allotment scenario_ranklists [scenario_row])
            "I001" = ["s1"; "s4"; "s5"; "s6"]) as Heq
    by (vm_compute; reflexivity).
  split; [exact Heq|].
  rewrite Heq. intros Hp.
  assert ("s2" ∈ ["s1"; "s4"; "s5"; "s6"]) as Hin.
  { rewrite Hp. apply list_elem_of_further, list_elem_of_here. }
  repeat (apply elem_of_cons in Hin as [Hin|Hin]; [discriminate Hin|]).
  by apply not_elem_of_nil in Hin.
Qed.

(** C4 (amended). On the scenario the engine returns without an error.  The
    vertical pass confirms s1, s2, s3, s4, s5: the seat that ST leaves vacant
    is taken by s3, since each pool fills up to the running total of the
    sub-quotas.  Reconciliation finds no rural candidate among them, brings
    in s6 and drops the lowest-scored non-rural confirmation s3: in the end
    s1, s4, s5 and s6 are confirmed and s3 is not, and the log reports one
    rural candidate selected against a rural sub-quota of 2. *)
Theorem scenario_outcome :
  vertical_fill scenario_row scenario_rl = [s1; s2; s3; s4; s5]
  /\ rural_selected_count (vertical_fill scenario_row scenario_rl) = 0
  /\ (exists e selected log,
       optionC_allotment scenario_ranklists [scenario_row] = Returned e
       /\ final_alloc e = [("I001", selected)]
       /\ s1 ∈ selected /\ s4 ∈ selected /\ s5 ∈ selected /\ s6 ∈ selected
       /\ (s3 ∉ selected)
       /\ round_logs e = [log]
       /\ rural_selected log = 1 /\ rural_cap log = 2).
Proof.
  split; [vm_compute; reflexivity|].
  split; [vm_compute; reflexivity|].
  eexists _, _, _. split; [vm_compute; reflexivity|]. simpl.
  split; [reflexivity|].
  repeat split; try reflexivity;
    try (repeat first [apply list_elem_of_here | apply list_elem_of_further]).
  intros H. repeat (apply elem_of_cons in H as [H|H]; [discriminate H|]).
  by apply not_elem_of_nil in H.
Qed.

(** C3, evaluated on the scenario: the rural pool holds one candidate, the
    shortfall is 2, so reconciliation removes two confirmed candidates and
    adds one; the confirmed count goes from 5 to 4. *)
Theorem horizontal_rural_loses_a_seat :
  let before := vertical_fill scenario_row scenario_rl in
  let after := horizontal_rural scenario_row scenario_rl before in
  before = [s1; s2; s3; s4; s5] /\ after = [s1; s4; s5; s6]
  /\ length before = 5%nat /\ length after = 4%nat.
Proof. vm_compute. repeat split; reflexivity. Qed.

(** C7, evaluated on the reconciled scenario: every rural candidate of the
    pool is already selected, and a second reconciliation still removes the
    lowest-scored non-rural confirmation s1. *)
Theorem horizontal_rural_rerun_not_idempotent :
  let once := horizontal_rural scenario_row scenario_rl
                (vertical_fill scenario_row scenario_rl) in
  once = [s1; s4; s5; s6]
  /\ filter (fun x => student_id x ∉ (student_id <$> once)) (RURAL scenario_rl) = []
  /\ horizontal_rural scenario_row scenario_rl once = [s4; s5; s6].
Proof. vm_compute. repeat split; reflexivity. Qed.

(** *** The same candidate at two internships *)

Definition two_rows : list Internship :=
  [ {| internship_id := "I001"; capacity := 1; cap_sc := 0; cap_st := 0;
       cap_obc := 0; cap_ur := 1; cap_rural := 0 |};
    {| internship_id := "I002"; capacity := 1; cap_sc := 0; cap_st := 0;
       cap_obc := 0; cap_ur := 1; cap_rural := 0 |} ].

Definition general_pool : Ranklist :=
  {| SC := []; ST := []; OBC := []; UR := [s4; s5]; RURAL := [] |}.

Definition two_ranklists : gmap string Ranklist :=
  <["I002" := general_pool]> {[ "I001" := general_pool ]}.

(** C2, evaluated on two internships whose general pools both start with
    s4: the run confirms s4 at both. *)
Theorem optionC_confirms_twice :
  optionC_allotment two_ranklists two_rows =
  Returned
    {| final_alloc := [("I001", [s4]); ("I002", [s4])];
       round_logs :=
         [ {| log_internship_id := "I001"; log_capacity := 1;
              selected_count := 1; vertical_caps := (0, 0, 0, 1);
              rural_cap := 0; rural_selected := 0 |};
           {| log_internship_id := "I002"; log_capacity := 1;
              selected_count := 1; vertical_caps := (0, 0, 0, 1);
              rural_cap := 0; rural_selected := 0 |} ] |}.
Proof. vm_compute. reflexivity. Qed.

(** *** A capacity row without a ranklist *)

Definition has_ranklist (ranklists : gmap string Ranklist) (row : Internship) : Prop :=
  is_Some (ranklists !! internship_id row).

Definition lacks_ranklist (ranklists : gmap string Ranklist) (row : Internship) : Prop :=
  ranklists !! internship_id row = None.

Lemma allot_rows_first_missing ranklists rows e :
  Exists (lacks_ranklist ranklists) rows ->
  exists done row rest e',
    rows = done ++ row :: rest
    /\ Forall (has_ranklist ranklists) done
    /\ lacks_ranklist ranklists row
    /\ allot_rows ranklists rows e = KeyError (internship_id row) e'
    /\ log_internship_id <$> round_logs e' =
       (log_internship_id <$> round_logs e) ++ (internship_id <$> done).
Proof.
  revert e. induction rows as [|row rows IH]; intros e Hex.
  - inversion Hex.
  - simpl. destruct (ranklists !! internship_id row) as [rl|] eqn:Hrl.
    + assert (Exists (lacks_ranklist ranklists) rows) as Hex'.
      { inversion Hex as [? ? Hrow|? ? Hrows]; subst; [|exact Hrows].
        unfold lacks_ranklist in Hrow. congruence. }
      destruct (IH (allot_row row rl e) Hex')
        as (done & row' & rest & e' & -> & Hdone & Hrow' & Hrun & Hlogs).
      exists (row :: done), row', rest, e'.
      repeat split; try assumption.
      * constructor; [|exact Hdone]. unfold has_ranklist. rewrite Hrl. eauto.
      * rewrite Hlogs. simpl. rewrite fmap_app. simpl.
        rewrite <- app_assoc. reflexivity.
    + exists [], row, rows, e.
      repeat split; try assumption; try constructor.
      simpl. by rewrite app_nil_r.
Qed.

Definition row_without_ranklist : Internship :=
  {| internship_id := "I002"; capacity := 3; cap_sc := 1; cap_st := 0;
     cap_obc := 0; cap_ur := 2; cap_rural := 0 |}.

(** C9, as stated, fails: with a ranklist for I001 and none for I002 the
    call raises at I002, once I001 has been allotted and logged. *)
Lemma optionC_raises_late_counterexample :
  exists e,
    optionC_allotment scenario_ranklists [scenario_row; row_without_ranklist]
      = KeyError "I002" e
    /\ final_alloc e = [("I001", [s1; s4; s5; s6])]
    /\ length (round_logs e) = 1%nat
    /\ e <> engine_init.
Proof.
  eexists. split; [vm_compute; reflexivity|].
  repeat split. intros H. discriminate H.
Qed.

(** C9 (amended). If some row of the capacity table has no ranklist, the
    call ends in a [KeyError] at the first such row, in table order: nothing
    is returned and no file is written.  The rows before it have been
    allotted and logged by then, in the accumulators that the error
    discards. *)
Theorem optionC_allotment_missing_ranklist
    (ranklists : gmap string Ranklist) (internships_df : list Internship) :
  Exists (lacks_ranklist ranklists) internships_df ->
  exists done row rest e,
    internships_df = done ++ row :: rest
    /\ Forall (has_ranklist ranklists) done
    /\ lacks_ranklist ranklists row
    /\ optionC_allotment ranklists internships_df = KeyError (internship_id row) e
    /\ log_internship_id <$> round_logs e = internship_id <$> done.
Proof.
  intros Hex. unfold optionC_allotment.
  destruct (allot_rows_first_missing ranklists internships_df engine_init Hex)
    as (done & row & rest & e & Heq & Hdone & Hrow & Hrun & Hlogs).
  exists done, row, rest, e. repeat split; assumption.
Qed.

Lemma optionC_allotment_missing_ranklist_witness :
  exists done row rest e,
    [scenario_row; row_without_ranklist] = done ++ row :: rest
    /\ Forall (has_ranklist scenario_ranklists) done
    /\ lacks_ranklist scenario_ranklists row
    /\ optionC_allotment scenario_ranklists [scenario_row; row_without_ranklist]
       = KeyError (internship_id row) e
    /\ log_internship_id <$> round_logs e = internship_id <$> done.
Proof.
  apply (optionC_allotment_missing_ranklist scenario_ranklists
           [scenario_row; row_without_ranklist]).
  apply Exists_cons_tl, Exists_cons_hd. vm_compute. reflexivity.
Defined.

(** *** No seat inflation *)

Lemma slice_to_length {A} (n : Z) (l : list A) :
  0 <= n -> Z.of_nat (length (slice_to n l)) <= n.
Proof.
  intros Hn. unfold slice_to. rewrite bool_decide_eq_true_2 by exact Hn.
  rewrite length_take. lia.
Qed.

Lemma slice_to_all {A} (n : Z) (l : list A) :
  Z.of_nat (length l) <= n -> slice_to n l = l.
Proof.
  intros Hn. unfold slice_to. rewrite bool_decide_eq_true_2 by lia.
  apply take_ge. lia.
Qed.

Lemma horizontal_rural_length row rl selected :
  0 <= capacity row ->
  Z.of_nat (length (horizontal_rural row rl selected)) <= capacity row.
Proof. intros Hcap. unfold horizontal_rural. by apply slice_to_length. Qed.

Lemma dict_set_elem {V} (k k' : string) (v v' : V) d :
  (k', v') ∈ dict_set k v d -> (k', v') = (k, v) \/ (k', v') ∈ d.
Proof.
  induction d as [|[k0 v0] d IH]; simpl.
  - intros H. apply list_elem_of_singleton in H. by left.
  - destruct (decide (k0 = k)) as [->|Hne]; intros H;
      apply elem_of_cons in H as [H|H].
    + by left.
    + right. by apply list_elem_of_further.
    + right. rewrite H. apply list_elem_of_here.
    + destruct (IH H) as [Heq|Hin]; [by left|right].
      by apply list_elem_of_further.
Qed.

(** What the docstring promises of a finished run: filled ≤ capacity. *)
Definition within_capacity (all : list Internship) (e : Engine) : Prop :=
  forall iid selected,
    (iid, selected) ∈ final_alloc e ->
    exists row, row ∈ all /\ internship_id row = iid
      /\ (0 <= capacity row -> Z.of_nat (length selected) <= capacity row).

Lemma allot_rows_within_capacity ranklists all rows e e' :
  rows ⊆ all ->
  within_capacity all e ->
  allot_rows ranklists rows e = Returned e' ->
  within_capacity all e'.
Proof.
  revert e. induction rows as [|row rows IH]; intros e Hsub He Hrun; simpl in Hrun.
  - by injection Hrun as <-.
  - destruct (ranklists !! internship_id row) as [rl|]; [|discriminate].
    apply (IH (allot_row row rl e)); [|
      |exact Hrun].
    + intros x Hx. apply Hsub. by apply list_elem_of_further.
    + intros iid selected Hin. simpl in Hin.
      apply dict_set_elem in Hin as [Heq|Hin]; [|by apply He].
      injection Heq as -> ->.
      exists row. split; [apply Hsub, list_elem_of_here|].
      split; [reflexivity|]. apply horizontal_rural_length.
Qed.

(** The confirmed list of every internship in a finished run of
    [optionC_allotment] is no longer than the capacity of the row it was
    allotted for. *)
Theorem optionC_allotment_within_capacity
    (ranklists : gmap string Ranklist) (internships_df : list Internship)
    (e : Engine) :
  optionC_allotment ranklists internships_df = Returned e ->
  within_capacity internships_df e.
Proof.
  intros Hrun.
  apply (allot_rows_within_capacity ranklists internships_df internships_df
           engine_init e); [done| |exact Hrun].
  intros iid selected Hin. simpl in Hin. by apply not_elem_of_nil in Hin.
Qed.

Lemma optionC_allotment_within_capacity_witness :
  within_capacity [scenario_row]
    {| final_alloc := [("I001", [s1; s4; s5; s6])];
       round_logs :=
         [ {| log_internship_id := "I001"; log_capacity := 5;
              selected_count := 4; vertical_caps := (1, 1, 1, 2);
              rural_cap := 2; rural_selected := 1 |} ] |}.
Proof.
  apply (optionC_allotment_within_capacity scenario_ranklists [scenario_row]).
  vm_compute. reflexivity.
Defined.

(** *** Reconciliation when the rural quota is met *)

(** A second reconciliation changes nothing at a position whose confirmed
    list fits the capacity and already holds as many rural candidates as the
    rural sub-quota asks for. *)
Theorem horizontal_rural_quota_met
    (row : Internship) (rl : Ranklist) (selected : list Cand) :
  cap_rural row <= rural_selected_count selected ->
  Z.of_nat (length selected) <= capacity row ->
  horizontal_rural row rl selected = selected.
Proof.
  intros Hrural Hcap. unfold horizontal_rural.
  rewrite bool_decide_eq_false_2 by lia.
  by apply slice_to_all.
Qed.

Definition s7 := cand "s7" (6 # 10) "GEN" 1.

Lemma horizontal_rural_quota_met_witness :
  horizontal_rural scenario_row scenario_rl [s1; s4; s6; s7] = [s1; s4; s6; s7].
Proof.
  apply (horizontal_rural_quota_met scenario_row scenario_rl [s1; s4; s6; s7]);
    vm_compute; discriminate.
Defined.

(** *** The vertical pass in closed form *)

(** A pool loop appends a prefix of its pool: as many entries as the bound
    leaves room for. *)
Lemma fill_upto_take bound pool selected :
  fill_upto bound pool selected
  = selected ++ take (Z.to_nat (bound - Z.of_nat (length selected))) pool.
Proof.
  revert selected. induction pool as [|s pool IH]; intros selected.
  - simpl. rewrite take_nil. by rewrite app_nil_r.
  - unfold fill_upto in *. simpl. case_bool_decide as Hroom.
    + rewrite IH, length_app. simpl.
      replace (Z.to_nat (bound - Z.of_nat (length selected)))
        with (S (Z.to_nat (bound - Z.of_nat (length selected + 1)))) by lia.
      simpl. by rewrite <- app_assoc.
    + rewrite IH.
      replace (Z.to_nat (bound - Z.of_nat (length selected))) with 0%nat by lia.
      reflexivity.
Qed.

Lemma slice_to_sublist {A} (n : Z) (l : list A) : slice_to n l `sublist_of` l.
Proof. unfold slice_to. case_bool_decide; apply sublist_take. Qed.

Lemma dict_set_fst_elem {V} (k k' : string) (v : V) d :
  k' ∈ (dict_set k v d).*1 -> k' = k \/ k' ∈ d.*1.
Proof.
  intros H. apply list_elem_of_fmap in H as ([k0 v0] & -> & Hin).
  apply dict_set_elem in Hin as [Heq|Hin]; [left; by injection Heq|right].
  apply list_elem_of_fmap. by exists (k0, v0).
Qed.

Lemma dict_set_NoDup {V} (k : string) (v : V) d :
  NoDup d.*1 -> NoDup (dict_set k v d).*1.
Proof.
  induction d as [|[k0 v0] d IH]; simpl; intros Hnd.
  - apply NoDup_singleton.
  - apply NoDup_cons in Hnd as [Hk0 Hnd].
    destruct (decide (k0 = k)) as [->|Hne]; simpl.
    + by apply NoDup_cons.
    + apply NoDup_cons. split; [|by apply IH].
      intros Hin. apply dict_set_fst_elem in Hin as [->|Hin]; done.
Qed.

(** The dictionary [unique] is keyed by the identity of its values. *)
Definition keyed_by_id (d : list (string * Cand)) : Prop :=
  Forall (fun kv => student_id kv.2 = kv.1) d.

Lemma dict_set_keyed stu d :
  keyed_by_id d -> keyed_by_id (dict_set (student_id stu) stu d).
Proof.
  unfold keyed_by_id. induction 1 as [|[k0 v0] d Hkv Hd IH]; simpl.
  - by repeat constructor.
  - destruct (decide (k0 = student_id stu)); constructor; done.
Qed.

Lemma unique_fold_spec selected d :
  NoDup d.*1 -> keyed_by_id d ->
  let d' := foldl (fun unique stu => dict_set (student_id stu) stu unique)
                  d selected in
  NoDup d'.*1 /\ keyed_by_id d'
  /\ forall kv, kv ∈ d' -> kv ∈ d \/ kv.2 ∈ selected.
Proof.
  revert d. induction selected as [|stu l IH]; intros d Hnd Hkey; simpl.
  - repeat split; try done. by left.
  - destruct (IH (dict_set (student_id stu) stu d)
                (dict_set_NoDup _ _ _ Hnd) (dict_set_keyed _ _ Hkey))
      as (Hnd' & Hkey' & Hfrom).
    repeat split; try done.
    intros [k v] Hkv. destruct (Hfrom _ Hkv) as [Hin|Hin].
    + apply dict_set_elem in Hin as [Heq|Hin]; [|by left].
      injection Heq as -> ->. right. apply list_elem_of_here.
    + right. by apply list_elem_of_further.
Qed.

Lemma keyed_by_id_ids d : keyed_by_id d -> student_id <$> d.*2 = d.*1.
Proof.
  unfold keyed_by_id. induction 1 as [|[k v] d Hkv Hd IH]; [done|].
  simpl in Hkv. rewrite !fmap_cons. simpl. by rewrite Hkv, IH.
Qed.

Lemma unique_by_id_NoDup selected : NoDup (student_id <$> unique_by_id selected).
Proof.
  unfold unique_by_id.
  destruct (unique_fold_spec selected [] (NoDup_nil_2) (Forall_nil_2 _))
    as (Hnd & Hkey & _).
  rewrite (keyed_by_id_ids _ Hkey). exact Hnd.
Qed.

Lemma unique_by_id_elem selected x : x ∈ unique_by_id selected -> x ∈ selected.
Proof.
  unfold unique_by_id. intros Hx.
  destruct (unique_fold_spec selected [] (NoDup_nil_2) (Forall_nil_2 _))
    as (_ & _ & Hfrom).
  apply list_elem_of_fmap in Hx as (kv & -> & Hkv).
  destruct (Hfrom kv Hkv) as [Hin|Hin]; [|exact Hin].
  by apply not_elem_of_nil in Hin.
Qed.

Lemma vertical_fill_NoDup row rl : NoDup (student_id <$> vertical_fill row rl).
Proof.
  unfold vertical_fill.
  eapply sublist_NoDup; [apply unique_by_id_NoDup|].
  apply fmap_sublist, slice_to_sublist.
Qed.

(** The four vertical pools of a ranklist, in the order they are read. *)
Definition vertical_pools (rl : Ranklist) : list Cand :=
  SC rl ++ ST rl ++ OBC rl ++ UR rl.

Lemma fill_upto_elem bound pool selected x :
  x ∈ fill_upto bound pool selected -> x ∈ selected \/ x ∈ pool.
Proof.
  rewrite fill_upto_take. intros H. apply elem_of_app in H as [H|H]; [by left|].
  right. eapply elem_of_sublist; [exact H|apply sublist_take].
Qed.

Lemma vertical_fill_elem row rl x :
  x ∈ vertical_fill row rl -> x ∈ vertical_pools rl.
Proof.
  unfold vertical_fill, vertical_pools. intros H.
  eapply elem_of_sublist in H; [|apply slice_to_sublist].
  apply unique_by_id_elem in H.
  rewrite !elem_of_app.
  apply fill_upto_elem in H as [H|H]; [|tauto].
  apply fill_upto_elem in H as [H|H]; [|tauto].
  apply fill_upto_elem in H as [H|H]; [|tauto].
  apply fill_upto_elem in H as [H|H]; [|tauto].
  by apply not_elem_of_nil in H.
Qed.

(** *** Reconciliation in closed form *)

Lemma filter_iff_in {A} (P Q : A -> Prop) `{!forall x, Decision (P x)}
    `{!forall x, Decision (Q x)} (l : list A) :
  (forall x, x ∈ l -> P x <-> Q x) -> filter P l = filter Q l.
Proof.
  induction l as [|x l IH]; intros Hpq; [reflexivity|].
  rewrite !filter_cons.
  assert (filter P l = filter Q l) as ->.
  { apply IH. intros y Hy. apply Hpq. by apply list_elem_of_further. }
  specialize (Hpq x (list_elem_of_here _ _)).
  destruct (decide (P x)), (decide (Q x)); tauto.
Qed.

(** Removing the candidates of [to_remove] one after the other keeps exactly
    the candidates whose identity is not among theirs. *)
Lemma remove_all_filter (to_remove selected : list Cand) :
  foldl (fun selected r =>
           filter (fun x => student_id x ≠ student_id r) selected)
        selected to_remove
  = filter (fun x => student_id x ∉ (student_id <$> to_remove)) selected.
Proof.
  revert selected. induction to_remove as [|r rs IH]; intros selected; simpl.
  - symmetry. induction selected as [|x l IHl]; [reflexivity|].
    rewrite filter_cons, decide_True by apply not_elem_of_nil. by rewrite IHl.
  - rewrite IH, list_filter_filter. apply list_filter_iff.
    intros x. rewrite not_elem_of_cons. tauto.
Qed.

Lemma insert_asc_perm x l : insert_asc x l ≡ₚ x :: l.
Proof.
  induction l as [|y l IH]; simpl; [reflexivity|].
  destruct (Qle_bool (final_score x) (final_score y)); [reflexivity|].
  rewrite IH. apply Permutation_swap.
Qed.

Lemma sorted_by_score_perm l : sorted_by_score l ≡ₚ l.
Proof.
  induction l as [|x l IH]; simpl; [reflexivity|].
  rewrite insert_asc_perm. by rewrite IH.
Qed.

(** Ascending order of scores. *)
Definition score_asc (a b : Cand) : Prop := (final_score a <= final_score b)%Q.

Lemma insert_asc_sorted x l :
  StronglySorted score_asc l -> StronglySorted score_asc (insert_asc x l).
Proof.
  induction 1 as [|y l Hl IH Hy]; simpl; [repeat constructor|].
  destruct (Qle_bool (final_score x) (final_score y)) eqn:Hle.
  - apply Qle_bool_iff in Hle.
    constructor; [by constructor|].
    constructor; [exact Hle|].
    eapply Forall_impl; [exact Hy|].
    intros z Hz. unfold score_asc in *. eapply Qle_trans; [exact Hle|exact Hz].
  - constructor; [exact IH|].
    assert (score_asc y x) as Hyx.
    { unfold score_asc.
      destruct (Qlt_le_dec (final_score x) (final_score y)) as [Hlt|Hge];
        [|exact Hge].
      apply Qlt_le_weak, Qle_bool_iff in Hlt. congruence. }
    rewrite (insert_asc_perm x l). by constructor.
Qed.

Lemma sorted_by_score_sorted l : StronglySorted score_asc (sorted_by_score l).
Proof.
  induction l as [|x l IH]; simpl; [constructor|].
  by apply insert_asc_sorted.
Qed.

(** The candidates that STEP 2 takes out and brings in, for a selection
    whose rural count is below the rural sub-quota. *)
Definition to_remove_of (row : Internship) (selected : list Cand) : list Cand :=
  slice_to (cap_rural row - rural_selected_count selected)
           (sorted_by_score (filter (fun x => rural x = 0) selected)).

Definition to_add_of (row : Internship) (rl : Ranklist)
    (selected : list Cand) : list Cand :=
  slice_to (cap_rural row - rural_selected_count selected)
           (filter (fun x => student_id x ∉ (student_id <$> selected)) (RURAL rl)).

Definition kept_of (row : Internship) (selected : list Cand) : list Cand :=
  filter (fun x => student_id x ∉ (student_id <$> to_remove_of row selected))
         selected.

Lemma horizontal_rural_met row rl selected :
  cap_rural row <= rural_selected_count selected ->
  Z.of_nat (length selected) <= capacity row ->
  horizontal_rural row rl selected = selected.
Proof.
  intros Hmet Hcap. unfold horizontal_rural.
  rewrite bool_decide_eq_false_2 by lia. by apply slice_to_all.
Qed.

Lemma horizontal_rural_short row rl selected :
  rural_selected_count selected < cap_rural row ->
  Z.of_nat (length selected) <= capacity row ->
  horizontal_rural row rl selected
  = kept_of row selected
    ++ take (Z.to_nat (capacity row - Z.of_nat (length (kept_of row selected))))
            (to_add_of row rl selected).
Proof.
  intros Hshort Hcap. unfold horizontal_rural.
  rewrite bool_decide_eq_true_2 by exact Hshort.
  rewrite remove_all_filter, fill_upto_take.
  fold (to_remove_of row selected) (kept_of row selected)
       (to_add_of row rl selected).
  apply slice_to_all.
  assert (length (kept_of row selected) <= length selected)%nat
    by apply length_filter.
  rewrite length_app, length_take. lia.
Qed.

Lemma to_remove_of_elem row selected r :
  r ∈ to_remove_of row selected -> r ∈ selected /\ rural r = 0.
Proof.
  unfold to_remove_of. intros H.
  eapply elem_of_sublist in H; [|apply slice_to_sublist].
  rewrite sorted_by_score_perm in H.
  by apply list_elem_of_filter in H as [? ?].
Qed.

Lemma to_add_of_elem row rl selected a :
  a ∈ to_add_of row rl selected ->
  a ∈ RURAL rl /\ student_id a ∉ (student_id <$> selected).
Proof.
  unfold to_add_of. intros H.
  eapply elem_of_sublist in H; [|apply slice_to_sublist].
  by apply list_elem_of_filter in H as [? ?].
Qed.

Lemma same_id_same_cand (l : list Cand) x y :
  NoDup (student_id <$> l) -> x ∈ l -> y ∈ l ->
  student_id x = student_id y -> x = y.
Proof.
  intros Hnd Hx Hy Hid.
  apply list_elem_of_lookup in Hx as [i Hi].
  apply list_elem_of_lookup in Hy as [j Hj].
  assert (i = j) as ->; [|congruence].
  eapply (NoDup_lookup _ i j (student_id x)); [exact Hnd| |].
  - by rewrite list_lookup_fmap, Hi.
  - by rewrite list_lookup_fmap, Hj, Hid.
Qed.

Lemma rural_is_kept row selected x :
  NoDup (student_id <$> selected) ->
  x ∈ selected -> rural x = 1 -> x ∈ kept_of row selected.
Proof.
  intros Hnd Hx Hrural. unfold kept_of.
  apply list_elem_of_filter. split; [|exact Hx].
  intros Hin. apply list_elem_of_fmap in Hin as (r & Hid & Hr).
  apply to_remove_of_elem in Hr as [Hr Hr0].
  assert (x = r) as -> by (eapply same_id_same_cand; eauto).
  lia.
Qed.

(** *** What the confirmed list of one internship looks like *)

(** [optionC_allotment] never confirms a student twice at one internship,
    as long as the RURAL pool lists no student twice. *)
Theorem optionC_selection_no_duplicates (row : Internship) (rl : Ranklist) :
  NoDup (student_id <$> RURAL rl) ->
  NoDup (student_id <$> horizontal_rural row rl (vertical_fill row rl)).
Proof.
  intros Hrural. pose proof (vertical_fill_NoDup row rl) as Hsel.
  revert Hsel. generalize (vertical_fill row rl). intros selected Hsel.
  unfold horizontal_rural.
  eapply sublist_NoDup; [|apply fmap_sublist, slice_to_sublist].
  case_bool_decide; [|exact Hsel].
  rewrite remove_all_filter, fill_upto_take.
  fold (to_remove_of row selected) (kept_of row selected)
       (to_add_of row rl selected).
  rewrite fmap_app. apply NoDup_app. repeat split.
  - eapply sublist_NoDup; [exact Hsel|]. apply fmap_sublist, sublist_filter.
  - intros sid Hkept Hadd.
    apply list_elem_of_fmap in Hkept as (x & -> & Hx).
    apply list_elem_of_fmap in Hadd as (a & Hid & Ha).
    eapply elem_of_sublist in Ha; [|apply sublist_take].
    apply to_add_of_elem in Ha as [_ Ha]. apply Ha. rewrite <- Hid.
    apply list_elem_of_fmap. exists x. split; [reflexivity|].
    by apply list_elem_of_filter in Hx as [_ Hx].
  - eapply sublist_NoDup; [exact Hrural|]. apply fmap_sublist.
    etrans; [apply sublist_take|]. unfold to_add_of.
    etrans; [apply slice_to_sublist|apply sublist_filter].
Qed.

Lemma optionC_selection_no_duplicates_witness :
  NoDup (student_id <$> horizontal_rural scenario_row scenario_rl
                          (vertical_fill scenario_row scenario_rl)).
Proof.
  apply (optionC_selection_no_duplicates scenario_row scenario_rl).
  apply NoDup_singleton.
Defined.

(** Every candidate [optionC_allotment] confirms at an internship is listed
    in one of the five pools of that internship. *)
Theorem optionC_selection_from_pools (row : Internship) (rl : Ranklist)
    (x : Cand) :
  x ∈ horizontal_rural row rl (vertical_fill row rl) ->
  x ∈ vertical_pools rl ++ RURAL rl.
Proof.
  unfold horizontal_rural. intros Hx.
  eapply elem_of_sublist in Hx; [|apply slice_to_sublist].
  apply elem_of_app. case_bool_decide.
  - apply fill_upto_elem in Hx as [Hx|Hx].
    + left. rewrite remove_all_filter in Hx.
      apply list_elem_of_filter in Hx as [_ Hx]. by apply (vertical_fill_elem row).
    + right. eapply elem_of_sublist in Hx; [|apply slice_to_sublist].
      by apply list_elem_of_filter in Hx as [_ Hx].
  - left. by apply (vertical_fill_elem row).
Qed.

Lemma optionC_selection_from_pools_witness :
  s6 ∈ vertical_pools scenario_rl ++ RURAL scenario_rl.
Proof.
  apply (optionC_selection_from_pools scenario_row scenario_rl s6).
  vm_compute. do 3 apply list_elem_of_further. apply list_elem_of_here.
Defined.

Lemma vertical_fill_length row rl :
  0 <= capacity row ->
  Z.of_nat (length (vertical_fill row rl)) <= capacity row.
Proof. intros Hcap. unfold vertical_fill. by apply slice_to_length. Qed.

Lemma rural_count_kept row selected :
  NoDup (student_id <$> selected) ->
  filter (fun x => rural x = 1) (kept_of row selected)
  = filter (fun x => rural x = 1) selected.
Proof.
  intros Hnd. unfold kept_of. rewrite list_filter_filter.
  apply filter_iff_in. intros x Hx. split; [tauto|].
  intros Hrural. split; [exact Hrural|].
  pose proof (rural_is_kept row selected x Hnd Hx Hrural) as Hkept.
  by apply list_elem_of_filter in Hkept as [? _].
Qed.

(** Reconciliation never drops a rural candidate that the vertical pass has
    confirmed, and so never lowers the rural count. *)
Theorem reconciliation_keeps_rural (row : Internship) (rl : Ranklist) :
  0 <= capacity row ->
  let before := vertical_fill row rl in
  let after := horizontal_rural row rl before in
  (forall x, x ∈ before -> rural x = 1 -> x ∈ after)
  /\ rural_selected_count before <= rural_selected_count after.
Proof.
  intros Hcap before after.
  pose proof (vertical_fill_NoDup row rl) as Hnd.
  pose proof (vertical_fill_length row rl Hcap) as Hlen.
  fold before in Hnd, Hlen. subst after.
  destruct (decide (rural_selected_count before < cap_rural row)) as [Hshort|Hmet].
  - rewrite (horizontal_rural_short row rl before Hshort Hlen). split.
    + intros x Hx Hrural. apply elem_of_app. left.
      by apply rural_is_kept.
    + unfold rural_selected_count.
      rewrite filter_app, length_app, (rural_count_kept row before Hnd). lia.
  - rewrite (horizontal_rural_met row rl before) by lia. split; [done|lia].
Qed.

Lemma reconciliation_keeps_rural_witness :
  let before := vertical_fill scenario_row scenario_rl in
  let after := horizontal_rural scenario_row scenario_rl before in
  (forall x, x ∈ before -> rural x = 1 -> x ∈ after)
  /\ rural_selected_count before <= rural_selected_count after.
Proof.
  apply (reconciliation_keeps_rural scenario_row scenario_rl).
  vm_compute. discriminate.
Defined.

(** Reconciliation takes out non-rural candidates only, and the lowest
    scored ones: a candidate it drops is non-rural and scores no higher than
    any non-rural candidate it keeps. *)
Theorem reconciliation_drops_lowest (row : Internship) (rl : Ranklist)
    (x y : Cand) :
  0 <= capacity row ->
  let before := vertical_fill row rl in
  let after := horizontal_rural row rl before in
  x ∈ before -> x ∉ after ->
  y ∈ before -> y ∈ after -> rural y = 0 ->
  rural x = 0 /\ (final_score x <= final_score y)%Q.
Proof.
  intros Hcap before after Hx Hxout Hy Hyin Hy0.
  pose proof (vertical_fill_NoDup row rl) as Hnd.
  pose proof (vertical_fill_length row rl Hcap) as Hlen.
  fold before in Hnd, Hlen. subst after.
  destruct (decide (rural_selected_count before < cap_rural row)) as [Hshort|Hmet];
    [|by rewrite (horizontal_rural_met row rl before) in Hxout by lia].
  rewrite (horizontal_rural_short row rl before Hshort Hlen) in Hxout, Hyin.
  assert (x ∈ to_remove_of row before) as Hxrem.
  { destruct (decide (student_id x ∈ student_id <$> to_remove_of row before))
      as [Hin|Hnin].
    - apply list_elem_of_fmap in Hin as (r & Hid & Hr).
      destruct (to_remove_of_elem _ _ _ Hr) as [Hrsel _].
      by rewrite (same_id_same_cand before x r Hnd Hx Hrsel Hid).
    - exfalso. apply Hxout, elem_of_app. left.
      apply list_elem_of_filter. by split. }
  assert (student_id y ∉ student_id <$> to_remove_of row before) as Hykept.
  { apply elem_of_app in Hyin as [Hyin|Hyin].
    - by apply list_elem_of_filter in Hyin as [? _].
    - exfalso. eapply elem_of_sublist in Hyin; [|apply sublist_take].
      apply to_add_of_elem in Hyin as [_ Hyin]. apply Hyin.
      apply list_elem_of_fmap. by exists y. }
  split; [exact (proj2 (to_remove_of_elem row before x Hxrem))|].
  unfold to_remove_of, slice_to in Hxrem, Hykept.
  rewrite bool_decide_eq_true_2 in Hxrem, Hykept by lia.
  set (n := Z.to_nat (cap_rural row - rural_selected_count before)) in *.
  set (sorted := sorted_by_score (filter (fun c => rural c = 0) before)) in *.
  assert (y ∈ drop n sorted) as Hydrop.
  { assert (y ∈ sorted) as Hys.
    { subst sorted. rewrite sorted_by_score_perm.
      apply list_elem_of_filter. by split. }
    rewrite <- (take_drop n sorted) in Hys.
    apply elem_of_app in Hys as [Hys|Hys]; [|exact Hys].
    exfalso. apply Hykept. apply list_elem_of_fmap. by exists y. }
  pose proof (sorted_by_score_sorted (filter (fun c => rural c = 0) before))
    as Hsorted.
  fold sorted in Hsorted. rewrite <- (take_drop n sorted) in Hsorted.
  exact (StronglySorted_app_1_elem_of _ _ _ _ _ Hsorted Hxrem Hydrop).
Qed.

Lemma reconciliation_drops_lowest_witness :
  rural s3 = 0 /\ (final_score s3 <= final_score s1)%Q.
Proof.
  apply (reconciliation_drops_lowest scenario_row scenario_rl s3 s1).
  - vm_compute. discriminate.
  - vm_compute. apply list_elem_of_further, list_elem_of_further, list_elem_of_here.
  - vm_compute. intros H.
    repeat (apply elem_of_cons in H as [H|H]; [discriminate H|]).
    by apply not_elem_of_nil in H.
  - vm_compute. apply list_elem_of_here.
  - vm_compute. apply list_elem_of_here.
  - reflexivity.
Defined.

(** *** Runs that return *)

Lemma allot_rows_all_present ranklists rows e :
  Forall (has_ranklist ranklists) rows ->
  exists e',
    allot_rows ranklists rows e = Returned e'
    /\ log_internship_id <$> round_logs e' =
       (log_internship_id <$> round_logs e) ++ (internship_id <$> rows).
Proof.
  intros Hall. revert e.
  induction Hall as [|row rows [rl Hrl] Hrows IH]; intros e; simpl.
  - exists e. by rewrite app_nil_r.
  - rewrite Hrl. destruct (IH (allot_row row rl e)) as (e' & Hrun & Hlogs).
    exists e'. split; [exact Hrun|].
    rewrite Hlogs. simpl. rewrite fmap_app. simpl.
    by rewrite <- app_assoc.
Qed.

Lemma allot_rows_returned_inv ranklists rows e e' :
  allot_rows ranklists rows e = Returned e' ->
  Forall (has_ranklist ranklists) rows.
Proof.
  revert e. induction rows as [|row rows IH]; intros e Hrun; [constructor|].
  simpl in Hrun.
  destruct (ranklists !! internship_id row) as [rl|] eqn:Hrl; [|discriminate].
  constructor; [|by eapply IH].
  unfold has_ranklist. rewrite Hrl. eauto.
Qed.

(** [optionC_allotment] returns exactly when every row of the capacity
    table has a ranklist, and it then logs one entry per row, in table
    order. *)
Theorem optionC_allotment_returns_iff
    (ranklists : gmap string Ranklist) (internships_df : list Internship) :
  Forall (has_ranklist ranklists) internships_df
  <-> exists e,
        optionC_allotment ranklists internships_df = Returned e
        /\ log_internship_id <$> round_logs e = internship_id <$> internships_df.
Proof.
  unfold optionC_allotment. split.
  - intros Hall.
    destruct (allot_rows_all_present ranklists internships_df engine_init Hall)
      as (e & Hrun & Hlogs).
    exists e. split; [exact Hrun|exact Hlogs].
  - intros (e & Hrun & _). by eapply allot_rows_returned_inv.
Qed.

Lemma build_ranklists_has_key sort_values pairs_df internships_df row :
  row ∈ internships_df ->
  has_ranklist (build_ranklists sort_values pairs_df internships_df) row.
Proof.
  unfold has_ranklist, build_ranklists.
  induction internships_df as [|r rows IH] using rev_ind; intros Hin.
  - by apply not_elem_of_nil in Hin.
  - rewrite foldl_snoc.
    destruct (decide (internship_id r = internship_id row)) as [Heq|Hne].
    + rewrite Heq, lookup_insert_eq. eauto.
    + rewrite lookup_insert_ne by exact Hne. apply IH.
      apply elem_of_app in Hin as [Hin|Hin]; [exact Hin|].
      apply list_elem_of_singleton in Hin. congruence.
Qed.

(** Run on the ranklists that [build_ranklists] makes from the same
    capacity table, [optionC_allotment] never raises a [KeyError]: it
    returns, with one log entry per row of the table. *)
Theorem optionC_allotment_after_build_ranklists
    (sort_values : list PairRow -> list PairRow)
    (pairs_df : list PairRow) (internships_df : list Internship) :
  exists e,
    optionC_allotment (build_ranklists sort_values pairs_df internships_df)
                      internships_df = Returned e
    /\ log_internship_id <$> round_logs e = internship_id <$> internships_df.
Proof.
  unfold optionC_allotment.
  destruct (allot_rows_all_present
              (build_ranklists sort_values pairs_df internships_df)
              internships_df engine_init) as (e & Hrun & Hlogs).
  - apply list.Forall_forall. intros row Hrow.
    by apply build_ranklists_has_key.
  - exists e. split; [exact Hrun|exact Hlogs].
Qed.

End OptionC.

(** ** allotment.py *)

Module Allotment.

(** The five keys under which a ranklist keeps its pools; also the tag an
    allocation record carries. *)
Inductive Category := SC | ST | OBC | UR | RURAL.

#[export] Instance Category_eq_dec : EqDecision Category.
Proof. solve_decision. Defined.

(** An entry of a pool: [{'student_id': ..., 'final_score': ...}]. *)
Record Entry := {
  entry_student_id : string;
  entry_final_score : Q
}.

(** [ranklists[iid]]: the five pools and the six integers copied from the
    internship row. *)
Record Info := {
  list_SC : list Entry;
  list_ST : list Entry;
  list_OBC : list Entry;
  list_UR : list Entry;
  list_RURAL : list Entry;
  info_capacity : Z;
  info_cap_sc : Z;
  info_cap_st : Z;
  info_cap_obc : Z;
  info_cap_ur : Z;
  info_cap_rural : Z
}.

(** [info[cat]] *)
Definition pool (info : Info) (cat : Category) : list Entry :=
  match cat with
  | SC => list_SC info | ST => list_ST info | OBC => list_OBC info
  | UR => list_UR info | RURAL => list_RURAL info
  end.

(** The bound of the loop of category [cat]. *)
Definition cap (info : Info) (cat : Category) : Z :=
  match cat with
  | SC => info_cap_sc info | ST => info_cap_st info | OBC => info_cap_obc info
  | UR => info_cap_ur info | RURAL => info_cap_rural info
  end.

(** An element of [allocations[iid]]. *)
Record Alloc := {
  alloc_student_id : string;
  category : Category;
  alloc_final_score : option Q
}.

(** [pointers[iid]] *)
Record Pointers := {
  ptr_SC : nat; ptr_ST : nat; ptr_OBC : nat; ptr_UR : nat; ptr_RURAL : nat
}.

Definition pointers_init : Pointers :=
  {| ptr_SC := 0; ptr_ST := 0; ptr_OBC := 0; ptr_UR := 0; ptr_RURAL := 0 |}.

#[export] Instance Pointers_inhabited : Inhabited Pointers := populate pointers_init.

Definition get_ptr (cat : Category) (p : Pointers) : nat :=
  match cat with
  | SC => ptr_SC p | ST => ptr_ST p | OBC => ptr_OBC p
  | UR => ptr_UR p | RURAL => ptr_RURAL p
  end.

Definition set_ptr (cat : Category) (n : nat) (p : Pointers) : Pointers :=
  match cat with
  | SC => {| ptr_SC := n; ptr_ST := ptr_ST p; ptr_OBC := ptr_OBC p;
             ptr_UR := ptr_UR p; ptr_RURAL := ptr_RURAL p |}
  | ST => {| ptr_SC := ptr_SC p; ptr_ST := n; ptr_OBC := ptr_OBC p;
             ptr_UR := ptr_UR p; ptr_RURAL := ptr_RURAL p |}
  | OBC => {| ptr_SC := ptr_SC p; ptr_ST := ptr_ST p; ptr_OBC := n;
              ptr_UR := ptr_UR p; ptr_RURAL := ptr_RURAL p |}
  | UR => {| ptr_SC := ptr_SC p; ptr_ST := ptr_ST p; ptr_OBC := ptr_OBC p;
             ptr_UR := n; ptr_RURAL := ptr_RURAL p |}
  | RURAL => {| ptr_SC := ptr_SC p; ptr_ST := ptr_ST p; ptr_OBC := ptr_OBC p;
                ptr_UR := ptr_UR p; ptr_RURAL := n |}
  end.

(** [d[k] = f(d[k])] on a [defaultdict] that keeps insertion order; a
    missing key starts from [dflt]. *)
Fixpoint dd_update {K V} `{EqDecision K} (dflt : V) (f : V -> V) (k : K)
    (d : list (K * V)) : list (K * V) :=
  match d with
  | [] => [(k, f dflt)]
  | (k', v) :: d' =>
      if decide (k' = k) then (k', f v) :: d'
      else (k', v) :: dd_update dflt f k d'
  end.

Fixpoint dd_get {K V} `{EqDecision K} (dflt : V) (k : K) (d : list (K * V)) : V :=
  match d with
  | [] => dflt
  | (k', v) :: d' => if decide (k' = k) then v else dd_get dflt k d'
  end.

(** The mutable state of a run.  [round_allocated] and [round_cat_counts]
    are created afresh at the start of each round. *)
Record State := {
  allocations : gmap string (list Alloc);
  allocated_student : gmap string string;
  pointers : gmap string Pointers;
  round_allocated : list (string * list string);
  round_cat_counts : list (string * list (Category * Z))
}.

(** [len([s for s in allocations[iid] if s['category'] == cat])] *)
Definition count_category (cat : Category) (l : list Alloc) : nat :=
  length (filter (fun s => category s = cat) l).

(** [pointers[iid][cat] += 1] *)
Definition advance_pointer (iid : string) (cat : Category) (s : State) : State :=
  let p := pointers s !!! iid in
  {| allocations := allocations s;
     allocated_student := allocated_student s;
     pointers := <[iid := set_ptr cat (S (get_ptr cat p)) p]> (pointers s);
     round_allocated := round_allocated s;
     round_cat_counts := round_cat_counts s |}.

(** The four statements that confirm [cand] at [iid] under [cat]. *)
Definition confirm (score_lookup : gmap (string * string) Q) (iid : string)
    (cat : Category) (cand : string) (s : State) : State :=
  {| allocations :=
       <[iid := (allocations s !!! iid) ++
                [ {| alloc_student_id := cand; category := cat;
                     alloc_final_score := score_lookup !! (cand, iid) |} ]]>
         (allocations s);
     allocated_student := <[cand := iid]> (allocated_student s);
     pointers := pointers s;
     round_allocated :=
       dd_update [] (fun l => l ++ [cand]) iid (round_allocated s);
     round_cat_counts :=
       dd_update [] (dd_update 0 Z.succ cat) iid (round_cat_counts s) |}.

(** The [while] loop of one category.  Every iteration that does not leave
    the loop advances the pointer, so [fuel] iterations are enough once
    [fuel] covers what is left of the pool. *)
Fixpoint fill_loop (fuel : nat) (score_lookup : gmap (string * string) Q)
    (iid : string) (info : Info) (cat : Category) (s : State) : State :=
  match fuel with
  | O => s
  | S fuel' =>
      if bool_decide
           (Z.of_nat (count_category cat (allocations s !!! iid)) < cap info cat)
      then
        let lst := pool info cat in
        let p := get_ptr cat (pointers s !!! iid) in
        match lst !! p with
        | None => s
        | Some rec =>
            let cand := entry_student_id rec in
            let s := advance_pointer iid cat s in
            match allocated_student s !! cand with
            | Some _ => fill_loop fuel' score_lookup iid info cat s
            | None =>
                fill_loop fuel' score_lookup iid info cat
                  (confirm score_lookup iid cat cand s)
            end
        end
      else s
  end.

Definition fill_category (score_lookup : gmap (string * string) Q)
    (iid : string) (info : Info) (cat : Category) (s : State) : State :=
  fill_loop (length (pool info cat) - get_ptr cat (pointers s !!! iid))
            score_lookup iid info cat s.

(** The body of [for iid, info in ranklists.items()]. *)
Definition allot_internship (score_lookup : gmap (string * string) Q)
    (s : State) (item : string * Info) : State :=
  let '(iid, info) := item in
  let s := fill_category score_lookup iid info SC s in
  let s := fill_category score_lookup iid info ST s in
  let s := fill_category score_lookup iid info OBC s in
  let s := fill_category score_lookup iid info UR s in
  fill_category score_lookup iid info RURAL s.

Definition new_round (s : State) : State :=
  {| allocations := allocations s;
     allocated_student := allocated_student s;
     pointers := pointers s;
     round_allocated := [];
     round_cat_counts := [] |}.

Definition round_pass (score_lookup : gmap (string * string) Q)
    (ranklists : list (string * Info)) (s : State) : State :=
  foldl (allot_internship score_lookup) (new_round s) ranklists.

(** One value of [internships_snapshot]. *)
Record Snapshot := {
  allocated_this_round : Z;
  allocated_students : list string;
  category_counts : list (Category * Z)
}.

(** One entry of [round_logs]. *)
Record RoundLog := {
  round : Z;
  total_allocated : Z;
  internships : list (string * Snapshot)
}.

Definition total_allocated_this_round (s : State) : Z :=
  foldr Z.add 0 ((fun kv => Z.of_nat (length kv.2)) <$> round_allocated s).

Definition round_summary (rounds : Z) (s : State) : RoundLog :=
  {| round := rounds;
     total_allocated := total_allocated_this_round s;
     internships :=
       (fun kv =>
          (kv.1, {| allocated_this_round := Z.of_nat (length kv.2);
                    allocated_students := kv.2;
                    category_counts := dd_get [] kv.1 (round_cat_counts s) |}))
       <$> round_allocated s |}.

(** [while rounds < max_rounds]: [fuel] is the number of rounds still
    allowed. *)
Fixpoint rounds_loop (fuel : nat) (score_lookup : gmap (string * string) Q)
    (ranklists : list (string * Info)) (rounds : Z) (s : State)
    (round_logs : list RoundLog) : State * list RoundLog :=
  match fuel with
  | O => (s, round_logs)
  | S fuel' =>
      let rounds := rounds + 1 in
      let s := round_pass score_lookup ranklists s in
      let round_logs := round_logs ++ [round_summary rounds s] in
      if bool_decide (total_allocated_this_round s = 0) then (s, round_logs)
      else rounds_loop fuel' score_lookup ranklists rounds s round_logs
  end.

(** A row of [final_scores_df]. *)
Record ScoreRow := {
  score_student_id : string;
  score_internship_id : string;
  score_final_score : Q
}.

(** [final_scores_df.set_index([...])['final_score'].to_dict()] *)
Definition make_score_lookup (final_scores_df : list ScoreRow) :
    gmap (string * string) Q :=
  foldl (fun m r =>
           <[(score_student_id r, score_internship_id r) := score_final_score r]> m)
        ∅ final_scores_df.

Definition state_init (ranklists : list (string * Info)) : State :=
  {| allocations := foldl (fun m item => <[item.1 := []]> m) ∅ ranklists;
     allocated_student := ∅;
     pointers := foldl (fun m item => <[item.1 := pointers_init]> m) ∅ ranklists;
     round_allocated := [];
     round_cat_counts := [] |}.

Definition all_categories : list Category := [SC; ST; OBC; UR; RURAL].

(** The set [all_students]. *)
Definition collect_students (ranklists : list (string * Info)) : gset string :=
  foldl (fun acc item =>
           foldl (fun acc cat =>
                    foldl (fun acc rec => acc ∪ {[entry_student_id rec]})
                          acc (pool item.2 cat))
                 acc all_categories)
        ∅ ranklists.

Section Engine.

(** [list(a_set)]: the order in which the interpreter enumerates a set of
    strings.  It depends on the hash seed of the process, not on the
    arguments of the call. *)
Variable list_of_set : gset string -> list string.

(** [multi_round_allotment]; [ranklists] is listed in the order of
    [ranklists.items()].  The argument [students_pref_map] is never read. *)
Definition multi_round_allotment (ranklists : list (string * Info))
    (final_scores_df : list ScoreRow) (max_rounds : Z) :
    gmap string (list Alloc) * list RoundLog * list string :=
  let score_lookup := make_score_lookup final_scores_df in
  let all_students := collect_students ranklists in
  let '(s, round_logs) :=
    rounds_loop (Z.to_nat max_rounds) score_lookup ranklists 0
                (state_init ranklists) [] in
  let unallocated_students :=
    list_of_set (all_students ∖ dom (allocated_student s)) in
  (allocations s, round_logs, unallocated_students).

End Engine.

(** *** What a round leaves behind *)

(** The loop of category [cat] at [iid] has nothing left to do: the
    sub-quota is filled or the pool is used up. *)
Definition saturated (iid : string) (info : Info) (cat : Category)
    (s : State) : Prop :=
  cap info cat <= Z.of_nat (count_category cat (allocations s !!! iid))
  \/ (length (pool info cat) <= get_ptr cat (pointers s !!! iid))%nat.

(** Counts and pointers never go down. *)
Definition grows (s s' : State) : Prop :=
  forall iid cat,
    (count_category cat (allocations s !!! iid)
       <= count_category cat (allocations s' !!! iid))%nat
    /\ (get_ptr cat (pointers s !!! iid)
          <= get_ptr cat (pointers s' !!! iid))%nat.

Lemma grows_refl s : grows s s.
Proof. intros iid cat. split; reflexivity. Qed.

Lemma grows_trans s1 s2 s3 : grows s1 s2 -> grows s2 s3 -> grows s1 s3.
Proof.
  intros H12 H23 iid cat.
  destruct (H12 iid cat), (H23 iid cat). split; lia.
Qed.

Lemma get_set_ptr_eq cat n p : get_ptr cat (set_ptr cat n p) = n.
Proof. by destruct cat. Qed.

Lemma get_set_ptr_ne cat cat' n p :
  cat <> cat' -> get_ptr cat' (set_ptr cat n p) = get_ptr cat' p.
Proof. by destruct cat, cat'. Qed.

Lemma get_set_ptr_le cat cat' p :
  (get_ptr cat' p <= get_ptr cat' (set_ptr cat (S (get_ptr cat p)) p))%nat.
Proof.
  destruct (decide (cat = cat')) as [->|Hne].
  - rewrite get_set_ptr_eq. lia.
  - by rewrite get_set_ptr_ne.
Qed.

Lemma pointers_advance_eq iid cat s :
  pointers (advance_pointer iid cat s) !!! iid
  = set_ptr cat (S (get_ptr cat (pointers s !!! iid))) (pointers s !!! iid).
Proof. simpl. by rewrite lookup_total_insert_eq. Qed.

Lemma advance_pointer_grows iid cat s : grows s (advance_pointer iid cat s).
Proof.
  intros iid' cat'. split; [reflexivity|]. simpl.
  destruct (decide (iid = iid')) as [->|Hne].
  - rewrite lookup_total_insert_eq. apply get_set_ptr_le.
  - by rewrite lookup_total_insert_ne.
Qed.

Lemma count_category_snoc cat l a :
  (count_category cat l <= count_category cat (l ++ [a]))%nat.
Proof. unfold count_category. rewrite filter_app, length_app. lia. Qed.

Lemma confirm_grows score_lookup iid cat cand s :
  grows s (confirm score_lookup iid cat cand s).
Proof.
  intros iid' cat'. split; [|reflexivity]. simpl.
  destruct (decide (iid = iid')) as [->|Hne].
  - rewrite lookup_total_insert_eq. apply count_category_snoc.
  - by rewrite lookup_total_insert_ne.
Qed.

Lemma fill_loop_grows fuel score_lookup iid info cat s :
  grows s (fill_loop fuel score_lookup iid info cat s).
Proof.
  revert s. induction fuel as [|fuel IH]; intros s; simpl; [apply grows_refl|].
  case_bool_decide; [|apply grows_refl].
  destruct (pool info cat !! get_ptr cat (pointers s !!! iid)) as [rec|];
    [|apply grows_refl].
  destruct (allocated_student s !! entry_student_id rec).
  - eapply grows_trans; [apply advance_pointer_grows|apply IH].
  - eapply grows_trans; [apply advance_pointer_grows|].
    eapply grows_trans; [apply confirm_grows|apply IH].
Qed.

Lemma fill_loop_saturated fuel score_lookup iid info cat s :
  (length (pool info cat) - get_ptr cat (pointers s !!! iid) <= fuel)%nat ->
  saturated iid info cat (fill_loop fuel score_lookup iid info cat s).
Proof.
  revert s. induction fuel as [|fuel IH]; intros s Hfuel; simpl.
  - right. lia.
  - case_bool_decide as Hcount; [|left; lia].
    destruct (pool info cat !! get_ptr cat (pointers s !!! iid)) as [rec|] eqn:Hp.
    + assert (length (pool info cat)
                - get_ptr cat (pointers (advance_pointer iid cat s) !!! iid)
              <= fuel)%nat as Hfuel'.
      { rewrite pointers_advance_eq, get_set_ptr_eq. lia. }
      destruct (allocated_student s !! entry_student_id rec);
        apply IH; exact Hfuel'.
    + right. by apply lookup_ge_None.
Qed.

Lemma fill_category_saturated score_lookup iid info cat s :
  saturated iid info cat (fill_category score_lookup iid info cat s).
Proof. apply fill_loop_saturated. reflexivity. Qed.

Lemma fill_category_grows score_lookup iid info cat s :
  grows s (fill_category score_lookup iid info cat s).
Proof. apply fill_loop_grows. Qed.

Lemma fill_category_idle score_lookup iid info cat s :
  saturated iid info cat s -> fill_category score_lookup iid info cat s = s.
Proof.
  intros Hsat. unfold fill_category.
  destruct (length (pool info cat) - get_ptr cat (pointers s !!! iid))%nat
    as [|fuel] eqn:Hfuel; simpl; [reflexivity|].
  destruct Hsat as [Hcap|Hptr]; [|lia].
  by rewrite bool_decide_eq_false_2 by lia.
Qed.

Lemma saturated_grows iid info cat s s' :
  grows s s' -> saturated iid info cat s -> saturated iid info cat s'.
Proof.
  intros Hg [Hcap|Hptr]; destruct (Hg iid cat) as [Hc Hp]; [left|right]; lia.
Qed.

(** Every category of an item is saturated. *)
Definition item_saturated (s : State) (item : string * Info) : Prop :=
  forall cat, saturated item.1 item.2 cat s.

Lemma allot_internship_grows score_lookup s item :
  grows s (allot_internship score_lookup s item).
Proof.
  destruct item as [iid info]. unfold allot_internship.
  repeat (eapply grows_trans; [|apply fill_category_grows]).
  apply grows_refl.
Qed.

Lemma allot_internship_saturated score_lookup s item :
  item_saturated (allot_internship score_lookup s item) item.
Proof.
  destruct item as [iid info]. intros cat. unfold allot_internship. simpl.
  destruct cat.
  - do 4 (eapply saturated_grows; [apply fill_category_grows|]).
    apply fill_category_saturated.
  - do 3 (eapply saturated_grows; [apply fill_category_grows|]).
    apply fill_category_saturated.
  - do 2 (eapply saturated_grows; [apply fill_category_grows|]).
    apply fill_category_saturated.
  - do 1 (eapply saturated_grows; [apply fill_category_grows|]).
    apply fill_category_saturated.
  - apply fill_category_saturated.
Qed.

Lemma allot_internship_idle score_lookup s item :
  item_saturated s item -> allot_internship score_lookup s item = s.
Proof.
  destruct item as [iid info]. intros Hsat. unfold allot_internship.
  rewrite (fill_category_idle _ _ _ SC s) by exact (Hsat SC).
  rewrite (fill_category_idle _ _ _ ST s) by exact (Hsat ST).
  rewrite (fill_category_idle _ _ _ OBC s) by exact (Hsat OBC).
  rewrite (fill_category_idle _ _ _ UR s) by exact (Hsat UR).
  exact (fill_category_idle _ _ _ RURAL s (Hsat RURAL)).
Qed.

Lemma foldl_allot_grows score_lookup ranklists s :
  grows s (foldl (allot_internship score_lookup) s ranklists).
Proof.
  revert s. induction ranklists as [|item l IH]; intros s; simpl.
  - apply grows_refl.
  - eapply grows_trans; [apply allot_internship_grows|apply IH].
Qed.

Lemma foldl_allot_saturated score_lookup ranklists s :
  Forall (item_saturated (foldl (allot_internship score_lookup) s ranklists))
         ranklists.
Proof.
  revert s. induction ranklists as [|item l IH]; intros s; simpl; constructor.
  - intros cat. eapply saturated_grows; [apply foldl_allot_grows|].
    apply allot_internship_saturated.
  - apply IH.
Qed.

Lemma foldl_allot_idle score_lookup ranklists s :
  Forall (item_saturated s) ranklists ->
  foldl (allot_internship score_lookup) s ranklists = s.
Proof.
  induction 1 as [|item l Hitem Hl IH]; simpl; [reflexivity|].
  by rewrite allot_internship_idle.
Qed.

Lemma item_saturated_new_round s item :
  item_saturated s item -> item_saturated (new_round s) item.
Proof. intros H cat. exact (H cat). Qed.

(** A round run on the state a round has left confirms nobody. *)
Lemma round_pass_twice score_lookup ranklists s :
  round_pass score_lookup ranklists (round_pass score_lookup ranklists s)
  = new_round (round_pass score_lookup ranklists s).
Proof.
  unfold round_pass at 1. apply foldl_allot_idle.
  eapply Forall_impl; [apply foldl_allot_saturated|].
  intros item. apply item_saturated_new_round.
Qed.

Lemma rounds_loop_once score_lookup ranklists rounds s round_logs :
  rounds_loop 1 score_lookup ranklists rounds s round_logs
  = (round_pass score_lookup ranklists s,
     round_logs ++ [round_summary (rounds + 1) (round_pass score_lookup ranklists s)]).
Proof. cbn [rounds_loop]. by case_bool_decide. Qed.

Lemma rounds_loop_more fuel score_lookup ranklists rounds s round_logs :
  rounds_loop (S (S fuel)) score_lookup ranklists rounds s round_logs
  = let s1 := round_pass score_lookup ranklists s in
    let logs1 := round_logs ++ [round_summary (rounds + 1) s1] in
    if bool_decide (total_allocated_this_round s1 = 0) then (s1, logs1)
    else (new_round s1,
          logs1 ++ [ {| round := rounds + 1 + 1; total_allocated := 0;
                        internships := [] |} ]).
Proof.
  cbn [rounds_loop]. cbv zeta.
  case_bool_decide; [reflexivity|].
  rewrite round_pass_twice. reflexivity.
Qed.

(** The three components of the returned tuple. *)
Definition result_allocations {A B C} (r : A * B * C) : A := r.1.1.
Definition result_round_logs {A B C} (r : A * B * C) : B := r.1.2.
Definition result_unallocated {A B C} (r : A * B * C) : C := r.2.

(** C10. With a round cap of at least 2 the allocator is at a fixpoint
    after its first round: the allocations of the run, and its list of
    unallocated students, are those of a run capped at one round; the round
    log has at most two entries, the first being the log of the one-round
    run; a second entry, if there is one, reports no confirmation at any
    internship; and the last entry reports [total_allocated = 0]. *)
Theorem multi_round_settles_in_first_round
    (list_of_set : gset string -> list string)
    (ranklists : list (string * Info)) (final_scores_df : list ScoreRow)
    (max_rounds : Z) :
  2 <= max_rounds ->
  let run := multi_round_allotment list_of_set ranklists final_scores_df max_rounds in
  let single := multi_round_allotment list_of_set ranklists final_scores_df 1 in
  result_allocations run = result_allocations single
  /\ result_unallocated run = result_unallocated single
  /\ (length (result_round_logs run) <= 2)%nat
  /\ take 1 (result_round_logs run) = result_round_logs single
  /\ (forall log, result_round_logs run !! 1%nat = Some log ->
        round log = 2 /\ total_allocated log = 0 /\ internships log = [])
  /\ (exists log, last (result_round_logs run) = Some log
                  /\ total_allocated log = 0).
Proof.
  intros Hmax. unfold multi_round_allotment.
  destruct (Z.to_nat max_rounds) as [|[|fuel]] eqn:Hfuel; [lia|lia|].
  change (Z.to_nat 1) with 1%nat.
  rewrite rounds_loop_once, rounds_loop_more. cbv zeta.
  set (s1 := round_pass _ ranklists (state_init ranklists)).
  case_bool_decide as Htotal; unfold result_allocations, result_unallocated,
    result_round_logs; simpl;
    (split; [reflexivity|]); (split; [reflexivity|]); (split; [lia|]);
    (split; [reflexivity|]); split.
  - intros log Hlog. discriminate Hlog.
  - eexists. split; [reflexivity|]. exact Htotal.
  - intros log Hlog. injection Hlog as <-. by repeat split.
  - eexists. split; reflexivity.
Qed.

(** *** One position per student *)

(** Every confirmed record is registered in [allocated_student] under the
    internship that holds it, and no internship holds a student twice. *)
Definition held_once (s : State) : Prop :=
  forall iid,
    NoDup (alloc_student_id <$> (allocations s !!! iid))
    /\ forall a, a ∈ allocations s !!! iid ->
         allocated_student s !! alloc_student_id a = Some iid.

Lemma confirm_held_once score_lookup iid cat cand s :
  allocated_student s !! cand = None ->
  held_once s -> held_once (confirm score_lookup iid cat cand s).
Proof.
  intros Hfree Hs iid'. destruct (Hs iid') as [Hnd Hreg]. simpl.
  destruct (decide (iid = iid')) as [<-|Hne].
  - rewrite lookup_total_insert_eq. split.
    + rewrite fmap_app. simpl. apply NoDup_app. split; [exact Hnd|].
      split; [|apply NoDup_singleton].
      intros x Hx Hx'. apply list_elem_of_singleton in Hx' as ->.
      apply list_elem_of_fmap in Hx as (a & Ha & Hin).
      specialize (Hreg a Hin). rewrite <- Ha in Hreg. congruence.
    + intros a Ha. apply elem_of_app in Ha as [Ha|Ha].
      * specialize (Hreg a Ha).
        rewrite lookup_insert_ne; [exact Hreg|]. congruence.
      * apply list_elem_of_singleton in Ha as ->. simpl.
        by rewrite lookup_insert_eq.
  - rewrite lookup_total_insert_ne by exact Hne. split; [exact Hnd|].
    intros a Ha. specialize (Hreg a Ha).
    rewrite lookup_insert_ne; [exact Hreg|]. congruence.
Qed.

Lemma fill_loop_held_once fuel score_lookup iid info cat s :
  held_once s -> held_once (fill_loop fuel score_lookup iid info cat s).
Proof.
  revert s. induction fuel as [|fuel IH]; intros s Hs; simpl; [exact Hs|].
  case_bool_decide; [|exact Hs].
  destruct (pool info cat !! get_ptr cat (pointers s !!! iid)) as [rec|];
    [|exact Hs].
  destruct (allocated_student s !! entry_student_id rec) eqn:Hheld.
  - apply IH. exact Hs.
  - apply IH. apply confirm_held_once; [exact Hheld|exact Hs].
Qed.

Lemma allot_internship_held_once score_lookup s item :
  held_once s -> held_once (allot_internship score_lookup s item).
Proof.
  destruct item as [iid info]. intros Hs. unfold allot_internship, fill_category.
  by do 5 apply fill_loop_held_once.
Qed.

Lemma round_pass_held_once score_lookup ranklists s :
  held_once s -> held_once (round_pass score_lookup ranklists s).
Proof.
  intros Hs. unfold round_pass.
  assert (held_once (new_round s)) as Hs' by exact Hs.
  revert Hs'. generalize (new_round s). clear Hs.
  induction ranklists as [|item l IH]; intros s0 Hs0; simpl; [exact Hs0|].
  apply IH. by apply allot_internship_held_once.
Qed.

Lemma rounds_loop_held_once fuel score_lookup ranklists rounds s round_logs :
  held_once s ->
  held_once (rounds_loop fuel score_lookup ranklists rounds s round_logs).1.
Proof.
  revert rounds s round_logs.
  induction fuel as [|fuel IH]; intros rounds s round_logs Hs; [exact Hs|].
  cbn [rounds_loop].
  case_bool_decide; [by apply round_pass_held_once|].
  apply IH. by apply round_pass_held_once.
Qed.

Lemma state_init_allocations ranklists iid :
  allocations (state_init ranklists) !!! iid = [].
Proof.
  simpl. induction ranklists as [|item l IH] using rev_ind; simpl.
  - by rewrite lookup_total_empty.
  - rewrite foldl_snoc. destruct (decide (item.1 = iid)) as [->|Hne].
    + by rewrite lookup_total_insert_eq.
    + by rewrite lookup_total_insert_ne.
Qed.

Lemma state_init_held_once ranklists : held_once (state_init ranklists).
Proof.
  intros iid. rewrite state_init_allocations. split; [constructor|].
  intros a Ha. by apply not_elem_of_nil in Ha.
Qed.

(** In the allocations that [multi_round_allotment] returns, no student
    identity occurs twice: not at two internships, and not twice at one. *)
Theorem multi_round_one_position_per_student
    (list_of_set : gset string -> list string)
    (ranklists : list (string * Info)) (final_scores_df : list ScoreRow)
    (max_rounds : Z) :
  let allocations :=
    result_allocations
      (multi_round_allotment list_of_set ranklists final_scores_df max_rounds) in
  (forall iid, NoDup (alloc_student_id <$> (allocations !!! iid)))
  /\ (forall iid1 iid2 a1 a2,
        a1 ∈ allocations !!! iid1 -> a2 ∈ allocations !!! iid2 ->
        alloc_student_id a1 = alloc_student_id a2 -> iid1 = iid2).
Proof.
  unfold multi_round_allotment.
  pose proof (rounds_loop_held_once (Z.to_nat max_rounds)
                (make_score_lookup final_scores_df) ranklists 0
                (state_init ranklists) [] (state_init_held_once ranklists))
    as Hheld.
  destruct (rounds_loop _ _ _ _ _ _) as [s round_logs].
  unfold result_allocations. simpl in *. split.
  - intros iid. apply (Hheld iid).
  - intros iid1 iid2 a1 a2 H1 H2 Hid.
    apply (Hheld iid1) in H1. apply (Hheld iid2) in H2. congruence.
Qed.

(** *** Seats beyond the capacity *)

Definition entry (sid : string) (score : Q) : Entry :=
  {| entry_student_id := sid; entry_final_score := score |}.

Definition all_entries : list Entry :=
  [ entry "s1" (9 # 10); entry "s2" (8 # 10); entry "s3" (7 # 10);
    entry "s4" (6 # 10); entry "s5" (5 # 10); entry "s6" (4 # 10);
    entry "s7" (3 # 10); entry "s8" (2 # 10) ].

(** An internship of capacity 5 with the split that [generate_internships]
    gives it; s1 is SC, s2 is ST, s3 is OBC and s6 is rural. *)
Definition info_I001 : Info :=
  {| list_SC := [entry "s1" (9 # 10)];
     list_ST := [entry "s2" (8 # 10)];
     list_OBC := [entry "s3" (7 # 10)];
     list_UR := all_entries;
     list_RURAL := [entry "s6" (4 # 10)];
     info_capacity := 5; info_cap_sc := 1; info_cap_st := 1;
     info_cap_obc := 1; info_cap_ur := 2; info_cap_rural := 1 |}.

Definition scores_I001 : list ScoreRow :=
  (fun e => {| score_student_id := entry_student_id e;
               score_internship_id := "I001";
               score_final_score := entry_final_score e |}) <$> all_entries.

(** C1, evaluated on [info_I001]: the four vertical loops confirm five
    students, the RURAL loop a sixth, at an internship of capacity 5. *)
Theorem multi_round_exceeds_capacity :
  let run := multi_round_allotment elements [("I001", info_I001)] scores_I001 10 in
  alloc_student_id <$> (result_allocations run !!! "I001")
    = ["s1"; "s2"; "s3"; "s4"; "s5"; "s6"]
  /\ category <$> (result_allocations run !!! "I001")
    = [SC; ST; OBC; UR; UR; RURAL]
  /\ total_allocated <$> result_round_logs run = [6; 0]
  /\ info_capacity info_I001 = 5.
Proof. vm_compute. repeat split; reflexivity. Qed.

Lemma multi_round_settles_in_first_round_witness :
  let run := multi_round_allotment elements [("I001", info_I001)] scores_I001 10 in
  let single := multi_round_allotment elements [("I001", info_I001)] scores_I001 1 in
  result_allocations run = result_allocations single
  /\ result_unallocated run = result_unallocated single
  /\ (length (result_round_logs run) <= 2)%nat
  /\ take 1 (result_round_logs run) = result_round_logs single
  /\ (forall log, result_round_logs run !! 1%nat = Some log ->
        round log = 2 /\ total_allocated log = 0 /\ internships log = [])
  /\ (exists log, last (result_round_logs run) = Some log
                  /\ total_allocated log = 0).
Proof.
  apply (multi_round_settles_in_first_round elements [("I001", info_I001)]
           scores_I001 10).
  lia.
Defined.

(** *** The order of the unallocated students *)

(** [f] lists the members of a set, each once, in some order. *)
Definition enumerates (f : gset string -> list string) : Prop :=
  forall X, f X ≡ₚ elements X.

Definition reverse_elements (X : gset string) : list string :=
  reverse (elements X).

Lemma elements_enumerates : enumerates elements.
Proof. intros X. reflexivity. Qed.

Lemma reverse_elements_enumerates : enumerates reverse_elements.
Proof. intros X. unfold reverse_elements. apply reverse_Permutation. Qed.

(** C8, as stated, fails: two runs on the same arguments, under two
    enumeration orders of the set of unallocated students, return that list
    in different orders. *)
Lemma multi_round_unallocated_order_counterexample :
  enumerates elements /\ enumerates reverse_elements
  /\ result_unallocated
       (multi_round_allotment elements [("I001", info_I001)] scores_I001 10)
     <> result_unallocated
          (multi_round_allotment reverse_elements [("I001", info_I001)]
             scores_I001 10).
Proof.
  split; [exact elements_enumerates|].
  split; [exact reverse_elements_enumerates|].
  vm_compute. discriminate.
Qed.

(** C8 (amended). Two runs of [multi_round_allotment] on the same arguments
    return the same allocations and the same round log, element for element
    and in the same order, whatever order the interpreter enumerates sets
    in; their lists of unallocated students hold the same students, in an
    order that the arguments do not determine. *)
Theorem multi_round_deterministic_up_to_set_order
    (order1 order2 : gset string -> list string)
    (ranklists : list (string * Info)) (final_scores_df : list ScoreRow)
    (max_rounds : Z) :
  enumerates order1 -> enumerates order2 ->
  let run1 := multi_round_allotment order1 ranklists final_scores_df max_rounds in
  let run2 := multi_round_allotment order2 ranklists final_scores_df max_rounds in
  result_allocations run1 = result_allocations run2
  /\ result_round_logs run1 = result_round_logs run2
  /\ result_unallocated run1 ≡ₚ result_unallocated run2.
Proof.
  intros H1 H2. unfold multi_round_allotment.
  destruct (rounds_loop _ _ _ _ _ _) as [s round_logs].
  unfold result_allocations, result_round_logs, result_unallocated. simpl.
  split; [reflexivity|]. split; [reflexivity|].
  etrans; [apply H1|]. symmetry. apply H2.
Qed.

Lemma multi_round_deterministic_up_to_set_order_witness :
  let run1 := multi_round_allotment elements [("I001", info_I001)] scores_I001 10 in
  let run2 := multi_round_allotment reverse_elements [("I001", info_I001)]
                scores_I001 10 in
  result_allocations run1 = result_allocations run2
  /\ result_round_logs run1 = result_round_logs run2
  /\ result_unallocated run1 ≡ₚ result_unallocated run2.
Proof.
  apply (multi_round_deterministic_up_to_set_order elements reverse_elements
           [("I001", info_I001)] scores_I001 10).
  - exact elements_enumerates.
  - exact reverse_elements_enumerates.
Defined.

(** *** Sub-quotas are never exceeded *)

Lemma count_category_app cat l a :
  count_category cat (l ++ [a])
  = (count_category cat l + (if decide (category a = cat) then 1 else 0))%nat.
Proof.
  unfold count_category. rewrite filter_app, length_app.
  rewrite filter_cons, filter_nil. by destruct (decide (category a = cat)).
Qed.

(** The count of category [cat'] at [iid'] is within the sub-quota that
    [info'] gives it. *)
Definition quota_kept (iid' : string) (info' : Info) (cat' : Category)
    (s : State) : Prop :=
  Z.of_nat (count_category cat' (allocations s !!! iid'))
  <= Z.max 0 (cap info' cat').

Lemma fill_loop_quota_kept fuel score_lookup iid info cat s iid' info' cat' :
  (iid' = iid -> info' = info) ->
  quota_kept iid' info' cat' s ->
  quota_kept iid' info' cat' (fill_loop fuel score_lookup iid info cat s).
Proof.
  intros Hsame. revert s.
  induction fuel as [|fuel IH]; intros s Hs; simpl; [exact Hs|].
  case_bool_decide as Hroom; [|exact Hs].
  destruct (pool info cat !! get_ptr cat (pointers s !!! iid)) as [rec|];
    [|exact Hs].
  destruct (allocated_student s !! entry_student_id rec).
  - apply IH. exact Hs.
  - apply IH. unfold quota_kept in *. simpl.
    destruct (decide (iid = iid')) as [<-|Hne].
    + rewrite lookup_total_insert_eq, count_category_app. simpl.
      destruct (decide (cat = cat')) as [<-|Hcat]; [|lia].
      rewrite (Hsame eq_refl). lia.
    + by rewrite lookup_total_insert_ne.
Qed.

Lemma allot_internship_quota_kept score_lookup s item iid' info' cat' :
  (iid' = item.1 -> info' = item.2) ->
  quota_kept iid' info' cat' s ->
  quota_kept iid' info' cat' (allot_internship score_lookup s item).
Proof.
  destruct item as [iid info]. simpl. intros Hsame Hs.
  unfold allot_internship, fill_category.
  do 5 (apply fill_loop_quota_kept; [exact Hsame|]). exact Hs.
Qed.

Lemma same_key_same_value {V} (l : list (string * V)) k v1 v2 :
  NoDup l.*1 -> (k, v1) ∈ l -> (k, v2) ∈ l -> v1 = v2.
Proof.
  intros Hnd H1 H2.
  apply list_elem_of_lookup in H1 as [i Hi].
  apply list_elem_of_lookup in H2 as [j Hj].
  assert (i = j) as ->; [|congruence].
  eapply (NoDup_lookup _ i j k); [exact Hnd| |].
  - by rewrite list_lookup_fmap, Hi.
  - by rewrite list_lookup_fmap, Hj.
Qed.

(** All sub-quotas of all items of [ranklists] are kept. *)
Definition quotas_kept (ranklists : list (string * Info)) (s : State) : Prop :=
  forall iid info cat, (iid, info) ∈ ranklists -> quota_kept iid info cat s.

Lemma foldl_allot_quotas_kept score_lookup ranklists items s :
  NoDup ranklists.*1 -> items ⊆ ranklists ->
  quotas_kept ranklists s ->
  quotas_kept ranklists (foldl (allot_internship score_lookup) s items).
Proof.
  intros Hnd. revert s.
  induction items as [|item items IH]; intros s Hsub Hs; simpl; [exact Hs|].
  apply IH.
  - intros x Hx. apply Hsub. by apply list_elem_of_further.
  - intros iid' info' cat' Hin.
    apply allot_internship_quota_kept; [|by apply Hs].
    intros Hid. destruct item as [iid info]. simpl in *. subst iid'.
    eapply same_key_same_value; [exact Hnd|exact Hin|].
    apply Hsub, list_elem_of_here.
Qed.

Lemma rounds_loop_quotas_kept fuel score_lookup ranklists rounds s round_logs :
  NoDup ranklists.*1 ->
  quotas_kept ranklists s ->
  quotas_kept ranklists
    (rounds_loop fuel score_lookup ranklists rounds s round_logs).1.
Proof.
  intros Hnd. revert rounds s round_logs.
  induction fuel as [|fuel IH]; intros rounds s round_logs Hs; [exact Hs|].
  cbn [rounds_loop].
  assert (quotas_kept ranklists (round_pass score_lookup ranklists s)) as Hs'.
  { unfold round_pass. by apply foldl_allot_quotas_kept. }
  case_bool_decide; [exact Hs'|]. by apply IH.
Qed.

Lemma length_by_category (l : list Alloc) :
  length l
  = (count_category SC l + count_category ST l + count_category OBC l
     + count_category UR l + count_category RURAL l)%nat.
Proof.
  induction l as [|a l IH]; [reflexivity|].
  unfold count_category in *. rewrite !filter_cons. simpl.
  destruct (category a); simpl; lia.
Qed.

(** When no internship is listed twice, [multi_round_allotment] confirms,
    at every internship and under every category, no more candidates than
    the sub-quota of that category; the confirmed list of an internship is
    therefore no longer than its five sub-quotas together. *)
Theorem multi_round_within_sub_quotas
    (list_of_set : gset string -> list string)
    (ranklists : list (string * Info)) (final_scores_df : list ScoreRow)
    (max_rounds : Z) (iid : string) (info : Info) :
  NoDup ranklists.*1 ->
  (iid, info) ∈ ranklists ->
  let confirmed :=
    result_allocations
      (multi_round_allotment list_of_set ranklists final_scores_df max_rounds)
      !!! iid in
  (forall cat,
     Z.of_nat (count_category cat confirmed) <= Z.max 0 (cap info cat))
  /\ Z.of_nat (length confirmed)
     <= Z.max 0 (info_cap_sc info) + Z.max 0 (info_cap_st info)
        + Z.max 0 (info_cap_obc info) + Z.max 0 (info_cap_ur info)
        + Z.max 0 (info_cap_rural info).
Proof.
  intros Hnd Hin. unfold multi_round_allotment.
  pose proof (rounds_loop_quotas_kept (Z.to_nat max_rounds)
                (make_score_lookup final_scores_df) ranklists 0
                (state_init ranklists) [] Hnd) as Hkept.
  destruct (rounds_loop _ _ _ _ _ _) as [s round_logs].
  unfold result_allocations. simpl in *.
  assert (quotas_kept ranklists s) as Hs.
  { apply Hkept. intros iid' info' cat' _. unfold quota_kept.
    rewrite state_init_allocations. unfold count_category. simpl. lia. }
  assert (forall cat,
            Z.of_nat (count_category cat (allocations s !!! iid))
            <= Z.max 0 (cap info cat)) as Hcat.
  { intros cat. by apply Hs. }
  split; [exact Hcat|].
  rewrite length_by_category.
  pose proof (Hcat SC). pose proof (Hcat ST). pose proof (Hcat OBC).
  pose proof (Hcat UR). pose proof (Hcat RURAL). simpl in *. lia.
Qed.

Lemma multi_round_within_sub_quotas_witness :
  let confirmed :=
    result_allocations
      (multi_round_allotment elements [("I001", info_I001)] scores_I001 10)
      !!! "I001" in
  (forall cat,
     Z.of_nat (count_category cat confirmed) <= Z.max 0 (cap info_I001 cat))
  /\ Z.of_nat (length confirmed)
     <= Z.max 0 (info_cap_sc info_I001) + Z.max 0 (info_cap_st info_I001)
        + Z.max 0 (info_cap_obc info_I001) + Z.max 0 (info_cap_ur info_I001)
        + Z.max 0 (info_cap_rural info_I001).
Proof.
  apply (multi_round_within_sub_quotas elements [("I001", info_I001)]
           scores_I001 10 "I001" info_I001).
  - apply NoDup_singleton.
  - apply list_elem_of_here.
Defined.

(** *** Where the confirmed students come from, and who is left *)

(** [sid] is listed in some pool of some item of [ranklists]. *)
Definition listed (ranklists : list (string * Info)) (sid : string) : Prop :=
  exists item cat e,
    item ∈ ranklists /\ e ∈ pool item.2 cat /\ entry_student_id e = sid.

Lemma collect_entries_elem (l : list Entry) (acc : gset string) sid :
  sid ∈ foldl (fun acc rec => acc ∪ {[entry_student_id rec]}) acc l
  <-> sid ∈ acc \/ exists e, e ∈ l /\ entry_student_id e = sid.
Proof.
  revert acc. induction l as [|e0 l IH]; intros acc; simpl.
  - split; [by left|]. intros [H|(e & He & _)]; [exact H|].
    by apply not_elem_of_nil in He.
  - rewrite IH, elem_of_union, elem_of_singleton. split.
    + intros [[H|H]|(e & He & Hid)].
      * by left.
      * right. exists e0. split; [apply list_elem_of_here|done].
      * right. exists e. split; [by apply list_elem_of_further|done].
    + intros [H|(e & He & Hid)]; [by left; left|].
      apply elem_of_cons in He as [->|He]; [by left; right|].
      right. by exists e.
Qed.

Lemma collect_categories_elem (cats : list Category) (info : Info)
    (acc : gset string) sid :
  sid ∈ foldl (fun acc cat =>
                 foldl (fun acc rec => acc ∪ {[entry_student_id rec]})
                       acc (pool info cat))
              acc cats
  <-> sid ∈ acc
      \/ exists cat e, cat ∈ cats /\ e ∈ pool info cat /\ entry_student_id e = sid.
Proof.
  revert acc. induction cats as [|c cats IH]; intros acc; simpl.
  - split; [by left|]. intros [H|(cat & e & Hc & _)]; [exact H|].
    by apply not_elem_of_nil in Hc.
  - rewrite IH, collect_entries_elem. split.
    + intros [[H|(e & He & Hid)]|(cat & e & Hc & He & Hid)].
      * by left.
      * right. exists c, e. split; [apply list_elem_of_here|done].
      * right. exists cat, e. split; [by apply list_elem_of_further|done].
    + intros [H|(cat & e & Hc & He & Hid)]; [by left; left|].
      apply elem_of_cons in Hc as [->|Hc]; [left; right; by exists e|].
      right. by exists cat, e.
Qed.

Lemma all_categories_elem cat : cat ∈ all_categories.
Proof.
  unfold all_categories.
  destruct cat; repeat first [apply list_elem_of_here | apply list_elem_of_further].
Qed.

Lemma collect_items_elem (ranklists : list (string * Info))
    (acc : gset string) sid :
  sid ∈ foldl (fun acc item =>
                 foldl (fun acc cat =>
                          foldl (fun acc rec => acc ∪ {[entry_student_id rec]})
                                acc (pool item.2 cat))
                       acc all_categories)
              acc ranklists
  <-> sid ∈ acc \/ listed ranklists sid.
Proof.
  revert acc. induction ranklists as [|it l IH]; intros acc; cbn [foldl].
  - split; [by left|]. intros [H|(item & cat & e & Hi & _)]; [exact H|].
    by apply not_elem_of_nil in Hi.
  - rewrite IH, collect_categories_elem. split.
    + intros [[H|(cat & e & _ & He & Hid)]|(item & cat & e & Hi & He & Hid)].
      * by left.
      * right. exists it, cat, e. split; [apply list_elem_of_here|done].
      * right. exists item, cat, e. split; [by apply list_elem_of_further|done].
    + intros [H|(item & cat & e & Hi & He & Hid)]; [by left; left|].
      apply elem_of_cons in Hi as [->|Hi].
      * left. right. exists cat, e. split; [apply all_categories_elem|done].
      * right. by exists item, cat, e.
Qed.

Lemma collect_students_elem ranklists sid :
  sid ∈ collect_students ranklists <-> listed ranklists sid.
Proof.
  unfold collect_students. rewrite collect_items_elem.
  split; [|by right]. intros [H|H]; [|exact H].
  by apply not_elem_of_empty in H.
Qed.

(** A confirmed record at [iid] was read, under its category, from a pool of
    an item of [ranklists] with that key, and carries the score that
    [score_lookup] has for the pair. *)
Definition from_pools (score_lookup : gmap (string * string) Q)
    (ranklists : list (string * Info)) (s : State) : Prop :=
  forall iid a,
    a ∈ allocations s !!! iid ->
    alloc_final_score a = score_lookup !! (alloc_student_id a, iid)
    /\ exists info e,
         (iid, info) ∈ ranklists /\ e ∈ pool info (category a)
         /\ entry_student_id e = alloc_student_id a.

(** A student registered in [allocated_student] has a confirmed record at
    the internship it is registered with. *)
Definition registered_held (s : State) : Prop :=
  forall sid iid,
    allocated_student s !! sid = Some iid ->
    exists a, a ∈ allocations s !!! iid /\ alloc_student_id a = sid.

Lemma confirm_registered_held score_lookup iid cat cand s :
  registered_held s -> registered_held (confirm score_lookup iid cat cand s).
Proof.
  intros Hs sid iid'. simpl.
  destruct (decide (cand = sid)) as [->|Hne].
  - rewrite lookup_insert_eq. intros [= <-].
    rewrite lookup_total_insert_eq.
    exists {| alloc_student_id := sid; category := cat;
              alloc_final_score := score_lookup !! (sid, iid) |}.
    split; [|reflexivity].
    apply elem_of_app. right. apply list_elem_of_here.
  - rewrite lookup_insert_ne by exact Hne. intros Hreg.
    destruct (Hs sid iid' Hreg) as (a & Ha & Hid). exists a. split; [|exact Hid].
    destruct (decide (iid = iid')) as [<-|Hiid].
    + rewrite lookup_total_insert_eq. apply elem_of_app. by left.
    + by rewrite lookup_total_insert_ne.
Qed.

Lemma fill_loop_provenance fuel score_lookup ranklists iid info cat s :
  (iid, info) ∈ ranklists ->
  from_pools score_lookup ranklists s /\ registered_held s ->
  from_pools score_lookup ranklists (fill_loop fuel score_lookup iid info cat s)
  /\ registered_held (fill_loop fuel score_lookup iid info cat s).
Proof.
  intros Hitem. revert s.
  induction fuel as [|fuel IH]; intros s Hs; simpl; [exact Hs|].
  case_bool_decide; [|exact Hs].
  destruct (pool info cat !! get_ptr cat (pointers s !!! iid)) as [rec|] eqn:Hp;
    [|exact Hs].
  destruct (allocated_student s !! entry_student_id rec).
  - apply IH. exact Hs.
  - apply IH. destruct Hs as [Hfrom Hreg].
    split; [|by apply confirm_registered_held].
    intros iid' a. simpl.
    destruct (decide (iid = iid')) as [<-|Hne].
    + rewrite lookup_total_insert_eq. intros Ha.
      apply elem_of_app in Ha as [Ha|Ha]; [by apply Hfrom|].
      apply list_elem_of_singleton in Ha as ->. simpl.
      split; [reflexivity|]. exists info, rec.
      split; [exact Hitem|]. split; [|reflexivity].
      apply list_elem_of_lookup. eauto.
    + rewrite lookup_total_insert_ne by exact Hne. apply Hfrom.
Qed.

Lemma foldl_allot_provenance score_lookup ranklists items s :
  items ⊆ ranklists ->
  from_pools score_lookup ranklists s /\ registered_held s ->
  from_pools score_lookup ranklists
    (foldl (allot_internship score_lookup) s items)
  /\ registered_held (foldl (allot_internship score_lookup) s items).
Proof.
  revert s. induction items as [|[iid info] items IH]; intros s Hsub Hs; simpl;
    [exact Hs|].
  apply IH; [intros x Hx; apply Hsub; by apply list_elem_of_further|].
  assert ((iid, info) ∈ ranklists) as Hitem by apply Hsub, list_elem_of_here.
  unfold fill_category.
  by do 5 (apply fill_loop_provenance; [exact Hitem|]).
Qed.

Lemma rounds_loop_provenance fuel score_lookup ranklists rounds s round_logs :
  from_pools score_lookup ranklists s /\ registered_held s ->
  let s' := (rounds_loop fuel score_lookup ranklists rounds s round_logs).1 in
  from_pools score_lookup ranklists s' /\ registered_held s'.
Proof.
  revert rounds s round_logs.
  induction fuel as [|fuel IH]; intros rounds s round_logs Hs; [exact Hs|].
  cbn [rounds_loop].
  assert (from_pools score_lookup ranklists (round_pass score_lookup ranklists s)
          /\ registered_held (round_pass score_lookup ranklists s)) as Hs'.
  { unfold round_pass. by apply foldl_allot_provenance. }
  case_bool_decide; [exact Hs'|]. by apply IH.
Qed.

Lemma state_init_provenance score_lookup ranklists :
  from_pools score_lookup ranklists (state_init ranklists)
  /\ registered_held (state_init ranklists).
Proof.
  split.
  - intros iid a. rewrite state_init_allocations. intros Ha.
    by apply not_elem_of_nil in Ha.
  - intros sid iid. simpl. rewrite lookup_empty. discriminate.
Qed.

(** Every record that [multi_round_allotment] returns for an internship was
    read, under the category it carries, from a pool of that internship, and
    its score is the one [final_scores_df] has for the pair. *)
Theorem multi_round_records_from_pools
    (list_of_set : gset string -> list string)
    (ranklists : list (string * Info)) (final_scores_df : list ScoreRow)
    (max_rounds : Z) (iid : string) (a : Alloc) :
  a ∈ result_allocations
        (multi_round_allotment list_of_set ranklists final_scores_df max_rounds)
        !!! iid ->
  alloc_final_score a
    = make_score_lookup final_scores_df !! (alloc_student_id a, iid)
  /\ exists info e,
       (iid, info) ∈ ranklists /\ e ∈ pool info (category a)
       /\ entry_student_id e = alloc_student_id a.
Proof.
  unfold multi_round_allotment.
  pose proof (rounds_loop_provenance (Z.to_nat max_rounds)
                (make_score_lookup final_scores_df) ranklists 0
                (state_init ranklists) []
                (state_init_provenance _ ranklists)) as [Hfrom _].
  destruct (rounds_loop _ _ _ _ _ _) as [s round_logs].
  unfold result_allocations. simpl in *. apply Hfrom.
Qed.

Lemma multi_round_records_from_pools_witness :
  let a := {| alloc_student_id := "s6"; category := RURAL;
              alloc_final_score := Some (4 # 10) |} in
  alloc_final_score a
    = make_score_lookup scores_I001 !! (alloc_student_id a, "I001")
  /\ exists info e,
       ("I001", info) ∈ [("I001", info_I001)] /\ e ∈ pool info (category a)
       /\ entry_student_id e = alloc_student_id a.
Proof.
  intros a.
  apply (multi_round_records_from_pools elements [("I001", info_I001)]
           scores_I001 10 "I001" a).
  vm_compute. do 5 apply list_elem_of_further. apply list_elem_of_here.
Defined.

(** The list of unallocated students holds, each once, exactly the students
    listed in some pool and confirmed nowhere. *)
Theorem multi_round_unallocated_are_the_rest
    (list_of_set : gset string -> list string)
    (ranklists : list (string * Info)) (final_scores_df : list ScoreRow)
    (max_rounds : Z) :
  enumerates list_of_set ->
  let run := multi_round_allotment list_of_set ranklists final_scores_df max_rounds in
  NoDup (result_unallocated run)
  /\ forall sid,
       sid ∈ result_unallocated run
       <-> listed ranklists sid
           /\ forall iid a, a ∈ result_allocations run !!! iid ->
                            alloc_student_id a <> sid.
Proof.
  intros Henum. unfold multi_round_allotment.
  pose proof (rounds_loop_provenance (Z.to_nat max_rounds)
                (make_score_lookup final_scores_df) ranklists 0
                (state_init ranklists) []
                (state_init_provenance _ ranklists)) as [_ Hreg].
  pose proof (rounds_loop_held_once (Z.to_nat max_rounds)
                (make_score_lookup final_scores_df) ranklists 0
                (state_init ranklists) [] (state_init_held_once ranklists))
    as Hheld.
  destruct (rounds_loop _ _ _ _ _ _) as [s round_logs].
  unfold result_allocations, result_unallocated. simpl in *. split.
  - rewrite (Henum _). apply NoDup_elements.
  - intros sid. rewrite (Henum _), elem_of_elements, elem_of_difference.
    rewrite collect_students_elem, elem_of_dom. split.
    + intros [Hlisted Hfree]. split; [exact Hlisted|].
      intros iid a Ha Hid. apply Hfree. exists iid.
      rewrite <- Hid. by apply (Hheld iid).
    + intros [Hlisted Hnone]. split; [exact Hlisted|].
      intros [iid Hsid]. destruct (Hreg sid iid Hsid) as (a & Ha & Hid).
      by apply (Hnone iid a).
Qed.

Lemma multi_round_unallocated_are_the_rest_witness :
  let run := multi_round_allotment elements [("I001", info_I001)] scores_I001 10 in
  NoDup (result_unallocated run)
  /\ forall sid,
       sid ∈ result_unallocated run
       <-> listed [("I001", info_I001)] sid
           /\ forall iid a, a ∈ result_allocations run !!! iid ->
                            alloc_student_id a <> sid.
Proof.
  apply (multi_round_unallocated_are_the_rest elements [("I001", info_I001)]
           scores_I001 10).
  exact elements_enumerates.
Defined.

(** *** The log of the first round *)

Lemma dd_get_update_eq {K V} `{EqDecision K} (dflt : V) (f : V -> V) (k : K)
    (d : list (K * V)) :
  dd_get dflt k (dd_update dflt f k d) = f (dd_get dflt k d).
Proof.
  induction d as [|[k0 v0] d IH]; simpl.
  - by rewrite decide_True.
  - destruct (decide (k0 = k)) as [->|Hne]; simpl.
    + by rewrite decide_True.
    + by rewrite decide_False.
Qed.

Lemma dd_get_update_ne {K V} `{EqDecision K} (dflt : V) (f : V -> V)
    (k k' : K) (d : list (K * V)) :
  k <> k' -> dd_get dflt k' (dd_update dflt f k d) = dd_get dflt k' d.
Proof.
  intros Hkk. induction d as [|[k0 v0] d IH]; simpl.
  - by rewrite decide_False.
  - destruct (decide (k0 = k)) as [->|Hne]; simpl.
    + by rewrite !decide_False.
    + destruct (decide (k0 = k')); [reflexivity|exact IH].
Qed.

(** Since the state [s0] at which the round started, [round_allocated] and
    [round_cat_counts] have recorded every confirmation. *)
Definition round_tracks (s0 s : State) : Prop :=
  forall iid,
    alloc_student_id <$> (allocations s !!! iid)
    = (alloc_student_id <$> (allocations s0 !!! iid))
      ++ dd_get [] iid (round_allocated s)
    /\ forall cat,
         Z.of_nat (count_category cat (allocations s !!! iid))
         = Z.of_nat (count_category cat (allocations s0 !!! iid))
           + dd_get 0 cat (dd_get [] iid (round_cat_counts s)).

Lemma new_round_tracks s0 : round_tracks s0 (new_round s0).
Proof. intros iid. simpl. split; [by rewrite app_nil_r|]. intros cat. lia. Qed.

Lemma confirm_tracks score_lookup iid cat cand s0 s :
  round_tracks s0 s -> round_tracks s0 (confirm score_lookup iid cat cand s).
Proof.
  intros Hs iid'. destruct (Hs iid') as [Hids Hcounts]. simpl.
  destruct (decide (iid = iid')) as [<-|Hne].
  - rewrite lookup_total_insert_eq, !dd_get_update_eq. split.
    + rewrite fmap_app, Hids. simpl. by rewrite <- app_assoc.
    + intros cat'. rewrite count_category_app. simpl.
      destruct (decide (cat = cat')) as [<-|Hcat].
      * rewrite dd_get_update_eq. specialize (Hcounts cat). lia.
      * rewrite dd_get_update_ne by exact Hcat. specialize (Hcounts cat'). lia.
  - rewrite lookup_total_insert_ne by exact Hne.
    rewrite !dd_get_update_ne by exact Hne. by split.
Qed.

Lemma fill_loop_tracks fuel score_lookup iid info cat s0 s :
  round_tracks s0 s ->
  round_tracks s0 (fill_loop fuel score_lookup iid info cat s).
Proof.
  revert s. induction fuel as [|fuel IH]; intros s Hs; simpl; [exact Hs|].
  case_bool_decide; [|exact Hs].
  destruct (pool info cat !! get_ptr cat (pointers s !!! iid)) as [rec|];
    [|exact Hs].
  destruct (allocated_student s !! entry_student_id rec).
  - apply IH. exact Hs.
  - apply IH. apply confirm_tracks. exact Hs.
Qed.

Lemma round_pass_tracks score_lookup ranklists s0 :
  round_tracks s0 (round_pass score_lookup ranklists s0).
Proof.
  unfold round_pass. pose proof (new_round_tracks s0) as Hs.
  revert Hs. generalize (new_round s0).
  induction ranklists as [|[iid info] l IH]; intros s Hs; simpl; [exact Hs|].
  apply IH. unfold fill_category. by do 5 apply fill_loop_tracks.
Qed.

(** [d.get(k)] on an insertion-ordered dictionary. *)
Fixpoint dd_lookup {K V} `{EqDecision K} (k : K) (d : list (K * V)) : option V :=
  match d with
  | [] => None
  | (k', v) :: d' => if decide (k' = k) then Some v else dd_lookup k d'
  end.

(** What a log entry reports for the internship [iid]: the students
    confirmed there in that round, and how many under [cat]. *)
Definition logged_students (log : RoundLog) (iid : string) : list string :=
  match dd_lookup iid (internships log) with
  | Some snapshot => allocated_students snapshot
  | None => []
  end.

Definition logged_count (log : RoundLog) (iid : string) (cat : Category) : Z :=
  match dd_lookup iid (internships log) with
  | Some snapshot => dd_get 0 cat (category_counts snapshot)
  | None => 0
  end.

(** A key of [round_allocated] exists only once a student has been appended
    under it, and [round_cat_counts] has no count for an internship without
    such a key. *)
Definition round_keys_ok (s : State) : Prop :=
  forall iid,
    dd_lookup iid (round_allocated s) = None ->
    dd_get [] iid (round_allocated s) = []
    /\ dd_get [] iid (round_cat_counts s) = [].

Lemma dd_lookup_update_ne {K V} `{EqDecision K} (dflt : V) (f : V -> V)
    (k k' : K) (d : list (K * V)) :
  k <> k' -> dd_lookup k' (dd_update dflt f k d) = dd_lookup k' d.
Proof.
  intros Hkk. induction d as [|[k0 v0] d IH]; simpl.
  - by rewrite decide_False.
  - destruct (decide (k0 = k)) as [->|Hne]; simpl.
    + by rewrite !decide_False.
    + destruct (decide (k0 = k')); [reflexivity|exact IH].
Qed.

Lemma dd_lookup_update_eq {K V} `{EqDecision K} (dflt : V) (f : V -> V) (k : K)
    (d : list (K * V)) :
  dd_lookup k (dd_update dflt f k d) = Some (f (dd_get dflt k d)).
Proof.
  induction d as [|[k0 v0] d IH]; simpl.
  - by rewrite decide_True.
  - destruct (decide (k0 = k)) as [->|Hne]; simpl.
    + by rewrite decide_True.
    + by rewrite decide_False.
Qed.

Lemma fill_loop_keys_ok fuel score_lookup iid info cat s :
  round_keys_ok s -> round_keys_ok (fill_loop fuel score_lookup iid info cat s).
Proof.
  revert s. induction fuel as [|fuel IH]; intros s Hs; simpl; [exact Hs|].
  case_bool_decide; [|exact Hs].
  destruct (pool info cat !! get_ptr cat (pointers s !!! iid)) as [rec|];
    [|exact Hs].
  destruct (allocated_student s !! entry_student_id rec).
  - apply IH. exact Hs.
  - apply IH. intros iid'. simpl.
    destruct (decide (iid = iid')) as [<-|Hne].
    + rewrite dd_lookup_update_eq. discriminate.
    + rewrite dd_lookup_update_ne, !dd_get_update_ne by exact Hne. apply Hs.
Qed.

Lemma round_pass_keys_ok score_lookup ranklists s0 :
  round_keys_ok (round_pass score_lookup ranklists s0).
Proof.
  unfold round_pass.
  assert (round_keys_ok (new_round s0)) as Hs by (intros iid _; by split).
  revert Hs. generalize (new_round s0).
  induction ranklists as [|[iid info] l IH]; intros s Hs; simpl; [exact Hs|].
  apply IH. unfold fill_category. by do 5 apply fill_loop_keys_ok.
Qed.

Lemma dd_lookup_fmap {K V W} `{EqDecision K} (g : K * V -> W) (k : K)
    (d : list (K * V)) :
  dd_lookup k ((fun kv => (kv.1, g kv)) <$> d)
  = match dd_lookup k d with
    | Some v => Some (g (k, v))
    | None => None
    end.
Proof.
  induction d as [|[k0 v0] d IH]; simpl; [reflexivity|].
  destruct (decide (k0 = k)) as [->|Hne]; [reflexivity|exact IH].
Qed.

Lemma dd_lookup_get {K V} `{EqDecision K} (dflt : V) (k : K)
    (d : list (K * V)) v :
  dd_lookup k d = Some v -> dd_get dflt k d = v.
Proof.
  induction d as [|[k0 v0] d IH]; simpl; [discriminate|].
  destruct (decide (k0 = k)); [congruence|exact IH].
Qed.

Lemma round_summary_logged rounds s0 s iid :
  round_tracks s0 s -> round_keys_ok s ->
  alloc_student_id <$> (allocations s !!! iid)
  = (alloc_student_id <$> (allocations s0 !!! iid))
    ++ logged_students (round_summary rounds s) iid
  /\ forall cat,
       Z.of_nat (count_category cat (allocations s !!! iid))
       = Z.of_nat (count_category cat (allocations s0 !!! iid))
         + logged_count (round_summary rounds s) iid cat.
Proof.
  intros Htracks Hkeys. destruct (Htracks iid) as [Hids Hcounts].
  unfold logged_students, logged_count, round_summary. simpl.
  rewrite dd_lookup_fmap.
  destruct (dd_lookup iid (round_allocated s)) as [students|] eqn:Hlook; simpl.
  - rewrite (dd_lookup_get [] _ _ _ Hlook) in Hids. by split.
  - destruct (Hkeys iid Hlook) as [Hnone Hnocount].
    rewrite Hnone in Hids. split; [exact Hids|].
    intros cat. specialize (Hcounts cat). rewrite Hnocount in Hcounts.
    exact Hcounts.
Qed.

Lemma rounds_loop_first_round fuel score_lookup ranklists rounds s round_logs :
  let run := rounds_loop (S fuel) score_lookup ranklists rounds s round_logs in
  allocations run.1 = allocations (round_pass score_lookup ranklists s)
  /\ run.2 !! length round_logs
     = Some (round_summary (rounds + 1) (round_pass score_lookup ranklists s)).
Proof.
  destruct fuel as [|fuel].
  - rewrite rounds_loop_once. simpl. split; [reflexivity|].
    by rewrite lookup_app_r, Nat.sub_diag.
  - rewrite rounds_loop_more. cbv zeta. case_bool_decide; simpl.
    + split; [reflexivity|]. by rewrite lookup_app_r, Nat.sub_diag.
    + split; [reflexivity|].
      rewrite lookup_app_l by (rewrite length_app; simpl; lia).
      by rewrite lookup_app_r, Nat.sub_diag.
Qed.

(** With a round cap of at least 1, the first entry of the round log
    accounts for the whole result: for every internship it lists the
    students of the returned allocation, in the order they were confirmed,
    and its category counts are the numbers of returned records of each
    category. *)
Theorem multi_round_first_log_is_the_allocation
    (list_of_set : gset string -> list string)
    (ranklists : list (string * Info)) (final_scores_df : list ScoreRow)
    (max_rounds : Z) :
  1 <= max_rounds ->
  let run := multi_round_allotment list_of_set ranklists final_scores_df max_rounds in
  exists log,
    result_round_logs run !! 0%nat = Some log
    /\ round log = 1
    /\ forall iid,
         alloc_student_id <$> (result_allocations run !!! iid)
         = logged_students log iid
         /\ forall cat,
              Z.of_nat (count_category cat (result_allocations run !!! iid))
              = logged_count log iid cat.
Proof.
  intros Hmax. unfold multi_round_allotment.
  destruct (Z.to_nat max_rounds) as [|fuel] eqn:Hfuel; [lia|].
  pose proof (rounds_loop_first_round fuel
                (make_score_lookup final_scores_df) ranklists 0
                (state_init ranklists) []) as [Halloc Hlog].
  destruct (rounds_loop _ _ _ _ _ _) as [s round_logs].
  unfold result_allocations, result_round_logs. simpl in *.
  eexists. split; [exact Hlog|]. split; [reflexivity|].
  intros iid. rewrite Halloc.
  destruct (round_summary_logged (0 + 1) (state_init ranklists)
              (round_pass (make_score_lookup final_scores_df) ranklists
                 (state_init ranklists)) iid
              (round_pass_tracks _ _ _) (round_pass_keys_ok _ _ _))
    as [Hids Hcounts].
  rewrite state_init_allocations in Hids, Hcounts. simpl in Hids.
  split; [exact Hids|].
  intros cat. rewrite (Hcounts cat). unfold count_category. simpl. lia.
Qed.

Lemma multi_round_first_log_is_the_allocation_witness :
  let run := multi_round_allotment elements [("I001", info_I001)] scores_I001 10 in
  exists log,
    result_round_logs run !! 0%nat = Some log
    /\ round log = 1
    /\ forall iid,
         alloc_student_id <$> (result_allocations run !!! iid)
         = logged_students log iid
         /\ forall cat,
              Z.of_nat (count_category cat (result_allocations run !!! iid))
              = logged_count log iid cat.
Proof.
  apply (multi_round_first_log_is_the_allocation elements
           [("I001", info_I001)] scores_I001 10).
  lia.
Defined.

(** *** allotment.py: [build_ranklists] *)

(** A row of [students_df], restricted to the columns the merge keeps. *)
Record Student := {
  stu_student_id : string;
  stu_reservation : string;
  stu_rural : Z;
  stu_gender : string;
  stu_gpa : Q
}.

(** A row of [merged]: a score row and the columns of the student it was
    joined with; [None] stands for the NaN columns of a score row whose
    student is not in [students_df]. *)
Definition MergedRow : Type := ScoreRow * option Student.

(** [final_scores_df.merge(students_df[...], on='student_id', how='left')]:
    the score rows in their order, each once per student row with its
    identity, or once with empty student columns when there is none. *)
Definition joined_rows (r : ScoreRow) (matches : list Student) : list MergedRow :=
  match matches with
  | [] => [(r, None)]
  | _ :: _ => (fun st => (r, Some st)) <$> matches
  end.

Definition merge_left (final_scores_df : list ScoreRow)
    (students_df : list Student) : list MergedRow :=
  final_scores_df ≫= fun r =>
    joined_rows r
      (filter (fun st => stu_student_id st = score_student_id r) students_df).

(** [df[['student_id', 'final_score']].to_dict('records')] *)
Definition to_records (df : list MergedRow) : list Entry :=
  (fun m => {| entry_student_id := score_student_id m.1;
               entry_final_score := score_final_score m.1 |}) <$> df.

Definition merged_reservation (m : MergedRow) : option string :=
  stu_reservation <$> m.2.

Definition merged_rural (m : MergedRow) : option Z := stu_rural <$> m.2.

Section BuildRanklists.

(** [subset.sort_values('final_score', ascending=False)], a pandas
    function. *)
Variable sort_values : list MergedRow -> list MergedRow.

(** The dictionary stored under [iid] by the loop body. *)
Definition info_of (merged : list MergedRow) (intern : Internship) : Info :=
  let iid := internship_id intern in
  let subset := filter (fun m => score_internship_id m.1 = iid) merged in
  let subset := sort_values subset in
  {| list_SC := to_records (filter (fun m => merged_reservation m = Some "SC") subset);
     list_ST := to_records (filter (fun m => merged_reservation m = Some "ST") subset);
     list_OBC := to_records (filter (fun m => merged_reservation m = Some "OBC") subset);
     list_UR := to_records subset;
     list_RURAL := to_records (filter (fun m => merged_rural m = Some 1) subset);
     info_capacity := capacity intern;
     info_cap_sc := cap_sc intern;
     info_cap_st := cap_st intern;
     info_cap_obc := cap_obc intern;
     info_cap_ur := cap_ur intern;
     info_cap_rural := cap_rural intern |}.

(** [build_ranklists]; the result lists [ranklists.items()] in order. *)
Definition build_ranklists (students_df : list Student)
    (internships_df : list Internship) (final_scores_df : list ScoreRow) :
    list (string * Info) :=
  let merged := merge_left final_scores_df students_df in
  foldl (fun ranklists intern =>
           OptionC.dict_set (internship_id intern) (info_of merged intern)
                            ranklists)
        [] internships_df.

End BuildRanklists.

Lemma build_ranklists_spec sort_values students_df internships_df final_scores_df :
  let ranklists :=
    build_ranklists sort_values students_df internships_df final_scores_df in
  NoDup ranklists.*1
  /\ forall iid info,
       (iid, info) ∈ ranklists ->
       exists intern,
         intern ∈ internships_df /\ internship_id intern = iid
         /\ info = info_of sort_values
                     (merge_left final_scores_df students_df) intern.
Proof.
  unfold build_ranklists.
  induction internships_df as [|intern rows IH] using rev_ind; simpl.
  - split; [constructor|]. intros iid info H. by apply not_elem_of_nil in H.
  - rewrite foldl_snoc. destruct IH as [Hnd Hfrom]. split.
    + by apply OptionC.dict_set_NoDup.
    + intros iid info Hin.
      apply OptionC.dict_set_elem in Hin as [Heq|Hin].
      * injection Heq as -> ->. exists intern.
        split; [|by split]. apply elem_of_app. right. apply list_elem_of_here.
      * destruct (Hfrom iid info Hin) as (i0 & Hi0 & Hid & Hinfo).
        exists i0. split; [|by split]. apply elem_of_app. by left.
Qed.

(** On the ranklists that [build_ranklists] makes, [multi_round_allotment]
    keeps every sub-quota: each ranklist carries the six capacities of a row
    of the capacity table with its identity, no internship is listed twice,
    and the records confirmed under a category never outnumber the
    sub-quota of that category. *)
Theorem multi_round_after_build_ranklists
    (sort_values : list MergedRow -> list MergedRow)
    (list_of_set : gset string -> list string)
    (students_df : list Student) (internships_df : list Internship)
    (final_scores_df : list ScoreRow) (max_rounds : Z)
    (iid : string) (info : Info) :
  let ranklists :=
    build_ranklists sort_values students_df internships_df final_scores_df in
  (iid, info) ∈ ranklists ->
  (exists intern,
     intern ∈ internships_df /\ internship_id intern = iid
     /\ forall cat,
          cap info cat
          = match cat with
            | SC => cap_sc intern | ST => cap_st intern | OBC => cap_obc intern
            | UR => cap_ur intern | RURAL => cap_rural intern
            end)
  /\ forall cat,
       Z.of_nat
         (count_category cat
            (result_allocations
               (multi_round_allotment list_of_set ranklists final_scores_df
                  max_rounds) !!! iid))
       <= Z.max 0 (cap info cat).
Proof.
  intros ranklists Hin.
  destruct (build_ranklists_spec sort_values students_df internships_df
              final_scores_df) as [Hnd Hfrom].
  fold ranklists in Hnd, Hfrom. split.
  - destruct (Hfrom iid info Hin) as (intern & Hi & Hid & ->).
    exists intern. split; [exact Hi|]. split; [exact Hid|].
    intros cat. by destruct cat.
  - unfold multi_round_allotment.
    pose proof (rounds_loop_quotas_kept (Z.to_nat max_rounds)
                  (make_score_lookup final_scores_df) ranklists 0
                  (state_init ranklists) [] Hnd) as Hkept.
    destruct (rounds_loop _ _ _ _ _ _) as [s round_logs].
    unfold result_allocations. simpl in *.
    intros cat. apply Hkept; [|exact Hin].
    intros iid' info' cat' _. unfold quota_kept.
    rewrite state_init_allocations. unfold count_category. simpl. lia.
Qed.

Lemma joined_rows_elem (r : ScoreRow) (matches : list Student) (m : MergedRow) :
  m ∈ joined_rows r matches
  <-> m.1 = r
      /\ match m.2 with
         | Some st => st ∈ matches
         | None => matches = []
         end.
Proof.
  destruct m as [r' ost]. unfold joined_rows. destruct matches as [|st0 l].
  - rewrite list_elem_of_singleton. simpl. split.
    + intros [= -> ->]. by split.
    + intros [-> Host]. destruct ost as [st|]; [|reflexivity].
      by apply not_elem_of_nil in Host.
  - rewrite list_elem_of_fmap. simpl. split.
    + intros (st & [= -> ->] & Hst). by split.
    + intros [-> Host]. destruct ost as [st|]; [|discriminate].
      by exists st.
Qed.

Lemma merge_left_elem final_scores_df students_df (m : MergedRow) :
  m ∈ merge_left final_scores_df students_df
  <-> m.1 ∈ final_scores_df
      /\ match m.2 with
         | Some st => st ∈ students_df /\ stu_student_id st = score_student_id m.1
         | None => forall st, st ∈ students_df ->
                              stu_student_id st <> score_student_id m.1
         end.
Proof.
  unfold merge_left. rewrite list_elem_of_bind. split.
  - intros (r & Hm & Hr). apply joined_rows_elem in Hm as [<- Hjoin].
    split; [exact Hr|]. destruct m.2 as [st|].
    + apply list_elem_of_filter in Hjoin as [Hid Hst]. by split.
    + intros st Hst Hid.
      assert (st ∈ filter (fun st => stu_student_id st = score_student_id m.1)
                          students_df) as Hin by (by apply list_elem_of_filter).
      rewrite Hjoin in Hin. by apply not_elem_of_nil in Hin.
  - intros [Hr Host]. exists m.1. split; [|exact Hr].
    apply joined_rows_elem. split; [reflexivity|].
    destruct m.2 as [st|].
    + destruct Host as [Hst Hid]. by apply list_elem_of_filter.
    + destruct (filter (fun st => stu_student_id st = score_student_id m.1)
                       students_df) as [|st0 l] eqn:Hf; [reflexivity|].
      exfalso.
      assert (st0 ∈ st0 :: l) as Hin by apply list_elem_of_here.
      rewrite <- Hf in Hin. apply list_elem_of_filter in Hin as [Hid Hst].
      by apply (Host st0).
Qed.

(** The pool entry of a score row. *)
Definition entry_of (r : ScoreRow) : Entry :=
  {| entry_student_id := score_student_id r;
     entry_final_score := score_final_score r |}.

Lemma to_records_filter_elem (P : MergedRow -> Prop)
    `{!forall m, Decision (P m)} (subset : list MergedRow) (e : Entry) :
  e ∈ to_records (filter P subset)
  <-> exists m, m ∈ subset /\ P m /\ e = entry_of m.1.
Proof.
  unfold to_records. rewrite list_elem_of_fmap. split.
  - intros (m & -> & Hm). apply list_elem_of_filter in Hm as [HP Hm].
    by exists m.
  - intros (m & Hm & HP & ->). exists m. split; [reflexivity|].
    by apply list_elem_of_filter.
Qed.

(** The general pool UR of an internship lists the students scored for it,
    whether or not [students_df] knows them; SC, ST, OBC and RURAL list,
    in the order of UR, those whose student row has that reservation, or
    the rural flag, and so never a student missing from [students_df]. *)
Theorem allotment_build_ranklists_pools
    (sort_values : list MergedRow -> list MergedRow)
    (students_df : list Student) (internships_df : list Internship)
    (final_scores_df : list ScoreRow) (iid : string) (info : Info) :
  (forall l, sort_values l ≡ₚ l) ->
  (iid, info) ∈ build_ranklists sort_values students_df internships_df
                  final_scores_df ->
  (forall e, e ∈ list_UR info
             <-> exists r, r ∈ final_scores_df /\ score_internship_id r = iid
                           /\ e = entry_of r)
  /\ (forall cat e,
        cat <> UR ->
        e ∈ pool info cat
        <-> exists r st,
              r ∈ final_scores_df /\ score_internship_id r = iid
              /\ st ∈ students_df /\ stu_student_id st = score_student_id r
              /\ match cat with
                 | SC => stu_reservation st = "SC"
                 | ST => stu_reservation st = "ST"
                 | OBC => stu_reservation st = "OBC"
                 | UR => True
                 | RURAL => stu_rural st = 1
                 end
              /\ e = entry_of r)
  /\ forall cat, pool info cat `sublist_of` list_UR info.
Proof.
  intros Hperm Hin.
  destruct (build_ranklists_spec sort_values students_df internships_df
              final_scores_df) as [_ Hfrom].
  destruct (Hfrom iid info Hin) as (intern & _ & <- & ->). clear Hfrom Hin.
  unfold info_of.
  set (merged := merge_left final_scores_df students_df).
  set (subset := sort_values
                   (filter (fun m => score_internship_id m.1 = internship_id intern)
                           merged)).
  assert (forall m, m ∈ subset
                    <-> m ∈ merged
                        /\ score_internship_id m.1 = internship_id intern)
    as Hsub.
  { intros m. unfold subset. rewrite Hperm, list_elem_of_filter. tauto. }
  assert (forall (P : MergedRow -> Prop) `{!forall m, Decision (P m)}
                 (Q : Student -> Prop) e,
            (forall m, P m <-> exists st, m.2 = Some st /\ Q st) ->
            e ∈ to_records (filter P subset)
            <-> exists r st,
                  r ∈ final_scores_df
                  /\ score_internship_id r = internship_id intern
                  /\ st ∈ students_df /\ stu_student_id st = score_student_id r
                  /\ Q st /\ e = entry_of r) as Hpool.
  { intros P HPdec Q e HPQ. rewrite to_records_filter_elem. split.
    - intros (m & Hm & HP & ->). apply Hsub in Hm as [Hm Hiid].
      apply HPQ in HP as (st & Hst & HQ).
      apply merge_left_elem in Hm as [Hr Hjoin]. rewrite Hst in Hjoin.
      destruct Hjoin as [Hstin Hid]. by exists m.1, st.
    - intros (r & st & Hr & Hiid & Hst & Hid & HQ & ->).
      exists (r, Some st). split; [|split; [|reflexivity]].
      + apply Hsub. split; [|exact Hiid]. apply merge_left_elem. by split.
      + apply HPQ. by exists st. }
  split; [|split].
  - intros e. simpl. unfold to_records. rewrite list_elem_of_fmap. split.
    + intros (m & -> & Hm). apply Hsub in Hm as [Hm Hiid].
      apply merge_left_elem in Hm as [Hr _]. by exists m.1.
    + intros (r & Hr & Hiid & ->).
      destruct (filter (fun st => stu_student_id st = score_student_id r)
                       students_df) as [|st l] eqn:Hf.
      * exists (r, None). split; [reflexivity|]. apply Hsub.
        split; [|exact Hiid]. apply merge_left_elem. split; [exact Hr|].
        simpl. intros st Hst Hid.
        assert (st ∈ filter (fun st => stu_student_id st = score_student_id r)
                            students_df) as Hst' by (by apply list_elem_of_filter).
        rewrite Hf in Hst'. by apply not_elem_of_nil in Hst'.
      * exists (r, Some st). split; [reflexivity|]. apply Hsub.
        split; [|exact Hiid]. apply merge_left_elem. split; [exact Hr|].
        assert (st ∈ st :: l) as Hst by apply list_elem_of_here.
        rewrite <- Hf in Hst. by apply list_elem_of_filter in Hst as [? ?].
  - intros cat e Hcat. destruct cat; simpl; try done.
    + apply (Hpool _ _ (fun st => stu_reservation st = "SC")).
      intros [r [st|]]; unfold merged_reservation; simpl; split;
        try (intros [= ?]; by eexists); try (intros (? & [= <-] & ->); done);
        try discriminate; by intros (? & ? & _).
    + apply (Hpool _ _ (fun st => stu_reservation st = "ST")).
      intros [r [st|]]; unfold merged_reservation; simpl; split;
        try (intros [= ?]; by eexists); try (intros (? & [= <-] & ->); done);
        try discriminate; by intros (? & ? & _).
    + apply (Hpool _ _ (fun st => stu_reservation st = "OBC")).
      intros [r [st|]]; unfold merged_reservation; simpl; split;
        try (intros [= ?]; by eexists); try (intros (? & [= <-] & ->); done);
        try discriminate; by intros (? & ? & _).
    + apply (Hpool _ _ (fun st => stu_rural st = 1)).
      intros [r [st|]]; unfold merged_rural; simpl; split;
        try (intros [= ?]; by eexists); try (intros (? & [= <-] & ->); done);
        try discriminate; by intros (? & ? & _).
  - intros cat. destruct cat; simpl; try reflexivity;
      apply fmap_sublist, sublist_filter.
Qed.

(** A stable descending sort of merged rows on the score column. *)
Fixpoint insert_merged_desc (x : MergedRow) (l : list MergedRow) : list MergedRow :=
  match l with
  | [] => [x]
  | y :: l' =>
      if Qle_bool (score_final_score y.1) (score_final_score x.1) then x :: l
      else y :: insert_merged_desc x l'
  end.

Definition sort_merged_stable (l : list MergedRow) : list MergedRow :=
  foldr insert_merged_desc [] l.

Lemma insert_merged_desc_perm x l : insert_merged_desc x l ≡ₚ x :: l.
Proof.
  induction l as [|y l IH]; simpl; [reflexivity|].
  destruct (Qle_bool (score_final_score y.1) (score_final_score x.1));
    [reflexivity|].
  rewrite IH. apply Permutation_swap.
Qed.

Lemma sort_merged_stable_perm l : sort_merged_stable l ≡ₚ l.
Proof.
  induction l as [|x l IH]; simpl; [reflexivity|].
  rewrite insert_merged_desc_perm. by rewrite IH.
Qed.

Definition student (sid res : string) (r : Z) : Student :=
  {| stu_student_id := sid; stu_reservation := res; stu_rural := r;
     stu_gender := "F"; stu_gpa := 8 |}.

(** Six of the eight scored students are in [students_df]. *)
Definition students_known : list Student :=
  [ student "s1" "SC" 0; student "s2" "ST" 0; student "s3" "OBC" 0;
    student "s4" "GEN" 0; student "s5" "GEN" 0; student "s6" "GEN" 1 ].

Definition internships_I001 : list Internship :=
  [ {| internship_id := "I001"; capacity := 5; cap_sc := 1; cap_st := 1;
       cap_obc := 1; cap_ur := 2; cap_rural := 1 |} ].

Example build_ranklists_I001 :
  build_ranklists sort_merged_stable students_known internships_I001 scores_I001
  = [("I001", info_I001)].
Proof. vm_compute. reflexivity. Qed.

Lemma multi_round_after_build_ranklists_witness :
  let ranklists :=
    build_ranklists sort_merged_stable students_known internships_I001
                    scores_I001 in
  (exists intern,
     intern ∈ internships_I001 /\ internship_id intern = "I001"
     /\ forall cat,
          cap info_I001 cat
          = match cat with
            | SC => cap_sc intern | ST => cap_st intern | OBC => cap_obc intern
            | UR => cap_ur intern | RURAL => cap_rural intern
            end)
  /\ forall cat,
       Z.of_nat
         (count_category cat
            (result_allocations
               (multi_round_allotment elements ranklists scores_I001 10)
               !!! "I001"))
       <= Z.max 0 (cap info_I001 cat).
Proof.
  apply (multi_round_after_build_ranklists sort_merged_stable elements
           students_known internships_I001 scores_I001 10 "I001" info_I001).
  vm_compute. apply list_elem_of_here.
Defined.

Lemma allotment_build_ranklists_pools_witness :
  (forall e, e ∈ list_UR info_I001
             <-> exists r, r ∈ scores_I001 /\ score_internship_id r = "I001"
                           /\ e = entry_of r)
  /\ (forall cat e,
        cat <> UR ->
        e ∈ pool info_I001 cat
        <-> exists r st,
              r ∈ scores_I001 /\ score_internship_id r = "I001"
              /\ st ∈ students_known /\ stu_student_id st = score_student_id r
              /\ match cat with
                 | SC => stu_reservation st = "SC"
                 | ST => stu_reservation st = "ST"
                 | OBC => stu_reservation st = "OBC"
                 | UR => True
                 | RURAL => stu_rural st = 1
                 end
              /\ e = entry_of r)
  /\ forall cat, pool info_I001 cat `sublist_of` list_UR info_I001.
Proof.
  apply (allotment_build_ranklists_pools sort_merged_stable students_known
           internships_I001 scores_I001 "I001" info_I001).
  - exact sort_merged_stable_perm.
  - vm_compute. apply list_elem_of_here.
Defined.

End Allotment.

(** ** The order of the pools of both ranklist builders *)

Module RanklistOrder.

(** *** [sort_values] on one key

    Both builders call [sort_values] with one key, the score column, and
    [ascending=False].  pandas computes an indexer from the values of that
    column ([nargsort]) and then takes the rows at these positions
    ([take]): the other columns, the identity among them, never reach the
    sort. *)
Definition take_at {A} (rows : list A) (indexer : list nat) : list A :=
  omap (fun i => rows !! i) indexer.

Definition sort_by_score {A} (key : A -> Q) (argsort : list Q -> list nat)
    (rows : list A) : list A :=
  take_at rows (argsort (key <$> rows)).

(** The score of a merged row, and [sort_values] on the merged frame of
    [allotment.build_ranklists]; on the pairs frame of
    [ranklist_builder.build_ranklists] it is
    [RanklistBuilder.sort_values_by]. *)
Definition merged_score (m : Allotment.MergedRow) : Q :=
  Allotment.score_final_score m.1.

Definition sort_merged_by (argsort : list Q -> list nat)
    (rows : list Allotment.MergedRow) : list Allotment.MergedRow :=
  sort_by_score merged_score argsort rows.

(** What [ascending=False] asks of the indexer: a permutation of the
    positions of the column, in which the scores come in descending order. *)
Definition descending (qs : list Q) : Prop :=
  StronglySorted (fun a b => (b <= a)%Q) qs.

Definition argsort_descending (argsort : list Q -> list nat) : Prop :=
  forall qs : list Q,
    argsort qs ≡ₚ seq 0 (length qs) /\ descending (take_at qs (argsort qs)).

(** A stable indexer: insertion of the positions from the last to the
    first, each before the first position of a score not above its own. *)
Fixpoint insert_by {A} (key : A -> Q) (x : A) (l : list A) : list A :=
  match l with
  | [] => [x]
  | y :: l' =>
      if Qle_bool (key y) (key x) then x :: l else y :: insert_by key x l'
  end.

Definition score_at (qs : list Q) (i : nat) : Q := default 0%Q (qs !! i).

Definition argsort_stable (qs : list Q) : list nat :=
  foldr (insert_by (score_at qs)) [] (seq 0 (length qs)).

(** Descending order of the entries of a pool of [allotment.py]. *)
Definition entry_desc (a b : Allotment.Entry) : Prop :=
  (Allotment.entry_final_score b <= Allotment.entry_final_score a)%Q.

(** *** Relabelling the candidates

    [rename] gives every candidate another identity; all other columns,
    the score among them, stay. *)
Definition rename_cand (rename : string -> string) (c : Cand) : Cand :=
  {| student_id := rename (student_id c);
     final_score := final_score c;
     reservation := reservation c;
     rural := rural c;
     gender := gender c |}.

Definition rename_pair (rename : string -> string)
    (r : RanklistBuilder.PairRow) : RanklistBuilder.PairRow :=
  {| RanklistBuilder.pair_internship_id := RanklistBuilder.pair_internship_id r;
     RanklistBuilder.pair_cand := rename_cand rename (RanklistBuilder.pair_cand r) |}.

Definition rename_ranklist (rename : string -> string)
    (rl : RanklistBuilder.Ranklist) : RanklistBuilder.Ranklist :=
  {| RanklistBuilder.SC := rename_cand rename <$> RanklistBuilder.SC rl;
     RanklistBuilder.ST := rename_cand rename <$> RanklistBuilder.ST rl;
     RanklistBuilder.OBC := rename_cand rename <$> RanklistBuilder.OBC rl;
     RanklistBuilder.UR := rename_cand rename <$> RanklistBuilder.UR rl;
     RanklistBuilder.RURAL := rename_cand rename <$> RanklistBuilder.RURAL rl |}.

Definition rename_score (rename : string -> string)
    (r : Allotment.ScoreRow) : Allotment.ScoreRow :=
  {| Allotment.score_student_id := rename (Allotment.score_student_id r);
     Allotment.score_internship_id := Allotment.score_internship_id r;
     Allotment.score_final_score := Allotment.score_final_score r |}.

Definition rename_student (rename : string -> string)
    (st : Allotment.Student) : Allotment.Student :=
  {| Allotment.stu_student_id := rename (Allotment.stu_student_id st);
     Allotment.stu_reservation := Allotment.stu_reservation st;
     Allotment.stu_rural := Allotment.stu_rural st;
     Allotment.stu_gender := Allotment.stu_gender st;
     Allotment.stu_gpa := Allotment.stu_gpa st |}.

Definition rename_entry (rename : string -> string)
    (e : Allotment.Entry) : Allotment.Entry :=
  {| Allotment.entry_student_id := rename (Allotment.entry_student_id e);
     Allotment.entry_final_score := Allotment.entry_final_score e |}.

Definition rename_info (rename : string -> string)
    (info : Allotment.Info) : Allotment.Info :=
  {| Allotment.list_SC := rename_entry rename <$> Allotment.list_SC info;
     Allotment.list_ST := rename_entry rename <$> Allotment.list_ST info;
     Allotment.list_OBC := rename_entry rename <$> Allotment.list_OBC info;
     Allotment.list_UR := rename_entry rename <$> Allotment.list_UR info;
     Allotment.list_RURAL := rename_entry rename <$> Allotment.list_RURAL info;
     Allotment.info_capacity := Allotment.info_capacity info;
     Allotment.info_cap_sc := Allotment.info_cap_sc info;
     Allotment.info_cap_st := Allotment.info_cap_st info;
     Allotment.info_cap_obc := Allotment.info_cap_obc info;
     Allotment.info_cap_ur := Allotment.info_cap_ur info;
     Allotment.info_cap_rural := Allotment.info_cap_rural info |}.

Definition rename_merged (rename : string -> string)
    (m : Allotment.MergedRow) : Allotment.MergedRow :=
  (rename_score rename m.1, rename_student rename <$> m.2).

(** The relabelling used in the examples: every identity gets the prefix R. *)
Definition relabel (sid : string) : string := String.append "R" sid.

(** *** Taking rows at an indexer *)

Lemma take_at_cons {A} (rows : list A) (i : nat) (indexer : list nat) :
  take_at rows (i :: indexer)
  = match rows !! i with
    | Some r => r :: take_at rows indexer
    | None => take_at rows indexer
    end.
Proof. reflexivity. Qed.

Lemma take_at_fmap {A B} (f : A -> B) (rows : list A) (indexer : list nat) :
  take_at (f <$> rows) indexer = f <$> take_at rows indexer.
Proof.
  induction indexer as [|i l IH]; [reflexivity|].
  rewrite !take_at_cons, list_lookup_fmap, IH.
  by destruct (rows !! i).
Qed.

Lemma take_at_in_range (qs : list Q) (indexer : list nat) :
  Forall (fun i => (i < length qs)%nat) indexer ->
  take_at qs indexer = score_at qs <$> indexer.
Proof.
  induction 1 as [|i l Hi Hl IH]; [reflexivity|].
  rewrite take_at_cons, fmap_cons, IH. unfold score_at.
  destruct (lookup_lt_is_Some_2 qs i Hi) as [q ->]. reflexivity.
Qed.

Lemma take_at_all {A} (pre rows : list A) :
  take_at (pre ++ rows) (seq (length pre) (length rows)) = rows.
Proof.
  revert pre. induction rows as [|x rows IH]; intros pre; [reflexivity|].
  change (seq (length pre) (length (x :: rows)))
    with (length pre :: seq (S (length pre)) (length rows)).
  rewrite take_at_cons, list_lookup_middle by reflexivity.
  f_equal. specialize (IH (pre ++ [x])).
  rewrite <- app_assoc, length_app in IH. simpl in IH.
  by rewrite Nat.add_1_r in IH.
Qed.

(** [sort_values] commutes with every change of the rows that keeps the
    score column. *)
Lemma sort_by_score_fmap {A B} (keyA : A -> Q) (keyB : B -> Q) (f : A -> B)
    (argsort : list Q -> list nat) (rows : list A) :
  (forall a, keyB (f a) = keyA a) ->
  sort_by_score keyB argsort (f <$> rows)
  = f <$> sort_by_score keyA argsort rows.
Proof.
  intros Hkey. unfold sort_by_score.
  rewrite <- list_fmap_compose, take_at_fmap.
  do 2 f_equal. f_equal. apply list_fmap_ext. intros i a _. apply Hkey.
Qed.

Lemma sorted_of_fmap {A} (key : A -> Q) (l : list A) :
  descending (key <$> l) ->
  StronglySorted (fun a b => (key b <= key a)%Q) l.
Proof.
  induction l as [|x l IH]; [constructor|].
  rewrite fmap_cons. intros H. apply StronglySorted_inv in H as [Hl Hx].
  constructor; [by apply IH|].
  apply list.Forall_forall. intros y Hy.
  apply (proj1 (list.Forall_forall _ _) Hx (key y)).
  apply list_elem_of_fmap. by exists y.
Qed.

Lemma sort_by_score_sorted {A} (key : A -> Q) (argsort : list Q -> list nat)
    (rows : list A) :
  argsort_descending argsort ->
  StronglySorted (fun a b => (key b <= key a)%Q) (sort_by_score key argsort rows).
Proof.
  intros Hargsort. apply sorted_of_fmap. unfold sort_by_score.
  rewrite <- take_at_fmap. apply Hargsort.
Qed.

Lemma sort_by_score_perm {A} (key : A -> Q) (argsort : list Q -> list nat)
    (rows : list A) :
  argsort_descending argsort ->
  sort_by_score key argsort rows ≡ₚ rows.
Proof.
  intros Hargsort. unfold sort_by_score, take_at.
  destruct (Hargsort (key <$> rows)) as [Hperm _].
  rewrite Hperm, length_fmap.
  change (take_at ([] ++ rows) (seq (length (@nil A)) (length rows)) ≡ₚ rows).
  by rewrite take_at_all.
Qed.

(** *** The stable indexer *)

Lemma insert_by_perm {A} (key : A -> Q) (x : A) (l : list A) :
  insert_by key x l ≡ₚ x :: l.
Proof.
  induction l as [|y l IH]; simpl; [reflexivity|].
  destruct (Qle_bool (key y) (key x)); [reflexivity|].
  rewrite IH. apply Permutation_swap.
Qed.

Lemma insert_by_sorted {A} (key : A -> Q) (x : A) (l : list A) :
  StronglySorted (fun a b => (key b <= key a)%Q) l ->
  StronglySorted (fun a b => (key b <= key a)%Q) (insert_by key x l).
Proof.
  induction 1 as [|y l Hl IH Hy]; simpl; [repeat constructor|].
  destruct (Qle_bool (key y) (key x)) eqn:Hle.
  - apply Qle_bool_iff in Hle.
    constructor; [by constructor|].
    constructor; [exact Hle|].
    eapply Forall_impl; [exact Hy|].
    intros z Hz. simpl in Hz. eapply Qle_trans; [exact Hz|exact Hle].
  - constructor; [exact IH|].
    assert (key x <= key y)%Q as Hyx.
    { destruct (Qlt_le_dec (key y) (key x)) as [Hlt|Hge]; [|exact Hge].
      apply Qlt_le_weak, Qle_bool_iff in Hlt. congruence. }
    rewrite (insert_by_perm key x l). by constructor.
Qed.

Lemma foldr_insert_by_perm {A} (key : A -> Q) (l : list A) :
  foldr (insert_by key) [] l ≡ₚ l.
Proof.
  induction l as [|x l IH]; simpl; [reflexivity|].
  rewrite insert_by_perm. by rewrite IH.
Qed.

Lemma foldr_insert_by_sorted {A} (key : A -> Q) (l : list A) :
  StronglySorted (fun a b => (key b <= key a)%Q) (foldr (insert_by key) [] l).
Proof.
  induction l as [|x l IH]; simpl; [constructor|].
  by apply insert_by_sorted.
Qed.

Lemma argsort_stable_descending : argsort_descending argsort_stable.
Proof.
  intros qs. unfold argsort_stable. split; [apply foldr_insert_by_perm|].
  rewrite take_at_in_range.
  - apply StronglySorted_fmap with (R1 := fun i j => (score_at qs j <= score_at qs i)%Q);
      [by intros i j H|].
    apply foldr_insert_by_sorted.
  - apply list.Forall_forall. intros i Hi.
    rewrite foldr_insert_by_perm in Hi.
    apply elem_of_seq in Hi. lia.
Qed.

(** With the stable indexer, [sort_values] is the insertion sort of the
    rows themselves. *)
Lemma take_at_insert_by {A} (key : A -> Q) (rows : list A) (i : nat) (x : A)
    (indexer : list nat) :
  rows !! i = Some x ->
  Forall (fun j => (j < length rows)%nat) indexer ->
  take_at rows (insert_by (score_at (key <$> rows)) i indexer)
  = insert_by key x (take_at rows indexer).
Proof.
  intros Hx. induction 1 as [|j l Hj Hl IH].
  - cbn [insert_by]. by rewrite take_at_cons, Hx.
  - destruct (lookup_lt_is_Some_2 rows j Hj) as [y Hy].
    cbn [insert_by]. rewrite (take_at_cons rows j l), Hy. cbn [insert_by].
    unfold score_at at 1 2. rewrite !list_lookup_fmap, Hx, Hy.
    cbn [fmap option_fmap option_map default id].
    destruct (Qle_bool (key y) (key x)).
    + by rewrite !take_at_cons, Hx, Hy.
    + by rewrite take_at_cons, Hy, IH.
Qed.

Lemma sort_by_score_stable {A} (key : A -> Q) (rows : list A) :
  sort_by_score key argsort_stable rows = foldr (insert_by key) [] rows.
Proof.
  unfold sort_by_score, argsort_stable. rewrite length_fmap.
  assert (forall indexer,
            Forall (fun j => (j < length rows)%nat) indexer ->
            take_at rows (foldr (insert_by (score_at (key <$> rows))) [] indexer)
            = foldr (insert_by key) [] (take_at rows indexer)) as Hfold.
  { induction 1 as [|i l Hi Hl IH]; [reflexivity|].
    destruct (lookup_lt_is_Some_2 rows i Hi) as [x Hx].
    cbn [foldr]. rewrite take_at_cons, Hx. cbn [foldr]. rewrite <- IH.
    apply take_at_insert_by; [exact Hx|].
    apply list.Forall_forall. intros j Hj.
    rewrite foldr_insert_by_perm in Hj.
    exact (proj1 (list.Forall_forall _ _) Hl j Hj). }
  rewrite Hfold.
  - pose proof (take_at_all [] rows) as Hall. simpl in Hall. by rewrite Hall.
  - apply list.Forall_forall. intros j Hj. apply elem_of_seq in Hj. lia.
Qed.

Lemma sort_values_stable_by_score (rows : list RanklistBuilder.PairRow) :
  RanklistBuilder.sort_values_stable rows
  = RanklistBuilder.sort_values_by argsort_stable rows.
Proof.
  change (RanklistBuilder.sort_values_by argsort_stable rows)
    with (sort_by_score RanklistBuilder.pair_score argsort_stable rows).
  rewrite sort_by_score_stable. unfold RanklistBuilder.sort_values_stable.
  induction rows as [|x rows IH]; [reflexivity|].
  simpl. rewrite IH. generalize (foldr (insert_by RanklistBuilder.pair_score) [] rows).
  intros l. induction l as [|y l IHl]; [reflexivity|].
  simpl. by rewrite IHl.
Qed.

Lemma sort_merged_stable_by_score (rows : list Allotment.MergedRow) :
  Allotment.sort_merged_stable rows = sort_merged_by argsort_stable rows.
Proof.
  unfold sort_merged_by. rewrite sort_by_score_stable.
  unfold Allotment.sort_merged_stable.
  induction rows as [|x rows IH]; [reflexivity|].
  simpl. rewrite IH. generalize (foldr (insert_by merged_score) [] rows).
  intros l. induction l as [|y l IHl]; [reflexivity|].
  simpl. by rewrite IHl.
Qed.

(** *** Both builders under a relabelling *)

Lemma filter_fmap_iff {A B} (f : A -> B) (P : B -> Prop) (Q : A -> Prop)
    `{!forall b, Decision (P b)} `{!forall a, Decision (Q a)} (l : list A) :
  (forall a, P (f a) <-> Q a) ->
  filter P (f <$> l) = f <$> filter Q l.
Proof.
  intros HPQ. induction l as [|a l IH]; [reflexivity|].
  rewrite fmap_cons, !filter_cons, IH.
  destruct (decide (P (f a))) as [HP|HP], (decide (Q a)) as [HQ|HQ];
    try reflexivity; exfalso; [apply HQ|apply HP]; by apply HPQ.
Qed.

Lemma ranklist_of_rename (argsort : list Q -> list nat)
    (rename : string -> string) (pairs_df : list RanklistBuilder.PairRow)
    (iid : string) :
  RanklistBuilder.ranklist_of (RanklistBuilder.sort_values_by argsort)
    (rename_pair rename <$> pairs_df) iid
  = rename_ranklist rename
      (RanklistBuilder.ranklist_of (RanklistBuilder.sort_values_by argsort)
         pairs_df iid).
Proof.
  unfold RanklistBuilder.ranklist_of.
  rewrite (filter_fmap_iff (rename_pair rename) _
             (fun r => RanklistBuilder.pair_internship_id r = iid))
    by done.
  change (RanklistBuilder.sort_values_by argsort)
    with (sort_by_score RanklistBuilder.pair_score argsort).
  rewrite (sort_by_score_fmap RanklistBuilder.pair_score
             RanklistBuilder.pair_score (rename_pair rename)) by done.
  set (sub := sort_by_score RanklistBuilder.pair_score argsort _).
  assert (forall l, RanklistBuilder.make_struct (rename_pair rename <$> l)
                    = rename_cand rename <$> RanklistBuilder.make_struct l)
    as Hstruct.
  { intros l. unfold RanklistBuilder.make_struct.
    by rewrite <- !list_fmap_compose. }
  rewrite (filter_fmap_iff (rename_pair rename) _
             (fun r => reservation (RanklistBuilder.pair_cand r) = "SC"))
    by done.
  rewrite (filter_fmap_iff (rename_pair rename) _
             (fun r => reservation (RanklistBuilder.pair_cand r) = "ST"))
    by done.
  rewrite (filter_fmap_iff (rename_pair rename) _
             (fun r => reservation (RanklistBuilder.pair_cand r) = "OBC"))
    by done.
  rewrite (filter_fmap_iff (rename_pair rename) _
             (fun r => rural (RanklistBuilder.pair_cand r) = 1))
    by done.
  unfold rename_ranklist. simpl. by rewrite !Hstruct.
Qed.

Lemma ranklist_builder_rename (argsort : list Q -> list nat)
    (rename : string -> string) (pairs_df : list RanklistBuilder.PairRow)
    (internships_df : list Internship) :
  RanklistBuilder.build_ranklists (RanklistBuilder.sort_values_by argsort)
    (rename_pair rename <$> pairs_df) internships_df
  = rename_ranklist rename
      <$> RanklistBuilder.build_ranklists
            (RanklistBuilder.sort_values_by argsort) pairs_df internships_df.
Proof.
  unfold RanklistBuilder.build_ranklists.
  induction internships_df as [|row rows IH] using rev_ind.
  - simpl. by rewrite fmap_empty.
  - rewrite !foldl_snoc. simpl. by rewrite IH, fmap_insert, ranklist_of_rename.
Qed.

Lemma sort_values_by_sorted (argsort : list Q -> list nat)
    (rows : list RanklistBuilder.PairRow) :
  argsort_descending argsort ->
  StronglySorted RanklistBuilder.row_desc
    (RanklistBuilder.sort_values_by argsort rows).
Proof.
  intros Hargsort.
  exact (sort_by_score_sorted RanklistBuilder.pair_score argsort rows Hargsort).
Qed.

Lemma joined_rows_rename (rename : string -> string) (r : Allotment.ScoreRow)
    (matches : list Allotment.Student) :
  Allotment.joined_rows (rename_score rename r)
    (rename_student rename <$> matches)
  = rename_merged rename <$> Allotment.joined_rows r matches.
Proof.
  destruct matches as [|st l]; [reflexivity|].
  unfold Allotment.joined_rows. rewrite <- !list_fmap_compose. reflexivity.
Qed.

Lemma merge_left_rename (rename : string -> string)
    (final_scores_df : list Allotment.ScoreRow)
    (students_df : list Allotment.Student) :
  Inj (=) (=) rename ->
  Allotment.merge_left (rename_score rename <$> final_scores_df)
    (rename_student rename <$> students_df)
  = rename_merged rename <$> Allotment.merge_left final_scores_df students_df.
Proof.
  intros Hinj. unfold Allotment.merge_left.
  induction final_scores_df as [|r l IH]; [reflexivity|].
  rewrite fmap_cons, !bind_cons, fmap_app, IH. f_equal.
  rewrite (filter_fmap_iff (rename_student rename) _
             (fun st => Allotment.stu_student_id st
                        = Allotment.score_student_id r)).
  - apply joined_rows_rename.
  - intros st. simpl. split; [apply Hinj|by intros ->].
Qed.

Lemma to_records_rename (rename : string -> string)
    (df : list Allotment.MergedRow) :
  Allotment.to_records (rename_merged rename <$> df)
  = rename_entry rename <$> Allotment.to_records df.
Proof. unfold Allotment.to_records. by rewrite <- !list_fmap_compose. Qed.

Lemma info_of_rename (argsort : list Q -> list nat) (rename : string -> string)
    (merged : list Allotment.MergedRow) (intern : Internship) :
  Allotment.info_of (sort_merged_by argsort) (rename_merged rename <$> merged)
    intern
  = rename_info rename
      (Allotment.info_of (sort_merged_by argsort) merged intern).
Proof.
  unfold Allotment.info_of.
  rewrite (filter_fmap_iff (rename_merged rename) _
             (fun m => Allotment.score_internship_id m.1
                       = internship_id intern)) by done.
  unfold sort_merged_by.
  rewrite (sort_by_score_fmap merged_score merged_score
             (rename_merged rename)) by done.
  set (subset := sort_by_score merged_score argsort _).
  assert (forall m c,
            Allotment.merged_reservation (rename_merged rename m) = Some c
            <-> Allotment.merged_reservation m = Some c) as Hres.
  { intros [r [st|]] c; done. }
  assert (forall m,
            Allotment.merged_rural (rename_merged rename m) = Some 1
            <-> Allotment.merged_rural m = Some 1) as Hrural.
  { intros [r [st|]]; done. }
  rewrite (filter_fmap_iff (rename_merged rename) _
             (fun m => Allotment.merged_reservation m = Some "SC"))
    by (intros m; apply Hres).
  rewrite (filter_fmap_iff (rename_merged rename) _
             (fun m => Allotment.merged_reservation m = Some "ST"))
    by (intros m; apply Hres).
  rewrite (filter_fmap_iff (rename_merged rename) _
             (fun m => Allotment.merged_reservation m = Some "OBC"))
    by (intros m; apply Hres).
  rewrite (filter_fmap_iff (rename_merged rename) _
             (fun m => Allotment.merged_rural m = Some 1))
    by (intros m; apply Hrural).
  unfold rename_info. simpl. by rewrite !to_records_rename.
Qed.

Lemma dict_set_fmap {V W} (g : V -> W) (k : string) (v : V)
    (d : list (string * V)) :
  OptionC.dict_set k (g v) (prod_map id g <$> d)
  = prod_map id g <$> OptionC.dict_set k v d.
Proof.
  induction d as [|[k' v'] d IH]; [reflexivity|].
  rewrite fmap_cons. cbn [OptionC.dict_set prod_map id fst snd].
  destruct (decide (k' = k)); [reflexivity|].
  by rewrite IH.
Qed.

Lemma allotment_builder_rename (argsort : list Q -> list nat)
    (rename : string -> string) (students_df : list Allotment.Student)
    (internships_df : list Internship)
    (final_scores_df : list Allotment.ScoreRow) :
  Inj (=) (=) rename ->
  Allotment.build_ranklists (sort_merged_by argsort)
    (rename_student rename <$> students_df) internships_df
    (rename_score rename <$> final_scores_df)
  = prod_map id (rename_info rename)
      <$> Allotment.build_ranklists (sort_merged_by argsort) students_df
            internships_df final_scores_df.
Proof.
  intros Hinj. unfold Allotment.build_ranklists.
  rewrite merge_left_rename by exact Hinj.
  induction internships_df as [|intern rows IH] using rev_ind;
    [reflexivity|].
  rewrite !foldl_snoc, IH, info_of_rename. apply dict_set_fmap.
Qed.

Lemma info_of_sorted (argsort : list Q -> list nat)
    (merged : list Allotment.MergedRow) (intern : Internship)
    (cat : Allotment.Category) :
  argsort_descending argsort ->
  StronglySorted entry_desc
    (Allotment.pool (Allotment.info_of (sort_merged_by argsort) merged intern)
       cat).
Proof.
  intros Hargsort.
  assert (forall l, StronglySorted (fun a b => (merged_score b <= merged_score a)%Q) l ->
                    StronglySorted entry_desc (Allotment.to_records l))
    as Hrecords.
  { intros l. apply StronglySorted_fmap. by intros x y H. }
  destruct cat; simpl; apply Hrecords;
    try apply RanklistBuilder.StronglySorted_filter;
    apply sort_by_score_sorted, Hargsort.
Qed.

(** The relabelling of the examples exchanges the identities S00001 and
    S00002, the two tied candidates of [RanklistBuilder.tied_rows]. *)
Definition exchange (sid : string) : string :=
  if decide (sid = "S00001") then "S00002"
  else if decide (sid = "S00002") then "S00001" else sid.

Lemma exchange_inj : Inj (=) (=) exchange.
Proof.
  intros a b. unfold exchange.
  repeat case_decide; subst; intros Heq; try reflexivity;
    try discriminate Heq; congruence.
Qed.

(** The rows of [tied_rows] keep their places when the two tied candidates
    exchange identities: S00001 now comes ahead of S00002 in the general
    pool, because it sits on the earlier row. *)
Example tied_rows_exchanged :
  (fun rl => student_id <$> RanklistBuilder.UR rl)
    <$> RanklistBuilder.build_ranklists
          (RanklistBuilder.sort_values_by argsort_stable)
          (rename_pair exchange <$> RanklistBuilder.tied_rows)
          RanklistBuilder.one_internship !! "I001"
  = Some ["S00003"; "S00001"; "S00002"].
Proof. vm_compute. reflexivity. Qed.

(** The same three candidates for [allotment.build_ranklists]: the scores
    of [RanklistBuilder.tied_rows] as the frame of final scores, and the
    student table they are merged with. *)
Definition tied_scores : list Allotment.ScoreRow :=
  (fun r => {| Allotment.score_student_id :=
                 student_id (RanklistBuilder.pair_cand r);
               Allotment.score_internship_id :=
                 RanklistBuilder.pair_internship_id r;
               Allotment.score_final_score :=
                 final_score (RanklistBuilder.pair_cand r) |})
    <$> RanklistBuilder.tied_rows.

Definition tied_students : list Allotment.Student :=
  (fun r => {| Allotment.stu_student_id :=
                 student_id (RanklistBuilder.pair_cand r);
               Allotment.stu_reservation :=
                 reservation (RanklistBuilder.pair_cand r);
               Allotment.stu_rural := rural (RanklistBuilder.pair_cand r);
               Allotment.stu_gender := gender (RanklistBuilder.pair_cand r);
               Allotment.stu_gpa := 8 |})
    <$> RanklistBuilder.tied_rows.

(** There too S00002 comes ahead of S00001 in the general pool, and behind
    it once the two have exchanged identities. *)
Example tied_scores_UR :
  (fun kv => (kv.1, Allotment.entry_student_id <$> Allotment.list_UR kv.2))
    <$> Allotment.build_ranklists (sort_merged_by argsort_stable)
          tied_students RanklistBuilder.one_internship tied_scores
  = [("I001", ["S00003"; "S00002"; "S00001"])].
Proof. vm_compute. reflexivity. Qed.

Example tied_scores_exchanged :
  (fun kv => (kv.1, Allotment.entry_student_id <$> Allotment.list_UR kv.2))
    <$> Allotment.build_ranklists (sort_merged_by argsort_stable)
          (rename_student exchange <$> tied_students)
          RanklistBuilder.one_internship
          (rename_score exchange <$> tied_scores)
  = [("I001", ["S00003"; "S00001"; "S00002"])].
Proof. vm_compute. reflexivity. Qed.

(** C5 (amended). Let [sort_values] take its rows in the order of an
    indexer computed from the score column, scores descending.  Then every
    pool of every internship is sorted by score, descending, whether it is
    built by [ranklist_builder.build_ranklists] or by
    [allotment.build_ranklists].  The score is the only key: the identity of
    the candidates plays no part in the order, among equal scores or
    otherwise, since giving the candidates other identities, one-to-one,
    leaves every pool of either builder as it was, up to the new
    identities. *)
Theorem ranklists_sorted_by_score_alone
    (argsort : list Q -> list nat) (rename : string -> string)
    (pairs_df : list RanklistBuilder.PairRow)
    (students_df : list Allotment.Student)
    (final_scores_df : list Allotment.ScoreRow)
    (internships_df : list Internship) :
  argsort_descending argsort ->
  Inj (=) (=) rename ->
  let sort_values := RanklistBuilder.sort_values_by argsort in
  let ranklists :=
    RanklistBuilder.build_ranklists sort_values pairs_df internships_df in
  let infos :=
    Allotment.build_ranklists (sort_merged_by argsort) students_df
      internships_df final_scores_df in
  (forall iid rl,
     ranklists !! iid = Some rl ->
     Forall (StronglySorted RanklistBuilder.score_desc)
       [RanklistBuilder.SC rl; RanklistBuilder.ST rl; RanklistBuilder.OBC rl;
        RanklistBuilder.UR rl; RanklistBuilder.RURAL rl])
  /\ (forall iid info cat,
        (iid, info) ∈ infos ->
        StronglySorted entry_desc (Allotment.pool info cat))
  /\ RanklistBuilder.build_ranklists sort_values
       (rename_pair rename <$> pairs_df) internships_df
     = rename_ranklist rename <$> ranklists
  /\ Allotment.build_ranklists (sort_merged_by argsort)
       (rename_student rename <$> students_df) internships_df
       (rename_score rename <$> final_scores_df)
     = prod_map id (rename_info rename) <$> infos.
Proof.
  intros Hargsort Hinj sort_values ranklists infos.
  split; [|split; [|split]].
  - intros iid rl Hrl.
    apply RanklistBuilder.build_ranklists_lookup in Hrl as ->.
    apply RanklistBuilder.ranklist_of_sorted.
    intros l. by apply sort_values_by_sorted.
  - intros iid info cat Hin.
    destruct (Allotment.build_ranklists_spec (sort_merged_by argsort)
                students_df internships_df final_scores_df) as [_ Hfrom].
    destruct (Hfrom iid info Hin) as (intern & _ & _ & ->).
    by apply info_of_sorted.
  - apply ranklist_builder_rename.
  - by apply allotment_builder_rename.
Qed.

Lemma ranklists_sorted_by_score_alone_witness :
  let sort_values := RanklistBuilder.sort_values_by argsort_stable in
  let ranklists :=
    RanklistBuilder.build_ranklists sort_values RanklistBuilder.tied_rows
      RanklistBuilder.one_internship in
  let infos :=
    Allotment.build_ranklists (sort_merged_by argsort_stable) tied_students
      RanklistBuilder.one_internship tied_scores in
  (forall iid rl,
     ranklists !! iid = Some rl ->
     Forall (StronglySorted RanklistBuilder.score_desc)
       [RanklistBuilder.SC rl; RanklistBuilder.ST rl; RanklistBuilder.OBC rl;
        RanklistBuilder.UR rl; RanklistBuilder.RURAL rl])
  /\ (forall iid info cat,
        (iid, info) ∈ infos ->
        StronglySorted entry_desc (Allotment.pool info cat))
  /\ RanklistBuilder.build_ranklists sort_values
       (rename_pair exchange <$> RanklistBuilder.tied_rows)
       RanklistBuilder.one_internship
     = rename_ranklist exchange <$> ranklists
  /\ Allotment.build_ranklists (sort_merged_by argsort_stable)
       (rename_student exchange <$> tied_students)
       RanklistBuilder.one_internship
       (rename_score exchange <$> tied_scores)
     = prod_map id (rename_info exchange) <$> infos.
Proof.
  apply (ranklists_sorted_by_score_alone argsort_stable exchange
           RanklistBuilder.tied_rows tied_students tied_scores
           RanklistBuilder.one_internship).
  - exact argsort_stable_descending.
  - exact exchange_inj.
Defined.

End RanklistOrder.

(** ** main.py: the preference rank of a pair *)

Module Pipeline.
Import DataGenerator.

(** [for r in range(1, 7): if row.get(f"pref_{r}") == iid: return r] over
    the preferences still to be looked at, the next one being number [r];
    [return 7] when none is left. *)
Fixpoint first_pref (prefs : list (option string)) (r : Z) (iid : string) : Z :=
  match prefs with
  | [] => 7
  | p :: prefs' =>
      if decide (p = Some iid) then r else first_pref prefs' (r + 1) iid
  end.

(** [get_pref_rank(row)], for a row with internship [iid] and the six
    preference columns [prefs]. *)
Definition get_pref_rank (prefs : Prefs) (iid : string) : Z :=
  first_pref (prefs_list prefs) 1 iid.

Lemma first_pref_spec prefs r iid :
  (exists i : nat,
     prefs !! i = Some (Some iid)
     /\ (forall j : nat, (j < i)%nat -> prefs !! j <> Some (Some iid))
     /\ first_pref prefs r iid = r + Z.of_nat i)
  \/ ((Some iid ∉ prefs) /\ first_pref prefs r iid = 7).
Proof.
  revert r. induction prefs as [|p prefs IH]; intros r; simpl.
  - right. split; [apply not_elem_of_nil|reflexivity].
  - destruct (decide (p = Some iid)) as [->|Hne].
    + left. exists 0%nat. split; [reflexivity|]. split; [lia|lia].
    + destruct (IH (r + 1)) as [(i & Hi & Hfirst & Hr)|[Hnot Hr]].
      * left. exists (S i). split; [exact Hi|]. split; [|lia].
        intros [|j] Hj; simpl; [congruence|]. apply Hfirst. lia.
      * right. split; [|exact Hr]. apply not_elem_of_cons. by split.
Qed.

(** The preference rank is the number of the first preference column that
    names the internship, and 7 exactly when none of the six does. *)
Theorem get_pref_rank_first_match (prefs : Prefs) (iid : string) :
  let r := get_pref_rank prefs iid in
  1 <= r <= 7
  /\ (r = 7 <-> Some iid ∉ prefs_list prefs)
  /\ (r <= 6 ->
      prefs_list prefs !! Z.to_nat (r - 1) = Some (Some iid)
      /\ forall j : nat, (j < Z.to_nat (r - 1))%nat ->
                         prefs_list prefs !! j <> Some (Some iid)).
Proof.
  unfold get_pref_rank.
  destruct (first_pref_spec (prefs_list prefs) 1 iid)
    as [(i & Hi & Hfirst & ->)|[Hnot ->]].
  - assert (i < 6)%nat as Hlt.
    { apply lookup_lt_Some in Hi. exact Hi. }
    replace (Z.to_nat (1 + Z.of_nat i - 1)) with i by lia.
    split; [lia|]. split; [|by split].
    split; [lia|]. intros Hnot. exfalso. apply Hnot.
    apply list_elem_of_lookup. eauto.
  - split; [lia|]. split; [by split|]. lia.
Qed.

Lemma prefs_by_rank_lookup (ranked : list Posting) (k : nat) :
  (k < 6)%nat ->
  ((fun k => post_internship_id <$> ranked !! k) <$> [0; 1; 2; 3; 4; 5]%nat) !! k
  = Some (post_internship_id <$> ranked !! k).
Proof.
  intros Hk.
  destruct k as [|[|[|[|[|[|k]]]]]]; try reflexivity. lia.
Qed.

Lemma rank_of_ranked (ranked : list Posting) (k : nat) (row : Posting) :
  NoDup (post_internship_id <$> ranked) ->
  ranked !! k = Some row ->
  first_pref ((fun k => post_internship_id <$> ranked !! k)
                <$> [0; 1; 2; 3; 4; 5]%nat) 1 (post_internship_id row)
  = Z.min (Z.of_nat k + 1) 7.
Proof.
  intros Hnd Hk.
  set (prefs := (fun k => post_internship_id <$> ranked !! k)
                  <$> [0; 1; 2; 3; 4; 5]%nat).
  assert (forall j : nat,
            prefs !! j = Some (Some (post_internship_id row)) -> j = k)
    as Hunique.
  { intros j Hj.
    assert (j < 6)%nat as Hj6 by (apply lookup_lt_Some in Hj; exact Hj).
    unfold prefs in Hj. rewrite prefs_by_rank_lookup in Hj by exact Hj6.
    injection Hj as Hj.
    eapply (NoDup_lookup _ j k (post_internship_id row)); [exact Hnd| |].
    - by rewrite list_lookup_fmap.
    - by rewrite list_lookup_fmap, Hk. }
  destruct (first_pref_spec prefs 1 (post_internship_id row))
    as [(i & Hi & _ & ->)|[Hnot ->]].
  - pose proof (Hunique i Hi) as ->.
    assert (k < 6)%nat by (apply lookup_lt_Some in Hi; exact Hi). lia.
  - destruct (decide (k < 6)%nat) as [Hlt|Hge]; [|lia].
    exfalso. apply Hnot. apply list_elem_of_lookup. exists k.
    unfold prefs. rewrite prefs_by_rank_lookup by exact Hlt. by rewrite Hk.
Qed.

(** Round trip through the two functions: with distinct internship
    identities, the preference rank of an internship, computed from the
    preferences that [assign_preferences] returned, is its position when the
    table is sorted by total score, highest first; positions beyond the
    sixth all get rank 7. *)
Theorem get_pref_rank_of_assigned
    (student_skills : string) (internships_df : list Posting) (prefs : Prefs) :
  NoDup (post_internship_id <$> internships_df) ->
  assign_preferences student_skills internships_df = Ok prefs ->
  let skill_set : gset string := list_to_set (split student_skills) in
  exists ranked,
    ranked ≡ₚ internships_df
    /\ StronglySorted (by_total_desc skill_set) ranked
    /\ forall (k : nat) row,
         ranked !! k = Some row ->
         get_pref_rank prefs (post_internship_id row) = Z.min (Z.of_nat k + 1) 7.
Proof.
  intros Hnd Hok skill_set.
  exists (rank_postings skill_set internships_df).
  split; [apply rank_postings_perm|].
  split; [apply rank_postings_sorted|].
  intros k row Hk. unfold get_pref_rank.
  rewrite (assign_preferences_by_rank _ _ _ Hok).
  apply rank_of_ranked; [|exact Hk].
  assert (post_internship_id
            <$> rank_postings (list_to_set (split student_skills)) internships_df
          ≡ₚ post_internship_id <$> internships_df) as Hperm
    by apply fmap_Permutation, rank_postings_perm.
  rewrite Hperm. exact Hnd.
Qed.

Lemma get_pref_rank_of_assigned_witness :
  let skill_set : gset string := list_to_set (split "python ml sql") in
  exists ranked,
    ranked ≡ₚ postings_example
    /\ StronglySorted (by_total_desc skill_set) ranked
    /\ forall (k : nat) row,
         ranked !! k = Some row ->
         get_pref_rank {| pref_1 := Some "I001"; pref_2 := Some "I003";
                          pref_3 := Some "I002"; pref_4 := None;
                          pref_5 := None; pref_6 := None |}
                       (post_internship_id row)
         = Z.min (Z.of_nat k + 1) 7.
Proof.
  apply (get_pref_rank_of_assigned "python ml sql" postings_example).
  - vm_compute. repeat constructor; intros H;
      repeat (apply elem_of_cons in H as [H|H]; [discriminate H|]);
      by apply not_elem_of_nil in H.
  - vm_compute. reflexivity.
Defined.

End Pipeline.

(** ** fairness_metrics.py and json_reports.py: the fairness reports *)

Module Reports.
Import Allotment.

(** [col.value_counts().to_dict()]: how often each value occurs. *)
Definition value_counts (col : list string) : gmap string nat :=
  foldl (fun m v => <[v := S (default 0%nat (m !! v))]> m) ∅ col.

(** [students_df[students_df["student_id"].isin(selected_ids)]] *)
Definition isin_rows (students_df : list Student) (selected_ids : list string) :
    list Student :=
  filter (fun st => stu_student_id st ∈ selected_ids) students_df.

(** [len(df[df["reservation"] == c])] and [len(df[df["rural"] == 1])] *)
Definition count_reservation (c : string) (df : list Student) : nat :=
  length (filter (fun st => stu_reservation st = c) df).

Definition count_rural (df : list Student) : nat :=
  length (filter (fun st => stu_rural st = 1) df).

(** The quotient [a / b] of two counts, [b] not zero. *)
Definition ratio (a b : nat) : Q := Z.of_nat a # Pos.of_nat b.

(** One entry of a parity table; [rate] is [None] where the JSON report
    writes [null]. *)
Record Parity := {
  eligible : nat;
  selected : nat;
  rate : option Q
}.

(** *** [compute_fairness] *)

Record FairnessStats := {
  category_parity : list (string * Parity);
  rural_representation : Parity;
  gender_distribution : gmap string nat
}.

(** The identities of all selected students, one per selection record. *)
Definition flatten_ids {A} (student_of : A -> string)
    (allocations : list (string * list A)) : list string :=
  allocations ≫= fun kv => student_of <$> kv.2.

Definition compute_fairness (final_alloc : list (string * list Cand))
    (students_df : list Student) : FairnessStats :=
  let selected_ids := flatten_ids student_id final_alloc in
  let selected_df := isin_rows students_df selected_ids in
  let categories := ["SC"; "ST"; "OBC"; "GEN"] in
  {| category_parity :=
       (fun c =>
          let eligible := count_reservation c students_df in
          let selected := count_reservation c selected_df in
          (c, {| eligible := eligible; selected := selected;
                 rate := Some (ratio selected (Nat.max 1 eligible)) |}))
       <$> categories;
     rural_representation :=
       (let eligible_r := count_rural students_df in
        let selected_r := count_rural selected_df in
        {| eligible := eligible_r; selected := selected_r;
           rate := Some (ratio selected_r (Nat.max 1 eligible_r)) |});
     gender_distribution := value_counts (stu_gender <$> selected_df) |}.

(** *** [save_fairness_json] *)

Record FairnessReport := {
  report_category_parity : list (string * Parity);
  report_rural_representation : Parity;
  gender_distribution_selected : gmap string nat;
  total_selected : nat
}.

Definition save_fairness_json (allocations : list (string * list Alloc))
    (students_df : list Student) : FairnessReport :=
  let eligible_counts := value_counts (stu_reservation <$> students_df) in
  let selected := flatten_ids alloc_student_id allocations in
  let selected_df := isin_rows students_df selected in
  let selected_counts := value_counts (stu_reservation <$> selected_df) in
  {| report_category_parity :=
       (fun cat =>
          let eligible := default 0%nat (eligible_counts !! cat) in
          let sel := default 0%nat (selected_counts !! cat) in
          (cat, {| eligible := eligible; selected := sel;
                   rate := if decide (0 < eligible)%nat
                           then Some (ratio sel eligible) else None |}))
       <$> ["SC"; "ST"; "OBC"; "GEN"];
     report_rural_representation :=
       (let eligible_rural := count_rural students_df in
        let selected_rural := count_rural selected_df in
        {| eligible := eligible_rural; selected := selected_rural;
           rate := if decide (0 < eligible_rural)%nat
                   then Some (ratio selected_rural eligible_rural) else None |});
     gender_distribution_selected := value_counts (stu_gender <$> selected_df);
     total_selected := length selected |}.

(** *** Properties *)

Lemma value_counts_lookup (col : list string) (v : string) :
  default 0%nat (value_counts col !! v) = length (filter (fun x => x = v) col).
Proof.
  unfold value_counts.
  induction col as [|x col IH] using rev_ind; [simpl; by rewrite lookup_empty|].
  rewrite foldl_snoc, filter_app, length_app, <- IH.
  rewrite filter_cons, filter_nil.
  destruct (decide (x = v)) as [->|Hne].
  - rewrite lookup_insert_eq. simpl. lia.
  - rewrite lookup_insert_ne by exact Hne. simpl. lia.
Qed.

Lemma value_counts_None (col : list string) (v : string) :
  value_counts col !! v = None <-> v ∉ col.
Proof.
  unfold value_counts.
  induction col as [|x col IH] using rev_ind.
  - simpl. rewrite lookup_empty. split; [intros _; apply not_elem_of_nil|done].
  - rewrite foldl_snoc, not_elem_of_app, list_elem_of_singleton.
    destruct (decide (x = v)) as [->|Hne].
    + rewrite lookup_insert_eq. split; [discriminate|tauto].
    + rewrite lookup_insert_ne by exact Hne. rewrite IH. split; [|tauto].
      intros H. split; [exact H|congruence].
Qed.

Lemma count_reservation_counts (c : string) (df : list Student) :
  default 0%nat (value_counts (stu_reservation <$> df) !! c)
  = count_reservation c df.
Proof.
  rewrite value_counts_lookup. unfold count_reservation.
  induction df as [|st df IH]; [reflexivity|].
  rewrite fmap_cons, !filter_cons.
  destruct (decide (stu_reservation st = c)); simpl; by rewrite IH.
Qed.

Lemma filter_isin_le (P : Student -> Prop) `{!forall st, Decision (P st)}
    (students_df : list Student) (ids : list string) :
  (length (filter P (isin_rows students_df ids))
   <= length (filter P students_df))%nat.
Proof.
  unfold isin_rows. rewrite list_filter_filter.
  induction students_df as [|st df IH]; [reflexivity|].
  rewrite !filter_cons.
  destruct (decide (P st ∧ stu_student_id st ∈ ids)) as [[HP _]|Hn];
    destruct (decide (P st)); simpl; try lia; tauto.
Qed.

Lemma ratio_unit (a b : nat) :
  (a <= b)%nat -> (0 < b)%nat -> (0 <= ratio a b)%Q /\ (ratio a b <= 1)%Q.
Proof.
  intros Hab Hb. unfold ratio, Qle. simpl.
  assert (Z.pos (Pos.of_nat b) = Z.of_nat b) as ->.
  { rewrite <- positive_nat_Z, Nat2Pos.id by lia. reflexivity. }
  lia.
Qed.

(** A parity entry is sound: no more selected than eligible, and a rate
    between 0 and 1. *)
Definition parity_sound (p : Parity) : Prop :=
  (selected p <= eligible p)%nat
  /\ forall q, rate p = Some q -> (0 <= q)%Q /\ (q <= 1)%Q.

(** In the statistics of [compute_fairness] every category, and the rural
    entry, has no more students selected than eligible and a rate between 0
    and 1; the rate is selected over eligible, and 0 for a category nobody
    is eligible in. *)
Theorem compute_fairness_rates
    (final_alloc : list (string * list Cand)) (students_df : list Student) :
  let stats := compute_fairness final_alloc students_df in
  (category_parity stats).*1 = ["SC"; "ST"; "OBC"; "GEN"]
  /\ Forall (fun entry =>
               parity_sound entry.2
               /\ eligible entry.2 = count_reservation entry.1 students_df
               /\ rate entry.2
                  = Some (if decide (0 < eligible entry.2)%nat
                          then ratio (selected entry.2) (eligible entry.2)
                          else 0%Q))
            (category_parity stats)
  /\ parity_sound (rural_representation stats).
Proof.
  assert (forall e s : nat,
            (s <= e)%nat ->
            parity_sound {| eligible := e; selected := s;
                            rate := Some (ratio s (Nat.max 1 e)) |}
            /\ Some (ratio s (Nat.max 1 e))
               = Some (if decide (0 < e)%nat then ratio s e else 0%Q))
    as Hentry.
  { intros e s Hse. split.
    - split; [exact Hse|]. simpl. intros q [= <-]. apply ratio_unit; lia.
    - f_equal. destruct (decide (0 < e)%nat) as [Hpos|Hzero].
      + by rewrite Nat.max_r by lia.
      + assert (e = 0%nat) as -> by lia. by assert (s = 0%nat) as -> by lia. }
  simpl. split; [reflexivity|]. split.
  - repeat (apply Forall_cons; split;
              [simpl; split; [apply Hentry, (filter_isin_le _)|];
               split; [reflexivity|apply Hentry, (filter_isin_le _)]|]).
    apply Forall_nil_2.
  - apply Hentry, (filter_isin_le _).
Qed.

(** The rate [sel / eligible if eligible > 0 else None] of
    [save_fairness_json] against the rate [selected / max(1, eligible)] of
    [compute_fairness], on the same two counts. *)
Lemma rates_agree (e s : nat) :
  (s <= e)%nat ->
  (if decide (0 < e)%nat then Some (ratio s e) else None)
  = (if decide (0 < e)%nat then Some (ratio s (Nat.max 1 e)) else None)
  /\ (e = 0%nat -> Some (ratio s (Nat.max 1 e)) = Some 0%Q).
Proof.
  intros Hse. split.
  - destruct (decide (0 < e)%nat); [|reflexivity].
    by rewrite Nat.max_r by lia.
  - intros ->. by assert (s = 0%nat) as -> by lia.
Qed.

(** [compute_fairness] and [save_fairness_json] agree on a common set of
    selected identities: same eligible and selected counts for every
    category and for the rural entry, and, for every category and for the
    rural entry alike, the same rate wherever somebody is eligible; where
    nobody is, the first reports the rate 0 and the second [null].  The
    gender distributions are equal, and the second report also counts one
    selected student per allocation record. *)
Theorem fairness_reports_agree
    (final_alloc : list (string * list Cand))
    (allocations : list (string * list Alloc)) (students_df : list Student) :
  flatten_ids student_id final_alloc = flatten_ids alloc_student_id allocations ->
  let stats := compute_fairness final_alloc students_df in
  let report := save_fairness_json allocations students_df in
  Forall2 (fun a b =>
             a.1 = b.1
             /\ eligible a.2 = eligible b.2 /\ selected a.2 = selected b.2
             /\ rate b.2 = (if decide (0 < eligible a.2)%nat
                            then rate a.2 else None)
             /\ (eligible a.2 = 0%nat -> rate a.2 = Some 0%Q))
          (category_parity stats) (report_category_parity report)
  /\ eligible (rural_representation stats)
     = eligible (report_rural_representation report)
  /\ selected (rural_representation stats)
     = selected (report_rural_representation report)
  /\ rate (report_rural_representation report)
     = (if decide (0 < eligible (rural_representation stats))%nat
        then rate (rural_representation stats) else None)
  /\ (eligible (rural_representation stats) = 0%nat ->
      rate (rural_representation stats) = Some 0%Q)
  /\ gender_distribution stats = gender_distribution_selected report
  /\ total_selected report = length (allocations ≫= snd).
Proof.
  intros Hids. simpl. rewrite <- Hids. rewrite !count_reservation_counts.
  set (selected_df := isin_rows students_df (flatten_ids student_id final_alloc)).
  assert (forall c,
            (count_reservation c selected_df
             <= count_reservation c students_df)%nat) as Hle.
  { intros c. apply (filter_isin_le _). }
  assert (count_rural selected_df <= count_rural students_df)%nat as Hrural.
  { apply (filter_isin_le _). }
  split; [|split; [reflexivity|split; [reflexivity|
           split; [apply rates_agree, Hrural|
           split; [apply rates_agree, Hrural|split; [reflexivity|]]]]]].
  - repeat (apply Forall2_cons; split;
              [simpl; split; [reflexivity|]; split; [reflexivity|];
               split; [reflexivity|apply rates_agree, Hle]|]).
    apply Forall2_nil_2.
  - rewrite Hids. unfold flatten_ids.
    clear. induction allocations as [|kv l IH]; [reflexivity|].
    rewrite !bind_cons, !length_app, length_fmap. by rewrite IH.
Qed.

Definition known_I001 : list (string * list Cand) :=
  [("I001", [OptionC.s1; OptionC.s4; OptionC.s6])].

Definition allocated_I001 : list (string * list Alloc) :=
  [("I001",
    [ {| alloc_student_id := "s1"; category := SC; alloc_final_score := Some (9 # 10) |};
      {| alloc_student_id := "s4"; category := UR; alloc_final_score := Some (6 # 10) |};
      {| alloc_student_id := "s6"; category := RURAL; alloc_final_score := Some (4 # 10) |} ])].

Lemma fairness_reports_agree_witness :
  let stats := compute_fairness known_I001 students_known in
  let report := save_fairness_json allocated_I001 students_known in
  Forall2 (fun a b =>
             a.1 = b.1
             /\ eligible a.2 = eligible b.2 /\ selected a.2 = selected b.2
             /\ rate b.2 = (if decide (0 < eligible a.2)%nat
                            then rate a.2 else None)
             /\ (eligible a.2 = 0%nat -> rate a.2 = Some 0%Q))
          (category_parity stats) (report_category_parity report)
  /\ eligible (rural_representation stats)
     = eligible (report_rural_representation report)
  /\ selected (rural_representation stats)
     = selected (report_rural_representation report)
  /\ rate (report_rural_representation report)
     = (if decide (0 < eligible (rural_representation stats))%nat
        then rate (rural_representation stats) else None)
  /\ (eligible (rural_representation stats) = 0%nat ->
      rate (rural_representation stats) = Some 0%Q)
  /\ gender_distribution stats = gender_distribution_selected report
  /\ total_selected report = length (allocated_I001 ≫= snd).
Proof.
  apply (fairness_reports_agree known_I001 allocated_I001 students_known).
  vm_compute. reflexivity.
Defined.

Lemma gender_counts (df : list Student) (g : string) :
  default 0%nat (value_counts (stu_gender <$> df) !! g)
  = length (filter (fun st => stu_gender st = g) df).
Proof.
  rewrite value_counts_lookup.
  induction df as [|st df IH]; [reflexivity|].
  rewrite fmap_cons, !filter_cons.
  destruct (decide (stu_gender st = g)); simpl; by rewrite IH.
Qed.

(** The gender distribution of [compute_fairness] counts rows of
    [students_df]: a student counts once however many internships selected
    it, a selected identity missing from [students_df] counts nowhere, and a
    gender no selected student has is absent from the dictionary. *)
Theorem gender_distribution_counts_students
    (final_alloc : list (string * list Cand)) (students_df : list Student)
    (g : string) :
  let stats := compute_fairness final_alloc students_df in
  let selected_ids := flatten_ids student_id final_alloc in
  default 0%nat (gender_distribution stats !! g)
  = length (filter (fun st => stu_gender st = g /\ stu_student_id st ∈ selected_ids)
                   students_df)
  /\ (gender_distribution stats !! g = None
      <-> forall st, st ∈ students_df -> stu_student_id st ∈ selected_ids ->
                     stu_gender st <> g).
Proof.
  simpl. split.
  - rewrite gender_counts. unfold isin_rows. by rewrite list_filter_filter.
  - rewrite value_counts_None, list_elem_of_fmap. split.
    + intros Hnone st Hst Hsel Hg. apply Hnone. exists st.
      split; [done|]. by apply list_elem_of_filter.
    + intros Hnone (st & -> & Hst). apply list_elem_of_filter in Hst as [Hsel Hst].
      by apply (Hnone st).
Qed.

(** *** admin_reports.py and json_reports.py: the exports *)

(** [df[df[col] == v]] followed by the [len(...) == 0] test and [.iloc[0]]:
    the first row with that identity, if there is one. *)
Definition first_student (students_df : list Student) (sid : string) :
    option Student :=
  head (filter (fun st => stu_student_id st = sid) students_df).

Definition first_internship (internships_df : list Internship) (iid : string) :
    option Internship :=
  head (filter (fun i => internship_id i = iid) internships_df).

(** A row of the CSV, restricted to the columns taken from the allocation
    record and from the student. *)
Record CsvRow := {
  csv_internship_id : string;
  csv_student_id : string;
  category_allotted : Category;
  round_position : nat;
  csv_reservation : string;
  csv_rural : Z;
  csv_gender : string;
  csv_final_score : option Q
}.

(** The body of the inner loop of [export_allocations_csv]: the row
    appended for the record at [position], or nothing after a [continue]. *)
Definition export_record (students_df : list Student)
    (internships_df : list Internship) (internship_id : string)
    (position : nat) (rec : Alloc) : option CsvRow :=
  match first_student students_df (alloc_student_id rec) with
  | None => None
  | Some s =>
      match first_internship internships_df internship_id with
      | None => None
      | Some i =>
          Some {| csv_internship_id := internship_id;
                  csv_student_id := alloc_student_id rec;
                  category_allotted := category rec;
                  round_position := position;
                  csv_reservation := stu_reservation s;
                  csv_rural := stu_rural s;
                  csv_gender := stu_gender s;
                  csv_final_score := alloc_final_score rec |}
      end
  end.

(** [enumerate(assigned_list, start=1)] *)
Definition enumerate_from_1 {A} (l : list A) : list (nat * A) :=
  imap (fun k x => (S k, x)) l.

Definition export_allocations_csv (allocations : list (string * list Alloc))
    (students_df : list Student) (internships_df : list Internship) :
    list CsvRow :=
  allocations ≫= fun kv =>
    omap (fun px => export_record students_df internships_df kv.1 px.1 px.2)
         (enumerate_from_1 kv.2).

Lemma first_student_Some students_df sid s :
  first_student students_df sid = Some s ->
  s ∈ students_df /\ stu_student_id s = sid.
Proof.
  unfold first_student. intros H. apply head_Some_elem_of in H.
  by apply list_elem_of_filter in H as [? ?].
Qed.

Lemma first_student_known students_df sid :
  sid ∈ stu_student_id <$> students_df ->
  is_Some (first_student students_df sid).
Proof.
  intros Hin. apply list_elem_of_fmap in Hin as (s & -> & Hs).
  unfold first_student.
  destruct (filter (fun st => stu_student_id st = stu_student_id s) students_df)
    as [|s0 l] eqn:Hf; [|by eexists].
  assert (s ∈ filter (fun st => stu_student_id st = stu_student_id s) students_df)
    as Hs' by (by apply list_elem_of_filter).
  rewrite Hf in Hs'. by apply not_elem_of_nil in Hs'.
Qed.

Lemma first_internship_known internships_df iid :
  iid ∈ internship_id <$> internships_df ->
  is_Some (first_internship internships_df iid).
Proof.
  intros Hin. apply list_elem_of_fmap in Hin as (i & -> & Hi).
  unfold first_internship.
  destruct (filter (fun i0 => internship_id i0 = internship_id i) internships_df)
    as [|i0 l] eqn:Hf; [|by eexists].
  assert (i ∈ filter (fun i0 => internship_id i0 = internship_id i) internships_df)
    as Hi' by (by apply list_elem_of_filter).
  rewrite Hf in Hi'. by apply not_elem_of_nil in Hi'.
Qed.

(** Every row of the CSV comes from an allocation record: its
    [round_position], counted from 1, is the place of that record in the
    list of its internship, its category and score are the record's, and its
    reservation, rural flag and gender are those of a student row with the
    record's identity. *)
Theorem export_rows_come_from_records
    (allocations : list (string * list Alloc)) (students_df : list Student)
    (internships_df : list Internship) (row : CsvRow) :
  row ∈ export_allocations_csv allocations students_df internships_df ->
  exists assigned rec s,
    (csv_internship_id row, assigned) ∈ allocations
    /\ (1 <= round_position row <= length assigned)%nat
    /\ assigned !! (round_position row - 1)%nat = Some rec
    /\ csv_student_id row = alloc_student_id rec
    /\ category_allotted row = category rec
    /\ csv_final_score row = alloc_final_score rec
    /\ s ∈ students_df /\ stu_student_id s = csv_student_id row
    /\ csv_reservation row = stu_reservation s
    /\ csv_rural row = stu_rural s /\ csv_gender row = stu_gender s
    /\ csv_internship_id row ∈ internship_id <$> internships_df.
Proof.
  unfold export_allocations_csv. intros Hrow.
  apply list_elem_of_bind in Hrow as ([iid assigned] & Hrow & Hkv).
  apply list_elem_of_omap in Hrow as ([position rec] & Hpx & Hexp).
  apply elem_of_lookup_imap in Hpx as (k & rec' & [= -> ->] & Hk).
  unfold export_record in Hexp. simpl in Hexp.
  destruct (first_student students_df (alloc_student_id rec')) as [s|] eqn:Hs;
    [|discriminate].
  destruct (first_internship internships_df iid) as [i|] eqn:Hi; [|discriminate].
  injection Hexp as <-. simpl in *.
  apply first_student_Some in Hs as [Hs Hsid].
  assert (iid ∈ internship_id <$> internships_df) as Hiid.
  { apply head_Some_elem_of, list_elem_of_filter in Hi as [<- Hi].
    apply list_elem_of_fmap. by exists i. }
  exists assigned, rec', s.
  pose proof (lookup_lt_Some _ _ _ Hk) as Hlt.
  split; [exact Hkv|]. split; [lia|].
  split; [by rewrite Nat.sub_0_r|].
  repeat (split; [done|]). exact Hiid.
Qed.

Lemma export_rows_come_from_records_witness :
  let row := {| csv_internship_id := "I001"; csv_student_id := "s4";
                category_allotted := UR; round_position := 2;
                csv_reservation := "GEN"; csv_rural := 0; csv_gender := "F";
                csv_final_score := Some (6 # 10) |} in
  exists assigned rec s,
    (csv_internship_id row, assigned) ∈ allocated_I001
    /\ (1 <= round_position row <= length assigned)%nat
    /\ assigned !! (round_position row - 1)%nat = Some rec
    /\ csv_student_id row = alloc_student_id rec
    /\ category_allotted row = category rec
    /\ csv_final_score row = alloc_final_score rec
    /\ s ∈ students_known /\ stu_student_id s = csv_student_id row
    /\ csv_reservation row = stu_reservation s
    /\ csv_rural row = stu_rural s /\ csv_gender row = stu_gender s
    /\ csv_internship_id row ∈ internship_id <$> internships_I001.
Proof.
  intros row.
  apply (export_rows_come_from_records allocated_I001 students_known
           internships_I001 row).
  vm_compute. apply list_elem_of_further, list_elem_of_here.
Defined.

Lemma omap_length_le {A B} (f : A -> option B) (l : list A) :
  (length (omap f l) <= length l)%nat.
Proof.
  induction l as [|x l IH]; [reflexivity|].
  change (omap f (x :: l))
    with (match f x with Some y => y :: omap f l | None => omap f l end).
  destruct (f x); simpl; lia.
Qed.

Lemma omap_length_all {A B} (f : A -> option B) (l : list A) :
  Forall (fun x => is_Some (f x)) l -> length (omap f l) = length l.
Proof.
  induction 1 as [|x l [y Hy] Hl IH]; [reflexivity|].
  change (omap f (x :: l))
    with (match f x with Some y => y :: omap f l | None => omap f l end).
  rewrite Hy. simpl. by rewrite IH.
Qed.

(** The CSV never has more rows than there are allocation records; it has
    one row per record when every allocated student is in [students_df] and
    every internship of the allocation is in [internships_df]. *)
Theorem export_row_count
    (allocations : list (string * list Alloc)) (students_df : list Student)
    (internships_df : list Internship) :
  (length (export_allocations_csv allocations students_df internships_df)
   <= length (allocations ≫= snd))%nat
  /\ ((forall iid assigned rec,
         (iid, assigned) ∈ allocations -> rec ∈ assigned ->
         iid ∈ internship_id <$> internships_df
         /\ alloc_student_id rec ∈ stu_student_id <$> students_df) ->
      length (export_allocations_csv allocations students_df internships_df)
      = length (allocations ≫= snd)).
Proof.
  unfold export_allocations_csv. split.
  - induction allocations as [|kv l IH]; [reflexivity|].
    rewrite !bind_cons, !length_app.
    pose proof (omap_length_le
                  (fun px => export_record students_df internships_df kv.1
                               px.1 px.2) (enumerate_from_1 kv.2)) as Hle.
    unfold enumerate_from_1 in Hle at 2. rewrite length_imap in Hle. lia.
  - induction allocations as [|[iid assigned] l IH]; intros Hknown;
      [reflexivity|].
    rewrite !bind_cons, !length_app. rewrite IH.
    + f_equal. simpl. rewrite omap_length_all.
      * unfold enumerate_from_1. by rewrite length_imap.
      * apply list.Forall_forall. intros [position rec] Hpx.
        apply elem_of_lookup_imap in Hpx as (k & rec' & [= -> ->] & Hk).
        destruct (Hknown iid assigned rec') as [Hiid Hsid].
        { apply list_elem_of_here. }
        { apply list_elem_of_lookup. eauto. }
        unfold export_record. simpl.
        destruct (first_student_known _ _ Hsid) as [s ->].
        destruct (first_internship_known _ _ Hiid) as [i ->]. eauto.
    + intros iid' assigned' rec' Hin Hrec. apply (Hknown iid' assigned' rec');
        [by apply list_elem_of_further|exact Hrec].
Qed.

(** *** [save_final_allocations_json] *)

(** An element of [out[iid]["allocations"]], restricted as [CsvRow] is. *)
Record JsonAllocation := {
  json_student_id : string;
  json_category : Category;
  json_final_score : option Q;
  json_reservation : string;
  json_rural : Z;
  json_gender : string
}.

(** [out[iid]] *)
Record JsonInternship := {
  json_capacity : Z;
  filled : nat;
  json_allocations : list JsonAllocation
}.

(** The body of the loop over [assigned]: the element appended for [rec],
    or nothing after a [continue]. *)
Definition json_record (students_df : list Student) (rec : Alloc) :
    option JsonAllocation :=
  match first_student students_df (alloc_student_id rec) with
  | None => None
  | Some srow =>
      Some {| json_student_id := alloc_student_id rec;
              json_category := category rec;
              json_final_score := alloc_final_score rec;
              json_reservation := stu_reservation srow;
              json_rural := stu_rural srow;
              json_gender := stu_gender srow |}
  end.

Definition save_final_allocations_json
    (allocations : list (string * list Alloc)) (students_df : list Student)
    (internships_df : list Internship) : list (string * JsonInternship) :=
  foldl (fun out kv =>
           match first_internship internships_df kv.1 with
           | None => out
           | Some int_row =>
               OptionC.dict_set kv.1
                 {| json_capacity := capacity int_row;
                    filled := length kv.2;
                    json_allocations := omap (json_record students_df) kv.2 |}
                 out
           end)
        [] allocations.

(** In the JSON of final allocations every internship written is one of the
    capacity table and carries its capacity; ["filled"] is the number of
    allocation records of the internship, which the list written under
    ["allocations"] never exceeds and equals when every allocated student is
    in [students_df]. *)
Theorem final_allocations_json_filled
    (allocations : list (string * list Alloc)) (students_df : list Student)
    (internships_df : list Internship) (iid : string) (entry : JsonInternship) :
  (iid, entry) ∈ save_final_allocations_json allocations students_df
                   internships_df ->
  exists assigned int_row,
    (iid, assigned) ∈ allocations
    /\ int_row ∈ internships_df /\ internship_id int_row = iid
    /\ json_capacity entry = capacity int_row
    /\ filled entry = length assigned
    /\ (length (json_allocations entry) <= filled entry)%nat
    /\ ((forall rec, rec ∈ assigned ->
           alloc_student_id rec ∈ stu_student_id <$> students_df) ->
        length (json_allocations entry) = filled entry).
Proof.
  unfold save_final_allocations_json.
  induction allocations as [|[iid0 assigned0] l IH] using rev_ind; simpl.
  - intros H. by apply not_elem_of_nil in H.
  - rewrite foldl_snoc. simpl.
    assert ((iid, entry) ∈ foldl
              (fun out kv =>
                 match first_internship internships_df kv.1 with
                 | None => out
                 | Some int_row =>
                     OptionC.dict_set kv.1
                       {| json_capacity := capacity int_row;
                          filled := length kv.2;
                          json_allocations := omap (json_record students_df) kv.2 |}
                       out
                 end) [] l ->
            exists assigned int_row,
              (iid, assigned) ∈ l ++ [(iid0, assigned0)]
              /\ int_row ∈ internships_df /\ internship_id int_row = iid
              /\ json_capacity entry = capacity int_row
              /\ filled entry = length assigned
              /\ (length (json_allocations entry) <= filled entry)%nat
              /\ ((forall rec, rec ∈ assigned ->
                     alloc_student_id rec ∈ stu_student_id <$> students_df) ->
                  length (json_allocations entry) = filled entry)) as Hold.
    { intros Hin. destruct (IH Hin) as (assigned & int_row & Hkv & Hrest).
      exists assigned, int_row. split; [|exact Hrest].
      apply elem_of_app. by left. }
    destruct (first_internship internships_df iid0) as [int_row|] eqn:Hint;
      [|exact Hold].
    intros Hin. apply OptionC.dict_set_elem in Hin as [Heq|Hin];
      [|by apply Hold].
    injection Heq as -> ->. simpl.
    apply head_Some_elem_of, list_elem_of_filter in Hint as [Hid Hint].
    exists assigned0, int_row.
    split; [apply elem_of_app; right; apply list_elem_of_here|].
    split; [exact Hint|]. split; [exact Hid|]. split; [reflexivity|].
    split; [reflexivity|]. split; [apply omap_length_le|].
    intros Hknown. apply omap_length_all.
    apply list.Forall_forall. intros rec Hrec. unfold json_record.
    destruct (first_student_known _ _ (Hknown rec Hrec)) as [s ->]. eauto.
Qed.

Lemma final_allocations_json_filled_witness :
  let entry := {| json_capacity := 5; filled := 3;
                  json_allocations := omap (json_record students_known)
                                           (allocated_I001 ≫= snd) |} in
  exists assigned int_row,
    ("I001", assigned) ∈ allocated_I001
    /\ int_row ∈ internships_I001 /\ internship_id int_row = "I001"
    /\ json_capacity entry = capacity int_row
    /\ filled entry = length assigned
    /\ (length (json_allocations entry) <= filled entry)%nat
    /\ ((forall rec, rec ∈ assigned ->
           alloc_student_id rec ∈ stu_student_id <$> students_known) ->
        length (json_allocations entry) = filled entry).
Proof.
  intros entry.
  apply (final_allocations_json_filled allocated_I001 students_known
           internships_I001 "I001" entry).
  vm_compute. apply list_elem_of_here.
Defined.

(** *** From the engine to the CSV *)

(** [allocations.items()] for the dictionary that [multi_round_allotment]
    returns: one entry per item of [ranklists], in that order. *)
Definition allocation_items (ranklists : list (string * Info))
    (allocations : gmap string (list Alloc)) : list (string * list Alloc) :=
  (fun item => (item.1, allocations !!! item.1)) <$> ranklists.

Lemma export_ids_sublist students_df internships_df iid
    (idx : nat -> nat) (assigned : list Alloc) :
  csv_student_id
    <$> omap (fun px => export_record students_df internships_df iid px.1 px.2)
             (imap (fun k x => (idx k, x)) assigned)
  `sublist_of` alloc_student_id <$> assigned.
Proof.
  revert idx. induction assigned as [|rec l IH]; intros idx; [reflexivity|].
  rewrite imap_cons.
  change (omap ?f (?x :: ?l))
    with (match f x with Some y => y :: omap f l | None => omap f l end).
  simpl. unfold export_record at 1.
  destruct (first_student students_df (alloc_student_id rec));
    [destruct (first_internship internships_df iid)|]; simpl.
  - apply sublist_skip, (IH (idx ∘ S)).
  - apply sublist_cons, (IH (idx ∘ S)).
  - apply sublist_cons, (IH (idx ∘ S)).
Qed.

Lemma export_all_ids_sublist allocations students_df internships_df :
  csv_student_id <$> export_allocations_csv allocations students_df internships_df
  `sublist_of` flatten_ids alloc_student_id allocations.
Proof.
  unfold export_allocations_csv, flatten_ids.
  induction allocations as [|kv l IH]; [reflexivity|].
  rewrite !bind_cons, fmap_app.
  apply sublist_app; [apply export_ids_sublist|exact IH].
Qed.

Lemma allocation_items_NoDup (ranklists : list (string * Info)) (s : State) :
  NoDup ranklists.*1 -> held_once s ->
  NoDup (flatten_ids alloc_student_id (allocation_items ranklists (allocations s))).
Proof.
  intros Hnd Hheld. unfold allocation_items, flatten_ids.
  induction ranklists as [|[iid info] l IH]; [constructor|].
  rewrite fmap_cons, bind_cons. simpl in *.
  apply NoDup_cons in Hnd as [Hiid Hnd].
  apply NoDup_app. split; [apply (Hheld iid)|]. split; [|by apply IH].
  intros sid Hhere Hthere.
  apply list_elem_of_fmap in Hhere as (a & -> & Ha).
  apply list_elem_of_bind in Hthere as ([iid' assigned] & Hsid & Hkv).
  apply list_elem_of_fmap in Hkv as ([iid'' info'] & [= -> ->] & Hitem).
  simpl in Hsid. apply list_elem_of_fmap in Hsid as (a' & Hid & Ha').
  apply (Hheld iid) in Ha. apply (Hheld iid'') in Ha'.
  rewrite Hid in Ha. assert (iid = iid'') as -> by congruence.
  apply Hiid. apply list_elem_of_fmap. by exists (iid'', info').
Qed.

(** The CSV exported from the result of [multi_round_allotment] never lists
    a student twice, when no internship is listed twice in the ranklists. *)
Theorem export_of_multi_round_no_duplicates
    (list_of_set : gset string -> list string)
    (ranklists : list (string * Info)) (final_scores_df : list ScoreRow)
    (max_rounds : Z) (students_df : list Student)
    (internships_df : list Internship) :
  NoDup ranklists.*1 ->
  let allocations :=
    result_allocations
      (multi_round_allotment list_of_set ranklists final_scores_df max_rounds) in
  NoDup (csv_student_id
           <$> export_allocations_csv (allocation_items ranklists allocations)
                 students_df internships_df).
Proof.
  intros Hnd. unfold multi_round_allotment.
  pose proof (rounds_loop_held_once (Z.to_nat max_rounds)
                (make_score_lookup final_scores_df) ranklists 0
                (state_init ranklists) [] (state_init_held_once ranklists))
    as Hheld.
  destruct (rounds_loop _ _ _ _ _ _) as [s round_logs].
  unfold result_allocations. simpl in *.
  eapply sublist_NoDup; [|apply export_all_ids_sublist].
  by apply allocation_items_NoDup.
Qed.

Lemma export_of_multi_round_no_duplicates_witness :
  let allocations :=
    result_allocations
      (multi_round_allotment elements [("I001", info_I001)] scores_I001 10) in
  NoDup (csv_student_id
           <$> export_allocations_csv
                 (allocation_items [("I001", info_I001)] allocations)
                 students_known internships_I001).
Proof.
  apply (export_of_multi_round_no_duplicates elements [("I001", info_I001)]
           scores_I001 10 students_known internships_I001).
  apply NoDup_singleton.
Defined.

End Reports.
